(** * Lab0-MLOPS: the preprocessing library, embedded and verified

    A shallow embedding of [src/preprocessing.py] and of the argument
    processing of [src/cli.py].  Python values are a
    tagged union, exceptions are an explicit error result, loops that
    append to an accumulator are recursive functions carrying that
    accumulator, and Python floats are IEEE 754 binary64 numbers in the
    Standard Library's executable specification [SpecFloat]. *)

From Stdlib Require Import ZArith Ascii String Bool Lia.
From Stdlib Require Import Floats.SpecFloat.
From stdpp Require Import base tactics option list.

Local Open Scope Z_scope.
Local Set Warnings "-register-all".

(** ** Python values *)

(** A [str] is a sequence of Unicode code points. *)
Definition codepoint := N.
Definition pystr := list codepoint.

(** An ASCII literal as a Python string. *)
Definition str (s : string) : pystr :=
  List.map N_of_ascii (list_ascii_of_string s).

(** A Python [float] is a binary64 number. *)
Definition prec : Z := 53.
Definition emax : Z := 1024.
Definition pyfloat := spec_float.

Definition is_finite_float (f : pyfloat) : bool :=
  match f with
  | S754_zero _ | S754_finite _ _ _ => true
  | _ => false
  end.

Definition SF64add := SFadd prec emax.
Definition SF64sub := SFsub prec emax.
Definition SF64mul := SFmul prec emax.
Definition SF64div := SFdiv prec emax.

Definition fzero : pyfloat := S754_zero false.
Definition fone : pyfloat := S754_finite false 4503599627370496 (-52).

(** Numbers: [bool] is a subclass of [int]; both are exact integers. *)
Inductive num : Type :=
  | NBool (b : bool)
  | NInt (z : Z)
  | NFloat (f : pyfloat).

Inductive value : Type :=
  | VNone
  | VNum (n : num)
  | VStr (s : pystr)
  | VList (l : list value).

Abbreviation VBool b := (VNum (NBool b)).
Abbreviation VInt z := (VNum (NInt z)).
Abbreviation VFloat f := (VNum (NFloat f)).

#[global] Instance spec_float_eq_dec : EqDecision spec_float.
Proof. solve_decision. Defined.

#[global] Instance num_eq_dec : EqDecision num.
Proof. solve_decision. Defined.

(** ** Exceptions *)

Inductive exn : Type :=
  | TypeError
  | ValueError
  | OverflowError
  | ZeroDivisionError.

Inductive result (A : Type) : Type :=
  | Ok (a : A)
  | Raise (e : exn).
Arguments Ok {A} a.
Arguments Raise {A} e.

Definition bind {A B} (r : result A) (k : A -> result B) : result B :=
  match r with
  | Ok a => k a
  | Raise e => Raise e
  end.

Notation "'let!' x ':=' r 'in' k" := (bind r (fun x => k))
  (at level 10, x name, r at level 100, k at level 200).

(** A list comprehension whose body can raise: the first exception
    aborts it. *)
Fixpoint comprehension {A B} (f : A -> result B) (l : list A) : result (list B) :=
  match l with
  | [] => Ok []
  | x :: r =>
      let! y := f x in
      let! ys := comprehension f r in
      Ok (y :: ys)
  end.

(** ** Type tests *)

(** [isinstance(x, list)] *)
Definition is_list (x : value) : bool :=
  match x with VList _ => true | _ => false end.

(** [isinstance(x, (int, float))] *)
Definition is_numeric (x : value) : bool :=
  match x with VNum _ => true | _ => false end.

(** [isinstance(x, str)] *)
Definition is_str (x : value) : bool :=
  match x with VStr _ => true | _ => false end.

(** [hash(x)] succeeds on everything but lists. *)
Definition hashable (x : value) : bool := negb (is_list x).

(** ** Arithmetic and comparison of numbers *)

Module Num.

Definition int_of (n : num) : option Z :=
  match n with
  | NBool b => Some (Z.b2z b)
  | NInt z => Some z
  | NFloat _ => None
  end.

Definition is_nan (n : num) : bool :=
  match n with NFloat S754_nan => true | _ => false end.

(** A number that is neither infinite nor not-a-number. *)
Definition is_finite (n : num) : bool :=
  match n with NFloat f => is_finite_float f | _ => true end.

(** [float(z)] for an integer [z]: the nearest binary64 number, ties to
    even; integers beyond the binary64 range raise. *)
Definition float_of_int (z : Z) : result pyfloat :=
  let f := binary_normalize prec emax z 0 false in
  if is_finite_float f then Ok f else Raise OverflowError.

(** The conversion of an operand of a float operation. *)
Definition to_float (n : num) : result pyfloat :=
  match n with
  | NFloat f => Ok f
  | NBool b => float_of_int (Z.b2z b)
  | NInt z => float_of_int z
  end.

(** The binary64 number nearest to [p / q] (ties to even), with sign
    [s], for [p, q > 0]: the quotient is computed with at least 56
    bits and one more bit that records a non-zero remainder. *)
Definition round_ratio (s : bool) (p q : Z) : pyfloat :=
  let k := Z.max 0 (Z.log2 q + 56 - Z.log2 p) in
  let n := p * 2 ^ k in
  let m := 2 * (n / q) + (if n mod q =? 0 then 0 else 1) in
  binary_normalize prec emax (cond_Zopp s m) (- k - 1) false.

(** [a / b] on integers: the correctly rounded quotient. *)
Definition int_true_divide (a b : Z) : result pyfloat :=
  if b =? 0 then Raise ZeroDivisionError
  else if a =? 0 then Ok (S754_zero (b <? 0))
  else
    let f := round_ratio (xorb (a <? 0) (b <? 0)) (Z.abs a) (Z.abs b) in
    if is_finite_float f then Ok f else Raise OverflowError.

Definition is_float_zero (f : pyfloat) : bool :=
  match f with S754_zero _ => true | _ => false end.

Definition sub (a b : num) : result num :=
  match int_of a, int_of b with
  | Some x, Some y => Ok (NInt (x - y))
  | _, _ =>
      let! fa := to_float a in
      let! fb := to_float b in
      Ok (NFloat (SF64sub fa fb))
  end.

Definition add (a b : num) : result num :=
  match int_of a, int_of b with
  | Some x, Some y => Ok (NInt (x + y))
  | _, _ =>
      let! fa := to_float a in
      let! fb := to_float b in
      Ok (NFloat (SF64add fa fb))
  end.

Definition mul (a b : num) : result num :=
  match int_of a, int_of b with
  | Some x, Some y => Ok (NInt (x * y))
  | _, _ =>
      let! fa := to_float a in
      let! fb := to_float b in
      Ok (NFloat (SF64mul fa fb))
  end.

Definition truediv (a b : num) : result num :=
  match int_of a, int_of b with
  | Some x, Some y =>
      let! f := int_true_divide x y in Ok (NFloat f)
  | _, _ =>
      let! fa := to_float a in
      let! fb := to_float b in
      if is_float_zero fb then Raise ZeroDivisionError
      else Ok (NFloat (SF64div fa fb))
  end.

(** A float against an integer, compared exactly (no conversion). *)
Definition compare_float_int (f : pyfloat) (z : Z) : option comparison :=
  match f with
  | S754_nan => None
  | S754_infinity s => Some (if s then Lt else Gt)
  | S754_zero _ => Some (0 ?= z)
  | S754_finite s m e =>
      let v := cond_Zopp s (Zpos m) in
      Some (if 0 <=? e then v * 2 ^ e ?= z else v ?= z * 2 ^ (- e))
  end.

(** Three-way comparison; [None] when an operand is not-a-number.  An
    integer on the left of a float is compared by the float's
    reflected operation. *)
Definition compare (a b : num) : option comparison :=
  match a, b with
  | NFloat f, NFloat g => SFcompare f g
  | NFloat f, _ =>
      match int_of b with
      | Some z => compare_float_int f z
      | None => None
      end
  | _, NFloat g =>
      match int_of a with
      | Some z => option_map CompOpp (compare_float_int g z)
      | None => None
      end
  | _, _ =>
      match int_of a, int_of b with
      | Some x, Some y => Some (x ?= y)
      | _, _ => None
      end
  end.

(** [a < b], [a > b], [a <= b], [a == b] *)
Definition ltb (a b : num) : bool :=
  match compare a b with Some Lt => true | _ => false end.
Definition gtb (a b : num) : bool :=
  match compare a b with Some Gt => true | _ => false end.
Definition leb (a b : num) : bool :=
  match compare a b with Some (Lt | Eq) => true | _ => false end.
Definition eqb (a b : num) : bool :=
  match compare a b with Some Eq => true | _ => false end.

(** A well-formed number: a float is a canonical binary64 number, as
    every Python float is. *)
Definition wf (n : num) : bool :=
  match n with NFloat f => valid_binary prec emax f | _ => true end.

(** An integer below [2 ^ k] in magnitude, or a float. *)
Definition int_below (k : Z) (n : num) : Prop :=
  match int_of n with Some z => Z.abs z < 2 ^ k | None => True end.

(** A [bool] read as the integer it is. *)
Definition unbool (a : num) : num :=
  match a with NBool b => NInt (Z.b2z b) | _ => a end.

(** The builtin [min]: the running minimum is replaced when an item
    is smaller. *)
Fixpoint min_loop (items : list num) (minitem : num) : num :=
  match items with
  | [] => minitem
  | item :: rest => min_loop rest (if ltb item minitem then item else minitem)
  end.

Definition min (items : list num) : result num :=
  match items with
  | [] => Raise ValueError
  | item :: rest => Ok (min_loop rest item)
  end.

(** The builtin [max]: replaced when an item is greater. *)
Fixpoint max_loop (items : list num) (maxitem : num) : num :=
  match items with
  | [] => maxitem
  | item :: rest => max_loop rest (if gtb item maxitem then item else maxitem)
  end.

Definition max (items : list num) : result num :=
  match items with
  | [] => Raise ValueError
  | item :: rest => Ok (max_loop rest item)
  end.

End Num.

(** ** Cleaning functions *)

Module Cleaning.

(** [item in {None, ""}]: the set lookup hashes [item] (a [TypeError]
    for a list) and then compares it with the two members. *)
Definition in_missing_values (item : value) : result bool :=
  if hashable item then
    Ok match item with
       | VNone => true
       | VStr [] => true
       | _ => false
       end
  else Raise TypeError.

(** [isinstance(item, float) and math.isnan(item)] *)
Definition is_nan (item : value) : bool :=
  match item with
  | VFloat S754_nan => true
  | _ => false
  end.

(** The loop of [remove_missing_values]; [cleaned_data] is the list
    the loop appends to. *)
Fixpoint remove_missing_loop (data cleaned_data : list value)
  : result (list value) :=
  match data with
  | [] => Ok cleaned_data
  | item :: rest =>
      let! b := in_missing_values item in
      if b then remove_missing_loop rest cleaned_data
      else if is_nan item then remove_missing_loop rest cleaned_data
      else remove_missing_loop rest (cleaned_data ++ [item])
  end.

Definition remove_missing_values (data : list value) : result (list value) :=
  remove_missing_loop data [].

(** The loop of [filling_missing_values]. *)
Fixpoint filling_missing_loop (data : list value) (fill_value : value)
    (cleaned_data : list value) : result (list value) :=
  match data with
  | [] => Ok cleaned_data
  | item :: rest =>
      let! b := in_missing_values item in
      if b then filling_missing_loop rest fill_value (cleaned_data ++ [fill_value])
      else if is_nan item
           then filling_missing_loop rest fill_value (cleaned_data ++ [fill_value])
           else filling_missing_loop rest fill_value (cleaned_data ++ [item])
  end.

Definition filling_missing_values (data : list value) (fill_value : value)
  : result (list value) :=
  filling_missing_loop data fill_value [].

(** [remove_missing_values(filling_missing_values(data, fill_value))] *)
Definition fill_then_remove (data : list value) (fill_value : value)
  : result (list value) :=
  let! filled := filling_missing_values data fill_value in
  remove_missing_values filled.

(** The specification's classification: an element is missing when it
    is the null marker, the empty string, or a not-a-number float. *)
Definition is_missing (x : value) : bool :=
  match x with
  | VNone => true
  | VStr [] => true
  | VFloat S754_nan => true
  | _ => false
  end.

(** The specification's [remove_missing]: omit the missing elements. *)
Definition remove_missing_spec (data : list value) : list value :=
  List.filter (fun x => negb (is_missing x)) data.

(** The specification's [fill_missing]: replace the missing elements. *)
Definition fill_missing_spec (data : list value) (v : value) : list value :=
  List.map (fun x => if is_missing x then v else x) data.

End Cleaning.

(** [remove_duplicated_values]: [list(dict.fromkeys(data))].  A
    dictionary finds a key that is the same object as, or equal to, a
    stored key, so an element is a reference: the identity of an object
    together with its value. *)
Module Dedup.

Record obj : Type := Obj { obj_id : N; obj_val : value }.

Definition pystr_eqb (s t : pystr) : bool :=
  if decide (s = t) then true else false.

(** [x == y] on hashable values: numbers compare by numeric value
    across [bool], [int] and [float]; a string or [None] equals only
    itself.  Lists never reach a comparison: hashing them raises. *)
Definition py_eq (x y : value) : bool :=
  match x, y with
  | VNone, VNone => true
  | VNum a, VNum b => Num.eqb a b
  | VStr s, VStr t => pystr_eqb s t
  | _, _ => false
  end.

(** The test of a dictionary lookup: [stored is key or stored == key]. *)
Definition key_match (key stored : obj) : bool :=
  (obj_id stored =? obj_id key)%N || py_eq (obj_val stored) (obj_val key).

(** [dict.fromkeys]: [keys] are the dictionary's keys in insertion
    order; a key already present is not inserted again. *)
Fixpoint fromkeys_loop (data keys : list obj) : result (list obj) :=
  match data with
  | [] => Ok keys
  | item :: rest =>
      if hashable (obj_val item) then
        if existsb (key_match item) keys
        then fromkeys_loop rest keys
        else fromkeys_loop rest (keys ++ [item])
      else Raise TypeError
  end.

Definition remove_duplicated_values (data : list obj) : result (list obj) :=
  fromkeys_loop data [].

(** The specification's [deduplicate]: an element is retained when no
    element before it in the sequence is the same value; [earlier] are
    the elements already passed. *)
Fixpoint first_occurrences (earlier data : list obj) : list obj :=
  match data with
  | [] => []
  | item :: rest =>
      if existsb (key_match item) earlier
      then first_occurrences (earlier ++ [item]) rest
      else item :: first_occurrences (earlier ++ [item]) rest
  end.

(** A well-formed key: hashable, and a float is canonical. *)
Definition wf_key (x : value) : bool :=
  match x with
  | VNum n => Num.wf n
  | VList _ => false
  | _ => true
  end.

(** Well-formed objects: every value is a well-formed key and one
    identity is one value. *)
Definition wf_objs (data : list obj) : Prop :=
  (forall a, In a data -> wf_key (obj_val a) = true) /\
  (forall a b, In a data -> In b data ->
     obj_id a = obj_id b -> obj_val a = obj_val b).

(** The dictionary's keys represent the elements passed so far. *)
Definition represents (keys earlier : list obj) : Prop :=
  incl keys earlier /\
  forall a, In a earlier -> exists k, In k keys /\ key_match a k = true.

(** The same value, for hashable values. *)
Definition same_value (x y : value) : bool :=
  match x, y with
  | VNone, VNone => true
  | VNum a, VNum b => bool_decide (a = b)
  | VStr s, VStr t => bool_decide (s = t)
  | _, _ => false
  end.

(** No key matches a later one. *)
Fixpoint distinct_keys (keys : list obj) : bool :=
  match keys with
  | [] => true
  | k :: rest => negb (existsb (key_match k) rest) && distinct_keys rest
  end.

(** The decidable form of [wf_objs]. *)
Definition wf_objsb (data : list obj) : bool :=
  forallb (fun a => wf_key (obj_val a)) data &&
  forallb (fun a =>
    forallb (fun b =>
      implb (obj_id a =? obj_id b)%N (same_value (obj_val a) (obj_val b)))
      data) data.

End Dedup.

(** ** Numeric functions *)

Module Numeric.

(** [[x for x in data if isinstance(x, (int, float))]] *)
Fixpoint numeric_filter (data : list value) : list num :=
  match data with
  | [] => []
  | VNum n :: rest => n :: numeric_filter rest
  | _ :: rest => numeric_filter rest
  end.

(** The body of the comprehension of [normalize_min_max]:
    [new_min + ((x - min_val) * (new_max - new_min)) / range_val]. *)
Definition rescale (new_min new_max min_val range_val x : num) : result num :=
  let! d := Num.sub x min_val in
  let! w := Num.sub new_max new_min in
  let! p := Num.mul d w in
  let! q := Num.truediv p range_val in
  Num.add new_min q.

Definition normalize_min_max (data : list value) (new_min new_max : num)
  : result (list num) :=
  match data with
  | [] => Ok []
  | _ =>
      let numeric_data := numeric_filter data in
      match numeric_data with
      | [] => Ok []
      | _ =>
          let! min_val := Num.min numeric_data in
          let! max_val := Num.max numeric_data in
          let! range_val := Num.sub max_val min_val in
          if Num.eqb range_val (NInt 0)
          then Ok (List.map (fun _ => new_min) numeric_data)
          else comprehension (rescale new_min new_max min_val range_val) numeric_data
      end
  end.

(** What [normalize_min_max] computes first: the minimum, the maximum
    and the range [max_val - min_val] of the numeric elements. *)
Definition value_range (data : list value) : result (num * num * num) :=
  let numeric_data := numeric_filter data in
  let! min_val := Num.min numeric_data in
  let! max_val := Num.max numeric_data in
  let! range_val := Num.sub max_val min_val in
  Ok (min_val, max_val, range_val).

(** A number within the range in which the arithmetic of
    [normalize_min_max] cannot overflow an integer conversion: a
    canonical float, or an integer below [2 ^ 1022] in magnitude. *)
Definition in_range (n : num) : bool :=
  match n with
  | NInt z => Z.abs z <? 2 ^ 1022
  | NBool _ => true
  | NFloat f => valid_binary prec emax f
  end.

(** The loop of [clip_values]. *)
Fixpoint clip_loop (data : list value) (min_val max_val : num)
    (clipped_data : list num) : list num :=
  match data with
  | [] => clipped_data
  | VNum item :: rest =>
      if Num.ltb item min_val then clip_loop rest min_val max_val (clipped_data ++ [min_val])
      else if Num.gtb item max_val then clip_loop rest min_val max_val (clipped_data ++ [max_val])
      else clip_loop rest min_val max_val (clipped_data ++ [item])
  | _ :: rest => clip_loop rest min_val max_val clipped_data
  end.

Definition clip_values (data : list value) (min_val max_val : num)
  : result (list num) :=
  if Num.gtb min_val max_val then Raise ValueError
  else Ok (clip_loop data min_val max_val []).

(** One clipped element, as the specification words it. *)
Definition clip_one (min_val max_val x : num) : num :=
  if Num.ltb x min_val then min_val
  else if Num.gtb x max_val then max_val
  else x.

(** [min_val <= x <= max_val] *)
Definition within (min_val max_val x : num) : bool :=
  Num.leb min_val x && Num.leb x max_val.

(** *** [logarithmic_transform]

    [math.log] belongs to the C library: its values are a parameter of
    the model.  It raises on an argument outside its domain, so it
    returns a result. *)
Section Logarithm.

Variable math_log : num -> result pyfloat.

(** [item > 0] *)
Definition positive (item : num) : bool := Num.gtb item (NInt 0).

(** The loop of [logarithmic_transform]. *)
Fixpoint log_loop (data : list value) (transformed_data : list pyfloat)
  : result (list pyfloat) :=
  match data with
  | [] => Ok transformed_data
  | VNum item :: rest =>
      if positive item then
        let! y := math_log item in
        log_loop rest (transformed_data ++ [y])
      else log_loop rest transformed_data
  | _ :: rest => log_loop rest transformed_data
  end.

Definition logarithmic_transform (data : list value) : result (list pyfloat) :=
  log_loop data [].

End Logarithm.

(** The numeric elements of a clipped list, as values again. *)
Definition values (l : list num) : list value := List.map VNum l.

(** An [int] or a [bool]. *)
Definition is_integer (n : num) : bool :=
  match n with NFloat _ => false | _ => true end.

End Numeric.

(** ** Strings: character classes and the conversion to [float] *)

(** The tables of the Unicode database that the string operations
    consult for the code points beyond ASCII.  They belong to the
    Python runtime and are parameters of the model; on ASCII text no
    result depends on them. *)
Record unicode_db : Type := {
  uni_isspace : codepoint -> bool;
  uni_todecimal : codepoint -> option N;
  uni_isalnum : codepoint -> bool;
  uni_lower : pystr -> pystr
}.

(** The tables restricted to ASCII: no other code point is a space, a
    digit or a letter, and lower-casing leaves other text alone.  It
    serves to run the functions on ASCII inputs. *)
Definition ascii_db : unicode_db := {|
  uni_isspace := fun _ => false;
  uni_todecimal := fun _ => None;
  uni_isalnum := fun _ => false;
  uni_lower := fun s => s
|}.

Module Str.

Local Open Scope N_scope.

Definition is_ascii (c : codepoint) : bool := c <? 128.

Definition is_digit (c : codepoint) : bool := (48 <=? c) && (c <=? 57).
Definition is_upper (c : codepoint) : bool := (65 <=? c) && (c <=? 90).
Definition is_lower (c : codepoint) : bool := (97 <=? c) && (c <=? 122).

(** The C locale's [isspace]: space, [\t], [\n], [\v], [\f], [\r]. *)
Definition is_c_space (c : codepoint) : bool :=
  (c =? 32) || ((9 <=? c) && (c <=? 13)).

Definition ascii_lower (c : codepoint) : codepoint :=
  if is_upper c then c + 32 else c.

(** [s.lower()] *)
Definition lower (db : unicode_db) (s : pystr) : pystr :=
  if forallb is_ascii s then List.map ascii_lower s else uni_lower db s.

(** The class [\w] of a string pattern: alphanumeric or underscore. *)
Definition is_word (db : unicode_db) (c : codepoint) : bool :=
  if is_ascii c then is_digit c || is_upper c || is_lower c || (c =? 95)
  else uni_isalnum db c.

(** [sep.join(words)] *)
Fixpoint join (sep : pystr) (words : list pystr) : pystr :=
  match words with
  | [] => []
  | [w] => w
  | w :: rest => w ++ sep ++ join sep rest
  end.

(** White space, as [str.isspace], [str.split] and the class [\s] of a
    string pattern see it: in ASCII the characters [\t] to [\r], the
    four separators 28 to 31 and the space. *)
Definition is_space (db : unicode_db) (c : codepoint) : bool :=
  if is_ascii c then is_c_space c || ((28 <=? c) && (c <=? 31))
  else uni_isspace db c.

(** [s.split()]: white space is skipped, then a word runs up to the
    next white space.  [word] is the word being read. *)
Fixpoint split_loop (db : unicode_db) (s : pystr) (word : pystr) : list pystr :=
  match s with
  | [] => match word with [] => [] | _ => [word] end
  | c :: rest =>
      if is_space db c then
        match word with
        | [] => split_loop db rest []
        | _ => word :: split_loop db rest []
        end
      else split_loop db rest (word ++ [c])
  end.

Definition split (db : unicode_db) (s : pystr) : list pystr :=
  split_loop db s [].

(** The maximal runs of the characters that satisfy [p], in order;
    [run] is the run being read.  Words are such runs. *)
Fixpoint runs (p : codepoint -> bool) (s : pystr) (run : pystr) : list pystr :=
  match s with
  | [] => match run with [] => [] | _ => [run] end
  | c :: rest =>
      if p c then runs p rest (run ++ [c])
      else match run with
           | [] => runs p rest []
           | _ => run :: runs p rest []
           end
  end.

(** A word of the characters that satisfy [p]: not empty, and made of
    them. *)
Definition word_of (p : codepoint -> bool) (w : pystr) : Prop :=
  w <> [] /\ forallb p w = true.

(** The characters [split] builds its words from. *)
Definition not_space (db : unicode_db) (c : codepoint) : bool :=
  negb (is_space db c).

(** A lower-case ASCII character: lower-casing leaves it alone. *)
Definition is_lowered (c : codepoint) : bool :=
  is_ascii c && negb (is_upper c).

(** *** [float(s)] *)

(** Non-ASCII text is first rewritten: a Unicode space becomes a
    space, a Unicode decimal digit its ASCII digit, anything else a
    question mark. *)
Definition transform_decimal_and_space (db : unicode_db) (s : pystr) : pystr :=
  if forallb is_ascii s then s
  else List.map (fun c =>
         if c <? 127 then c
         else if uni_isspace db c then 32
         else match uni_todecimal db c with
              | Some d => 48 + d
              | None => 63
              end) s.

(** Underscores may only stand between two digits; they are removed.
    [prev] is the character before the current one. *)
Fixpoint strip_underscores (s : pystr) (prev : codepoint) : option pystr :=
  match s with
  | [] => if prev =? 95 then None else Some []
  | c :: rest =>
      if c =? 95 then
        if is_digit prev then strip_underscores rest c else None
      else if (prev =? 95) && negb (is_digit c) then None
      else option_map (cons c) (strip_underscores rest c)
  end.

Definition remove_underscores (s : pystr) : option pystr :=
  if existsb (N.eqb 95) s then strip_underscores s 0 else Some s.

Fixpoint drop_spaces (s : pystr) : pystr :=
  match s with
  | c :: rest => if is_c_space c then drop_spaces rest else s
  | [] => []
  end.

(** Leading and trailing white space is skipped; the trailing loop
    leaves at least one character. *)
Definition strip_spaces (s : pystr) : pystr :=
  match drop_spaces s with
  | [] => []
  | c :: rest => c :: rev (drop_spaces (rev rest))
  end.

Fixpoint span_digits (s : pystr) : pystr * pystr :=
  match s with
  | c :: rest =>
      if is_digit c then let '(d, r) := span_digits rest in (c :: d, r)
      else ([], s)
  | [] => ([], [])
  end.

(** The value of a digit string. *)
Definition digits_value (d : pystr) : Z :=
  fold_left (fun acc c => (10 * acc + Z.of_N (c - 48))%Z) d 0%Z.

Definition parse_sign (s : pystr) : bool * pystr :=
  match s with
  | 45 :: rest => (true, rest)
  | 43 :: rest => (false, rest)
  | _ => (false, s)
  end.

(** A decimal literal [digits [. digits] [e [sign] digits]] with at
    least one digit before the exponent, as a pair (mantissa, decimal
    exponent); the whole of [s] has to be consumed. *)
Definition parse_decimal (s : pystr) : option (Z * Z) :=
  let '(d1, r1) := span_digits s in
  let '(d2, r2) :=
    match r1 with
    | 46 :: t => span_digits t
    | _ => ([], r1)
    end in
  match d1 ++ d2 with
  | [] => None
  | ds =>
      let m := digits_value ds in
      let frac := Z.of_nat (length d2) in
      match r2 with
      | [] => Some (m, - frac)%Z
      | c :: t =>
          if (c =? 101) || (c =? 69) then
            let '(es, t') := parse_sign t in
            match span_digits t' with
            | ([], _) => None
            | (d3, []) => Some (m, cond_Zopp es (digits_value d3) - frac)%Z
            | (_, _ :: _) => None
            end
          else None
      end
  end.

(** [inf], [infinity] and [nan], in any letter case. *)
Definition parse_inf_or_nan (s : pystr) : option pyfloat :=
  let l := List.map ascii_lower s in
  if decide (l = str "inf") then Some (S754_infinity false)
  else if decide (l = str "infinity") then Some (S754_infinity false)
  else if decide (l = str "nan") then Some S754_nan
  else None.

(** The binary64 number nearest to [m * 10 ^ e], with sign [s]. *)
Definition decimal_to_float (s : bool) (m e : Z) : pyfloat :=
  if (m =? 0)%Z then S754_zero s
  else if (0 <=? e)%Z then Num.round_ratio s (m * 10 ^ e) 1
  else Num.round_ratio s m (10 ^ (- e)).

Definition negate_inf (s : bool) (f : pyfloat) : pyfloat :=
  match f with
  | S754_infinity _ => S754_infinity s
  | _ => f
  end.

(** [float(s)] for a string: a number out of the binary64 range is an
    infinity, text that is not a number raises [ValueError]. *)
Definition float_of_str (db : unicode_db) (s : pystr) : result pyfloat :=
  match remove_underscores (transform_decimal_and_space db s) with
  | None => Raise ValueError
  | Some t =>
      let '(sg, body) := parse_sign (strip_spaces t) in
      match parse_decimal body with
      | Some (m, e) => Ok (decimal_to_float sg m e)
      | None =>
          match parse_inf_or_nan body with
          | Some f => Ok (negate_inf sg f)
          | None => Raise ValueError
          end
      end
  end.

End Str.

Module Convert.

(** [float(item)] *)
Definition py_float (db : unicode_db) (item : value) : result pyfloat :=
  match item with
  | VNum n => Num.to_float n
  | VStr s => Str.float_of_str db s
  | VNone | VList _ => Raise TypeError
  end.

(** [int(f)] for a float: truncation toward zero; not-a-number and
    the infinities have no integer value. *)
Definition py_int (f : pyfloat) : result Z :=
  match f with
  | S754_nan => Raise ValueError
  | S754_infinity _ => Raise OverflowError
  | S754_zero _ => Ok 0
  | S754_finite s m e =>
      Ok (cond_Zopp s (if 0 <=? e then Zpos m * 2 ^ e else Zpos m / 2 ^ (- e)))
  end.

(** The loop of [convert_to_integers]: [ValueError] and [TypeError] are
    caught and the item skipped; any other exception propagates. *)
Fixpoint convert_loop (db : unicode_db) (data : list value) (int_values : list Z)
  : result (list Z) :=
  match data with
  | [] => Ok int_values
  | item :: rest =>
      match (let! f := py_float db item in py_int f) with
      | Ok int_val => convert_loop db rest (int_values ++ [int_val])
      | Raise ValueError | Raise TypeError => convert_loop db rest int_values
      | Raise e => Raise e
      end
  end.

Definition convert_to_integers (db : unicode_db) (data : list value)
  : result (list Z) :=
  convert_loop db data [].

(** The specification's reading of one item: its integer, when the
    item can be interpreted. *)
Definition converted (db : unicode_db) (item : value) : option Z :=
  match py_float db item with
  | Ok f => match py_int f with Ok z => Some z | Raise _ => None end
  | Raise _ => None
  end.

(** An item that passes through unchanged: an integer that a float
    holds exactly. *)
Definition exact_integer (item : value) : option Z :=
  match item with
  | VInt z => if Z.abs z <? 2 ^ 53 then Some z else None
  | VBool b => Some (Z.b2z b)
  | _ => None
  end.

(** An item that is an exact integer, or is neither a number nor a
    string. *)
Definition exact_or_untyped (item : value) : bool :=
  match item with
  | VNone | VList _ => true
  | VNum _ => bool_decide (is_Some (exact_integer item))
  | VStr _ => false
  end.

(** An item that [float] reads as an infinity. *)
Definition reads_as_infinity (db : unicode_db) (item : value) : bool :=
  match py_float db item with
  | Ok (S754_infinity _) => true
  | _ => false
  end.

End Convert.

(** ** Text functions *)

Module Text.

(** The assertion [\b] between two characters: [before] tells whether
    the character before the position is a word character ([false] at
    the start of the text), [rest] is the text from the position on. *)
Definition at_boundary (db : unicode_db) (before : bool) (rest : pystr) : bool :=
  let this :=
    match rest with
    | c :: _ => Str.is_word db c
    | [] => false
    end in
  xorb this before.

(** The number of leading word characters: what a greedy [\w+] takes. *)
Fixpoint count_word (db : unicode_db) (s : pystr) : nat :=
  match s with
  | c :: rest => if Str.is_word db c then S (count_word db rest) else O
  | [] => O
  end.

(** Backtracking of [\w+\b]: with [n] characters taken, the closing
    [\b] is tried; when it fails one character is given back, down to
    one character. *)
Fixpoint match_tail (db : unicode_db) (s : pystr) (n : nat) : option nat :=
  match n with
  | O => None
  | S n' =>
      if at_boundary db true (drop n s) then Some n
      else match_tail db s n'
  end.

(** The pattern [\b\w+\b] tried at one position: the length of the
    match. *)
Definition match_here (db : unicode_db) (before : bool) (s : pystr) : option nat :=
  if at_boundary db before s then match_tail db s (count_word db s) else None.

(** [re.findall]: the text is scanned from left to right; a match is
    collected and the scan resumes behind it, otherwise it moves on by
    one character.  [fuel] bounds the number of positions tried. *)
Fixpoint findall_from (db : unicode_db) (fuel : nat) (before : bool) (s : pystr)
  : list pystr :=
  match fuel with
  | O => []
  | S fuel' =>
      match match_here db before s with
      | Some n =>
          take n s ::
          findall_from db fuel'
            (match last (take n s) with
             | Some c => Str.is_word db c
             | None => before
             end)
            (drop n s)
      | None =>
          match s with
          | [] => []
          | c :: rest => findall_from db fuel' (Str.is_word db c) rest
          end
      end
  end.

(** [re.findall(r"\b\w+\b", text)] *)
Definition findall_words (db : unicode_db) (text : pystr) : list pystr :=
  findall_from db (S (length text)) false text.

Definition tokenize_text (db : unicode_db) (text : value) : pystr :=
  match text with
  | VStr s => Str.join (str " ") (findall_words db (Str.lower db s))
  | _ => []
  end.

(** The specification's words: the maximal runs of word characters.
    [run] is the run being read, in order. *)
Fixpoint maximal_runs (db : unicode_db) (s : pystr) (run : pystr) : list pystr :=
  match s with
  | [] => match run with [] => [] | _ => [run] end
  | c :: rest =>
      if Str.is_word db c then maximal_runs db rest (run ++ [c])
      else match run with
           | [] => maximal_runs db rest []
           | _ => run :: maximal_runs db rest []
           end
  end.

(** A run, when there is one. *)
Definition opt_run (run : pystr) : list pystr :=
  match run with [] => [] | _ => [run] end.

Definition tokenize_spec (db : unicode_db) (s : pystr) : pystr :=
  Str.join (str " ") (maximal_runs db (Str.lower db s) []).

(** *** [select_alphanumeric_spaces] *)

(** The characters outside the class [[^a-zA-Z0-9\s]]: the ASCII
    letters and digits and the white space. *)
Definition alphanumeric_or_space (db : unicode_db) (c : codepoint) : bool :=
  Str.is_lower c || Str.is_upper c || Str.is_digit c || Str.is_space db c.

(** [re.sub(r"[^a-zA-Z0-9\s]", "", text)]: the text is scanned from
    left to right; a character of the class is a match and is replaced
    by the empty string, any other character is copied. *)
Fixpoint sub_loop (db : unicode_db) (text : pystr) : pystr :=
  match text with
  | [] => []
  | c :: rest =>
      if negb (alphanumeric_or_space db c) then [] ++ sub_loop db rest
      else c :: sub_loop db rest
  end.

Definition select_alphanumeric_spaces (db : unicode_db) (text : value) : pystr :=
  match text with
  | VStr s => sub_loop db s
  | _ => []
  end.

(** *** [remove_stop_words] *)

(** [set(stop_words)]: every element is hashed. *)
Definition py_set (items : list value) : result (list value) :=
  if forallb hashable items then Ok items else Raise TypeError.

(** [word in stop_words_set] for a string [word]: some member equals
    it. *)
Definition in_set (word : pystr) (stop_words_set : list value) : bool :=
  existsb (Dedup.py_eq (VStr word)) stop_words_set.

Definition remove_stop_words (db : unicode_db) (text : value)
    (stop_words : list value) : result pystr :=
  match text with
  | VStr s =>
      let words := Str.split db (Str.lower db s) in
      let! stop_words_set := py_set stop_words in
      let cleaned_words :=
        List.filter (fun word => negb (in_set word stop_words_set)) words in
      Ok (Str.join (str " ") cleaned_words)
  | _ => Ok []
  end.

(** A stop word that lower-cased ASCII text cannot contain as a word:
    not a string, empty, or with a capital letter or white space. *)
Definition never_a_word (db : unicode_db) (stop_word : value) : bool :=
  match stop_word with
  | VStr [] => true
  | VStr t => existsb Str.is_upper t || existsb (Str.is_space db) t
  | VNone | VNum _ => true
  | VList _ => false
  end.

End Text.

(** ** Structural functions *)

Module Struct.

(** The loop of [flatten_list]: a list item extends the result, any
    other item is appended. *)
Fixpoint flatten_loop (data flattened : list value) : list value :=
  match data with
  | [] => flattened
  | VList l :: rest => flatten_loop rest (flattened ++ l)
  | item :: rest => flatten_loop rest (flattened ++ [item])
  end.

Definition flatten_list (data : list value) : list value :=
  flatten_loop data [].

(** The specification's one-level splice of a single element. *)
Definition splice (item : value) : list value :=
  match item with
  | VList l => l
  | _ => [item]
  end.

(** A flat sequence: no element is itself a sequence. *)
Definition is_flat (data : list value) : bool :=
  forallb (fun x => negb (is_list x)) data.

End Struct.

(** *** [shuffle_list] and the [random] module *)

(** The generator of the [random] module is part of the Python
    runtime: its state, the state a seed produces, and the draw
    [_randbelow(n)] of a number below [n] are parameters.  The module
    keeps one generator, so every function takes the current state and
    returns the next one. *)
Section Shuffle.

Variable rng : Type.
Variable seed_state : Z -> rng.
Variable randbelow : rng -> nat -> nat * rng.

(** [x[i], x[j] = x[j], x[i]]: both reads happen before the writes;
    an index out of range raises. *)
Definition swap (x : list value) (i j : nat) : option (list value) :=
  match x !! j, x !! i with
  | Some xj, Some xi => Some (<[j:=xi]> (<[i:=xj]> x))
  | _, _ => None
  end.

(** [random.shuffle]: [for i in reversed(range(1, len(x)))], the
    element at [i] is exchanged with the one at a drawn [j <= i].
    The argument [n] is [i + 1] of the next iteration. *)
Fixpoint shuffle_loop (n : nat) (x : list value) (g : rng)
  : option (list value) * rng :=
  match n with
  | O => (Some x, g)
  | S i =>
      match i with
      | O => (Some x, g)
      | S _ =>
          let '(j, g') := randbelow g (S i) in
          match swap x i j with
          | Some x' => shuffle_loop i x' g'
          | None => (None, g')
          end
      end
  end.

Definition random_shuffle (x : list value) (g : rng) : option (list value) * rng :=
  shuffle_loop (length x) x g.

(** [shuffle_list(data, seed)] run with the generator in state [g]:
    the shuffled copy ([None] stands for an [IndexError] of the
    exchange) and the generator's new state. *)
Definition shuffle_list (g : rng) (data : list value) (seed : option Z)
  : option (list value) * rng :=
  let g1 :=
    match seed with
    | Some s => seed_state s
    | None => g
    end in
  let shuffled_list := data in
  random_shuffle shuffled_list g1.

(** The exchanges of [random.shuffle] applied to a list of positions:
    where each element of the shuffled list comes from. *)
Fixpoint positions_loop (n : nat) (p : list nat) (g : rng) : list nat :=
  match n with
  | O => p
  | S i =>
      match i with
      | O => p
      | S _ =>
          let '(j, g') := randbelow g (S i) in
          match p !! j, p !! i with
          | Some pj, Some pi => positions_loop i (<[j:=pi]> (<[i:=pj]> p)) g'
          | _, _ => p
          end
      end
  end.

(** The positions for a list of length [n] shuffled with [seed]. *)
Definition positions (n : nat) (seed : Z) : list nat :=
  positions_loop n (seq 0 n) (seed_state seed).

End Shuffle.

(** A small linear congruential generator, an instance of the
    generator's interface on which the statements about shuffling are
    exercised. *)
Definition lcg_seed (s : Z) : Z := Z.abs s.
Definition lcg_randbelow (g : Z) (n : nat) : nat * Z :=
  (Z.to_nat (g mod Z.of_nat n), (1103515245 * g + 12345) mod 2147483648).

(** ** The command line: [src/cli.py]

    The commands receive their arguments as strings;
    [process_input_list] gives them types before the library is
    called.  A command is modelled by the value it computes and
    prints. *)
Module Cli.

Import Dedup.

(** [val.is_integer()] *)
Definition is_integer (val : pyfloat) : bool :=
  match val with
  | S754_zero _ => true
  | S754_finite _ m e => if 0 <=? e then true else Zpos m mod 2 ^ (- e) =? 0
  | _ => false
  end.

(** [numpy.nan], the one not-a-number object that the module imports. *)
Definition numpy_nan : obj := Obj 0 (VFloat S754_nan).

(** The [try] block of [process_input_list]: the value appended for an
    item that reads as a number. *)
Definition parse_number (db : unicode_db) (item : pystr) : result value :=
  let! val := Str.float_of_str db item in
  if is_integer val then
    let! z := Convert.py_int val in Ok (VInt z)
  else Ok (VFloat val).

(** The loop of [process_input_list].  Every appended value but
    [numpy.nan] is given an identity of its own, [next]; where the
    runtime shares an object instead ([None], a small integer), the
    values are equal and a lookup matches them either way. *)
Fixpoint process_input_loop (db : unicode_db) (str_list : list pystr) (next : N)
    (processed : list obj) : result (list obj) :=
  match str_list with
  | [] => Ok processed
  | item :: rest =>
      if decide (Str.lower db item = str "none") then
        process_input_loop db rest (N.succ next) (processed ++ [Obj next VNone])
      else if decide (Str.lower db item = str "nan") then
        process_input_loop db rest next (processed ++ [numpy_nan])
      else if decide (item = []) then
        process_input_loop db rest (N.succ next) (processed ++ [Obj next (VStr [])])
      else
        match parse_number db item with
        | Ok v =>
            process_input_loop db rest (N.succ next) (processed ++ [Obj next v])
        | Raise ValueError =>
            process_input_loop db rest (N.succ next) (processed ++ [Obj next (VStr item)])
        | Raise e => Raise e
        end
  end.

Definition process_input_list (db : unicode_db) (str_list : list pystr)
  : result (list obj) :=
  process_input_loop db str_list 1 [].

(** [process_input_list((str_val,))[0]]; [None] stands for the
    [IndexError] of the subscript. *)
Definition process_input_value (db : unicode_db) (str_val : pystr)
  : result (option obj) :=
  let! l := process_input_list db [str_val] in
  Ok (head l).

(** [clean remove-missing] *)
Definition remove_missing (db : unicode_db) (data : list pystr)
  : result (list value) :=
  let! processed_data := process_input_list db data in
  Cleaning.remove_missing_values (List.map obj_val processed_data).

(** [clean fill-missing]; [None] stands for the [IndexError] of
    [process_input_value]. *)
Definition fill_missing (db : unicode_db) (data : list pystr) (fill_value : pystr)
  : result (option (list value)) :=
  let! processed_data := process_input_list db data in
  let! processed_fill_value := process_input_value db fill_value in
  match processed_fill_value with
  | Some v =>
      let! r := Cleaning.filling_missing_values
                  (List.map obj_val processed_data) (obj_val v) in
      Ok (Some r)
  | None => Ok None
  end.

(** [clean unique] *)
Definition unique (db : unicode_db) (data : list pystr) : result (list obj) :=
  let! processed_data := process_input_list db data in
  remove_duplicated_values processed_data.

(** [struct flatten]: the processed list is cut in two,
    [[processed_data[:2], processed_data[2:]]], and flattened. *)
Definition flatten (db : unicode_db) (data : list pystr) : result (list value) :=
  let! processed_data := process_input_list db data in
  let simulated_nested_list :=
    [VList (take 2 (List.map obj_val processed_data));
     VList (drop 2 (List.map obj_val processed_data))] in
  Ok (Struct.flatten_list simulated_nested_list).

(** What an argument may become: [None] for the word [none], the
    string itself when it does not read as a number, an integer that
    equals the number read, or a float that is not integral. *)
Definition typed (db : unicode_db) (item : pystr) (v : value) : Prop :=
  match v with
  | VNone => Str.lower db item = str "none"
  | VStr s => s = item
  | VInt z =>
      exists val, Str.float_of_str db item = Ok val /\
                  Num.eqb (NFloat val) (NInt z) = true
  | VFloat f => is_integer f = false
  | VBool _ | VList _ => False
  end.

End Cli.

(** ** Sample data: the inputs of the specification's scenarios *)

(** The floats 10.0, 20.5 and the largest finite float. *)
Definition f10 : pyfloat := S754_finite false 5629499534213120 (-49).
Definition f20_5 : pyfloat := S754_finite false 5770237022568448 (-48).
Definition fmax : pyfloat := S754_finite false 9007199254740991 971.

(** [[10, None, 20.5, "", "text", nan, 30]] *)
Definition sample_missing : list value :=
  [VInt 10; VNone; VFloat f20_5; VStr (str ""); VStr (str "text");
   VFloat S754_nan; VInt 30].

(** [[5, 10, "skip", 15, 20, 25]] *)
Definition sample_clip : list value :=
  [VInt 5; VInt 10; VStr (str "skip"); VInt 15; VInt 20; VInt 25].

(** [[10, 10.0, True, 1, "a", "a", nan, nan, float("nan")]]: the two
    first not-a-number entries are one object. *)
Definition sample_duplicates : list Dedup.obj :=
  [Dedup.Obj 1 (VInt 10); Dedup.Obj 2 (VFloat f10);
   Dedup.Obj 3 (VBool true); Dedup.Obj 4 (VInt 1);
   Dedup.Obj 5 (VStr (str "a")); Dedup.Obj 6 (VStr (str "a"));
   Dedup.Obj 7 (VFloat S754_nan); Dedup.Obj 7 (VFloat S754_nan);
   Dedup.Obj 8 (VFloat S754_nan)].

(** [[1, [2, 3], None]] *)
Definition sample_nested : list Dedup.obj :=
  [Dedup.Obj 1 (VInt 1); Dedup.Obj 2 (VList [VInt 2; VInt 3]); Dedup.Obj 3 VNone].

(** [[1, 2, ..., 10]], the list of the shuffling test. *)
Definition sample_shuffle : list value :=
  [VInt 1; VInt 2; VInt 3; VInt 4; VInt 5; VInt 6; VInt 7; VInt 8; VInt 9; VInt 10].

(** [["10.5", "20", "texto"]] *)
Definition sample_strings : list value :=
  [VStr (str "10.5"); VStr (str "20"); VStr (str "texto")].

(** [[10, 20, 30, 40, 50]] *)
Definition sample_numeric : list value :=
  [VInt 10; VInt 20; VInt 30; VInt 40; VInt 50].

(** The target range [[0, 1]], its bounds given as integers or as
    floats. *)
Definition unit_bounds (new_min new_max : num) : Prop :=
  (new_min = NInt 0 \/ new_min = NFloat fzero) /\
  (new_max = NInt 1 \/ new_max = NFloat fone).

(** * Verification *)

(** ** Comparison of numbers *)

Section NumFacts.

Lemma compare_cont_Eq_antisym m m' :
  Pos.compare_cont Eq m' m = CompOpp (Pos.compare_cont Eq m m').
Proof. by rewrite (Pos.compare_cont_antisym m m' Eq). Qed.

Lemma SFcompare_antisym f g :
  SFcompare g f = option_map CompOpp (SFcompare f g).
Proof.
  destruct f as [s|s| |s m e], g as [s'|s'| |s' m' e']; simpl; try reflexivity;
    try (destruct s; reflexivity); try (destruct s'; reflexivity);
    try (destruct s, s'; reflexivity).
  destruct s, s'; try reflexivity; f_equal;
    rewrite (Z.compare_antisym e e'); destruct (e ?= e'); simpl; try reflexivity;
    rewrite (compare_cont_Eq_antisym m m');
    by destruct (Pos.compare_cont Eq m m').
Qed.

Lemma compare_antisym a b :
  Num.compare b a = option_map CompOpp (Num.compare a b).
Proof.
  destruct a as [x|x|f], b as [y|y|g]; simpl;
    try (f_equal; apply Z.compare_antisym);
    try apply SFcompare_antisym; try reflexivity.
  all: match goal with |- _ = option_map _ (option_map _ ?c) => destruct c as [[]|]; reflexivity end.
Qed.

Lemma SFcompare_refl f : f <> S754_nan -> SFcompare f f = Some Eq.
Proof.
  destruct f as [s|s| |s m e]; intros H; simpl; try done.
  - by destruct s.
  - rewrite Z.compare_refl, Pos.compare_cont_refl. by destruct s.
Qed.

Lemma compare_refl a : Num.is_nan a = false -> Num.compare a a = Some Eq.
Proof.
  destruct a as [x|x|f]; simpl; intros H.
  - by rewrite Z.compare_refl.
  - by rewrite Z.compare_refl.
  - apply SFcompare_refl. by destruct f.
Qed.

Lemma compare_float_int_none f z : Num.compare_float_int f z = None -> f = S754_nan.
Proof. destruct f; simpl; try done. Qed.

Lemma SFcompare_none f g : SFcompare f g = None -> f = S754_nan \/ g = S754_nan.
Proof. destruct f, g; simpl; try done; auto. Qed.

Lemma compare_none a b :
  Num.compare a b = None -> Num.is_nan a = true \/ Num.is_nan b = true.
Proof.
  destruct a as [x|x|f], b as [y|y|g]; simpl; try done.
  all: try (intros H; apply compare_float_int_none in H; subst; auto; fail).
  all: try (destruct (Num.compare_float_int _ _) eqn:E; simpl; try done;
            apply compare_float_int_none in E; subst; auto; fail).
  intros H. apply SFcompare_none in H as [->| ->]; auto.
Qed.

Lemma compare_nan_l a b : Num.is_nan a = true -> Num.compare a b = None.
Proof.
  destruct a as [x|x|[]]; try done. intros _.
  destruct b as [y|y|g]; reflexivity.
Qed.

Lemma compare_nan_r a b : Num.is_nan b = true -> Num.compare a b = None.
Proof.
  intros H. rewrite compare_antisym, compare_nan_l by done. reflexivity.
Qed.

Lemma compare_some_not_nan a b c :
  Num.compare a b = Some c -> Num.is_nan a = false /\ Num.is_nan b = false.
Proof.
  intros H. split.
  - destruct (Num.is_nan a) eqn:E; [|done]. by rewrite compare_nan_l in H.
  - destruct (Num.is_nan b) eqn:E; [|done]. by rewrite compare_nan_r in H.
Qed.

Lemma leb_refl a : Num.is_nan a = false -> Num.leb a a = true.
Proof. intros H. unfold Num.leb. by rewrite compare_refl. Qed.

(** Among numbers that are not not-a-number, [not (x < y)] is
    [y <= x]. *)
Lemma not_ltb_leb x y :
  Num.is_nan x = false -> Num.is_nan y = false ->
  Num.ltb x y = false -> Num.leb y x = true.
Proof.
  unfold Num.ltb, Num.leb. intros Hx Hy. rewrite (compare_antisym x y).
  destruct (Num.compare x y) as [[]|] eqn:E; simpl; try done.
  apply compare_none in E as [E|E]; congruence.
Qed.

Lemma not_gtb_leb x y :
  Num.is_nan x = false -> Num.is_nan y = false ->
  Num.gtb x y = false -> Num.leb x y = true.
Proof.
  unfold Num.gtb, Num.leb. intros Hx Hy.
  destruct (Num.compare x y) as [[]|] eqn:E; simpl; try done.
  apply compare_none in E as [E|E]; congruence.
Qed.

Lemma leb_not_nan a b :
  Num.leb a b = true -> Num.is_nan a = false /\ Num.is_nan b = false.
Proof.
  unfold Num.leb. destruct (Num.compare a b) as [c|] eqn:E; [|done].
  intros _. eapply compare_some_not_nan; eauto.
Qed.

End NumFacts.

(** ** Rounding to binary64 *)

(** The Standard Library specifies the operations but proves nothing
    about them; what the numeric functions need is proved here: the
    rounding of [binary_normalize] returns a canonical number, it does
    not overflow below [2 ^ 1023], and multiplying by one, dividing a
    number by itself and subtracting it from itself are exact. *)

Section Rounding.

Lemma iter_pos_iter {A} (f : A -> A) p : forall x, SpecFloat.iter_pos f p x = Pos.iter f x p.
Proof.
  induction p as [p IH|p IH|]; intros x; simpl; [|by rewrite !IH|done].
  rewrite !IH. by rewrite !Pos.iter_swap.
Qed.

Lemma shr_1_m mrs : 0 <= shr_m mrs -> shr_m (shr_1 mrs) = shr_m mrs / 2.
Proof.
  destruct mrs as [m r s]. simpl. intros Hm.
  destruct m as [|[p|p|]|p]; simpl; try done; try lia.
  - rewrite Pos2Z.inj_xI. apply (Z.div_unique _ _ _ 1); lia.
  - rewrite Pos2Z.inj_xO. apply (Z.div_unique _ _ _ 0); lia.
Qed.

Lemma shr_1_nonneg mrs : 0 <= shr_m mrs -> 0 <= shr_m (shr_1 mrs).
Proof. intros H. rewrite shr_1_m by done. by apply Z.div_pos. Qed.

Lemma iter_shr_1_m p mrs :
  0 <= shr_m mrs ->
  0 <= shr_m (Pos.iter shr_1 mrs p) /\
  shr_m (Pos.iter shr_1 mrs p) = shr_m mrs / 2 ^ Zpos p.
Proof.
  intros Hm. induction p as [|p IH] using Pos.peano_ind.
  - simpl. split; [by apply shr_1_nonneg|]. by rewrite shr_1_m.
  - rewrite Pos.iter_succ. destruct IH as [IH1 IH2]. split.
    + by apply shr_1_nonneg.
    + rewrite shr_1_m, IH2 by done. rewrite Pos2Z.inj_succ, Z.pow_succ_r by lia.
      rewrite Z.div_div by lia. f_equal. lia.
Qed.

Lemma shr_spec mrs e n :
  0 <= shr_m mrs ->
  shr_m (fst (shr mrs e n)) = shr_m mrs / 2 ^ Z.max 0 n /\
  snd (shr mrs e n) = e + Z.max 0 n.
Proof.
  intros Hm. destruct n as [|p|p]; simpl.
  - rewrite Z.div_1_r. lia.
  - rewrite iter_pos_iter. destruct (iter_shr_1_m p mrs Hm) as [_ ->].
    split; [done|lia].
  - rewrite Z.div_1_r. lia.
Qed.

Lemma shr_record_of_loc_m m l : shr_m (shr_record_of_loc m l) = m.
Proof. by destruct l as [|[]]. Qed.

Lemma shr_fexp_spec m e l :
  0 <= m ->
  let n := Z.max 0 (fexp prec emax (Zdigits2 m + e) - e) in
  shr_m (fst (shr_fexp prec emax m e l)) = m / 2 ^ n /\
  snd (shr_fexp prec emax m e l) = e + n.
Proof.
  intros Hm n. unfold shr_fexp.
  pose proof (shr_spec (shr_record_of_loc m l) e
                (fexp prec emax (Zdigits2 m + e) - e)) as H.
  rewrite shr_record_of_loc_m in H. by apply H.
Qed.

Lemma round_nearest_even_cases m l :
  round_nearest_even m l = m \/ round_nearest_even m l = m + 1.
Proof. destruct l as [|[]]; simpl; auto. destruct (Z.even m); auto. Qed.

(** Digits *)
Lemma Zdigits2_pos m : 0 < m -> Zdigits2 m = Z.log2 m + 1.
Proof.
  destruct m as [|p|p]; try done. intros _. simpl.
  assert (digits2_pos p = Pos.size p) as -> by (induction p; simpl; by rewrite ?IHp).
  destruct p; simpl; try reflexivity; lia.
Qed.

Lemma Zdigits2_0 : Zdigits2 0 = 0.
Proof. reflexivity. Qed.

Lemma Zdigits2_nonneg m : 0 <= m -> 0 <= Zdigits2 m.
Proof. destruct m; simpl; lia. Qed.

Lemma Zdigits2_ge_1 m : 0 < m -> 1 <= Zdigits2 m.
Proof. intros H. rewrite Zdigits2_pos by done. pose proof (Z.log2_nonneg m). lia. Qed.

Lemma Zdigits2_div_pow2 m n :
  0 < m -> 0 <= n ->
  (m / 2 ^ n = 0 /\ Zdigits2 m <= n) \/
  (0 < m / 2 ^ n /\ Zdigits2 (m / 2 ^ n) = Zdigits2 m - n).
Proof.
  intros Hm Hn.
  assert (0 < 2 ^ n) as Hp by (apply Z.pow_pos_nonneg; lia).
  destruct (Z.lt_ge_cases m (2 ^ n)) as [Hlt|Hge].
  - left. split; [apply Z.div_small; lia|].
    rewrite Zdigits2_pos by done. apply Z.log2_lt_pow2 in Hlt; lia.
  - right. assert (0 < m / 2 ^ n) as Hq.
    { apply Z.div_str_pos. lia. }
    split; [done|]. rewrite !Zdigits2_pos by done.
    rewrite <- Z.shiftr_div_pow2 by done. rewrite Z.log2_shiftr by done.
    apply Z.log2_le_pow2 in Hge; lia.
Qed.

Lemma Zdigits2_succ m :
  0 <= m -> Zdigits2 m <= Zdigits2 (m + 1) <= Zdigits2 m + 1.
Proof.
  intros Hm. destruct (Z.eq_dec m 0) as [->|Hne]; [simpl; lia|].
  rewrite !Zdigits2_pos by lia.
  pose proof (Z.log2_le_mono m (m + 1) ltac:(lia)).
  pose proof (Z.log2_succ_le m). unfold Z.succ in *. lia.
Qed.

Lemma fexp_eq x : fexp prec emax x = Z.max (x - 53) (-1074).
Proof. reflexivity. Qed.

(** What [binary_round_aux] returns on a mantissa with enough digits. *)
Lemma binary_round_aux_spec s m e l :
  0 < m -> e <= fexp prec emax (Zdigits2 m + e) ->
  exists m3 e3,
    binary_round_aux prec emax s m e l =
      match m3 with
      | Z0 => S754_zero s
      | Zpos p => if e3 <=? emax - prec then S754_finite s p e3 else S754_infinity s
      | Zneg _ => S754_nan
      end /\
    0 <= m3 /\
    (0 < m3 -> fexp prec emax (Zdigits2 m3 + e3) = e3) /\
    e3 <= fexp prec emax (Zdigits2 m + e) + 1 /\
    (fexp prec emax (Zdigits2 m + e) - e < Zdigits2 m -> 0 < m3).
Proof.
  intros Hm He. unfold binary_round_aux.
  pose proof (shr_fexp_spec m e l ltac:(lia)) as [H1m H1e].
  destruct (shr_fexp prec emax m e l) as [mrs1 e1]. simpl in H1m, H1e.
  set (m1 := shr_m mrs1) in *.
  pose proof (round_nearest_even_cases m1 (loc_of_shr_record mrs1)) as Hr.
  set (m2 := round_nearest_even m1 (loc_of_shr_record mrs1)) in *.
  set (n1 := Z.max 0 (fexp prec emax (Zdigits2 m + e) - e)) in *.
  assert (0 <= n1) as Hn1 by lia.
  assert (0 <= m1) as Hm1.
  { rewrite H1m. apply Z.div_pos; [lia|]. apply Z.pow_pos_nonneg; lia. }
  assert (0 <= m2) as Hm2 by lia.
  pose proof (shr_fexp_spec m2 e1 loc_Exact Hm2) as [H3m H3e].
  destruct (shr_fexp prec emax m2 e1 loc_Exact) as [mrs3 e3]. simpl in H3m, H3e.
  set (n2 := Z.max 0 (fexp prec emax (Zdigits2 m2 + e1) - e1)) in *.
  exists (shr_m mrs3), e3. split; [reflexivity|].
  assert (0 <= shr_m mrs3) as Hm3.
  { rewrite H3m. apply Z.div_pos; [lia|]. apply Z.pow_pos_nonneg; lia. }
  split; [done|].
  pose proof (Zdigits2_ge_1 m Hm) as Hd.
  pose proof (Zdigits2_succ m1 Hm1) as Hsucc.
  pose proof (Zdigits2_nonneg m1 Hm1) as Hd1.
  assert (n1 = Z.max 0 (Z.max (Zdigits2 m + e - 53) (-1074) - e)) as En1
    by reflexivity.
  assert (n2 = Z.max 0 (Z.max (Zdigits2 m2 + e1 - 53) (-1074) - e1)) as En2
    by reflexivity.
  clearbody n1 n2. rewrite !fexp_eq in *.
  destruct (Zdigits2_div_pow2 m n1 Hm Hn1) as [[Hz Hdn]|[Hp Hdd]];
    rewrite <- H1m in *.
  - (* the first shift leaves nothing *)
    assert (e1 = -1074) as He1 by lia.
    destruct Hr as [Hr|Hr]; rewrite Hr, Hz in *.
    + assert (shr_m mrs3 = 0) as -> by (rewrite H3m; apply Z.div_0_l; apply Z.pow_nonzero; lia).
      repeat split; try lia. simpl in *. lia.
    + change (Zdigits2 (0 + 1)) with 1 in *.
      assert (n2 = 0) as Hn2 by lia. rewrite Hn2 in *.
      rewrite Z.div_1_r in H3m. rewrite H3m.
      repeat split; try lia. intros _. change (Zdigits2 (0 + 1)) with 1. lia.
  - (* the first shift leaves a canonical mantissa *)
    assert (0 < m2) as Hm2' by lia.
    assert (Zdigits2 m1 <= Zdigits2 m2 <= Zdigits2 m1 + 1) as Hd2
      by (destruct Hr as [->| ->]; lia).
    assert (0 <= n2 <= 1) as Hn2 by lia.
    pose proof (Zdigits2_ge_1 m1 Hp) as Hd1'.
    destruct (Zdigits2_div_pow2 m2 n2 Hm2' ltac:(lia)) as [[Hz3 Hdn3]|[Hp3 Hdd3]];
      rewrite <- H3m in *.
    + lia.
    + repeat split; try lia.
Qed.

Lemma iter_xO m d : Zpos (Pos.iter xO m d) = Zpos m * 2 ^ Zpos d.
Proof.
  induction d as [|d IH] using Pos.peano_ind.
  - simpl. lia.
  - rewrite Pos.iter_succ, Pos2Z.inj_xO, IH, Pos2Z.inj_succ, Z.pow_succ_r by lia.
    ring.
Qed.

Lemma Zdigits2_mul_pow2 m k :
  0 < m -> 0 <= k -> Zdigits2 (m * 2 ^ k) = Zdigits2 m + k.
Proof.
  intros Hm Hk. assert (0 < 2 ^ k) by (apply Z.pow_pos_nonneg; lia).
  rewrite !Zdigits2_pos by nia. rewrite Z.log2_mul_pow2 by lia. lia.
Qed.

Lemma shl_align_spec m e e' :
  exists k, 0 <= k /\
    Zpos (fst (shl_align m e e')) = Zpos m * 2 ^ k /\
    snd (shl_align m e e') = e - k /\ e - k = Z.min e e'.
Proof.
  unfold shl_align. destruct (e' - e) as [|p|p] eqn:E; simpl.
  - exists 0. rewrite Z.mul_1_r. lia.
  - exists 0. rewrite Z.mul_1_r. lia.
  - exists (Zpos p). rewrite iter_xO. lia.
Qed.

(** What [binary_round] returns: a canonical mantissa, whatever the
    mantissa and exponent it is given. *)
Lemma binary_round_spec s m e :
  exists m3 e3,
    binary_round prec emax s m e =
      match m3 with
      | Z0 => S754_zero s
      | Zpos p => if e3 <=? emax - prec then S754_finite s p e3 else S754_infinity s
      | Zneg _ => S754_nan
      end /\
    0 <= m3 /\
    (0 < m3 -> fexp prec emax (Zdigits2 m3 + e3) = e3) /\
    e3 <= fexp prec emax (Zdigits2 (Zpos m) + e) + 1 /\
    (-1073 <= Zdigits2 (Zpos m) + e -> 0 < m3).
Proof.
  unfold binary_round.
  change (Z.pos (digits2_pos m)) with (Zdigits2 (Zpos m)).
  destruct (shl_align_spec m e (fexp prec emax (Zdigits2 (Zpos m) + e)))
    as (k & Hk & Hmz & Hez & Hmin).
  destruct (shl_align m e _) as [mz ez]. simpl in Hmz, Hez.
  assert (Zdigits2 (Zpos mz) + ez = Zdigits2 (Zpos m) + e) as HD.
  { rewrite Hmz, Zdigits2_mul_pow2 by lia. lia. }
  destruct (binary_round_aux_spec s (Zpos mz) ez loc_Exact)
    as (m3 & e3 & Heq & Hm3 & Hcan & He3 & Hnz); [lia|rewrite HD; lia|].
  exists m3, e3. rewrite HD in *. repeat split; try done.
  intros HDm. apply Hnz. rewrite fexp_eq in *.
  pose proof (Zdigits2_ge_1 (Zpos mz) ltac:(lia)).
  assert (Zdigits2 (Zpos mz) = Zdigits2 (Zpos m) + k)
    by (rewrite Hmz, Zdigits2_mul_pow2 by lia; lia).
  lia.
Qed.

Lemma binary_round_valid s m e :
  valid_binary prec emax (binary_round prec emax s m e) = true.
Proof.
  destruct (binary_round_spec s m e) as (m3 & e3 & -> & Hm3 & Hcan & _).
  destruct m3 as [|p|p]; [done| |lia].
  destruct (e3 <=? emax - prec) eqn:E; [|done]. simpl.
  unfold bounded, canonical_mantissa. rewrite E, andb_true_r.
  apply Z.eqb_eq. apply Hcan. lia.
Qed.

Lemma binary_normalize_valid m e sz :
  valid_binary prec emax (binary_normalize prec emax m e sz) = true.
Proof. destruct m; simpl; [done| |]; apply binary_round_valid. Qed.

Lemma binary_round_finite s m e :
  Zdigits2 (Zpos m) + e <= 1023 ->
  is_finite_float (binary_round prec emax s m e) = true.
Proof.
  intros HD.
  destruct (binary_round_spec s m e) as (m3 & e3 & -> & Hm3 & _ & He3 & _).
  destruct m3 as [|p|p]; [done| |lia].
  rewrite fexp_eq in He3.
  assert ((e3 <=? emax - prec) = true) as -> by (apply Z.leb_le; unfold emax, prec; lia).
  done.
Qed.

Lemma binary_normalize_finite m e sz :
  Zdigits2 m + e <= 1023 ->
  is_finite_float (binary_normalize prec emax m e sz) = true.
Proof. destruct m; simpl; [done| |]; apply binary_round_finite. Qed.

Lemma binary_round_nonzero s m e :
  -1073 <= Zdigits2 (Zpos m) + e ->
  Num.is_float_zero (binary_round prec emax s m e) = false.
Proof.
  intros HD.
  destruct (binary_round_spec s m e) as (m3 & e3 & -> & Hm3 & _ & _ & Hnz).
  specialize (Hnz HD). destruct m3 as [|p|p]; [lia| |lia].
  by destruct (e3 <=? emax - prec).
Qed.

Lemma binary_normalize_not_nan m e sz :
  binary_normalize prec emax m e sz <> S754_nan.
Proof.
  destruct m as [|p|p]; simpl; [done| |].
  - destruct (binary_round_spec false p e) as (m3 & e3 & -> & Hm3 & _).
    destruct m3; [done| |lia]. by destruct (e3 <=? emax - prec).
  - destruct (binary_round_spec true p e) as (m3 & e3 & -> & Hm3 & _).
    destruct m3; [done| |lia]. by destruct (e3 <=? emax - prec).
Qed.

(** Shifting out zero bits is exact. *)
Lemma shr_1_exact q :
  0 <= q -> shr_1 (Build_shr_record (2 * q) false false) = Build_shr_record q false false.
Proof. intros Hq. destruct q as [|p|p]; [done|done|lia]. Qed.

Lemma iter_shr_1_exact p : forall q,
  0 <= q ->
  Pos.iter shr_1 (Build_shr_record (q * 2 ^ Zpos p) false false) p =
  Build_shr_record q false false.
Proof.
  induction p as [|p IH] using Pos.peano_ind; intros q Hq.
  - simpl. replace (q * 2 ^ 1) with (2 * q) by lia. by apply shr_1_exact.
  - rewrite Pos.iter_succ_r, Pos2Z.inj_succ, Z.pow_succ_r by lia.
    replace (q * (2 * 2 ^ Zpos p)) with (2 * (q * 2 ^ Zpos p)) by ring.
    rewrite shr_1_exact; [by apply IH|].
    apply Z.mul_nonneg_nonneg; [done|]. apply Z.pow_nonneg. lia.
Qed.

(** Multiplying by one is exact. *)
Lemma SF64mul_one f :
  valid_binary prec emax f = true -> is_finite_float f = true ->
  SF64mul f fone = f.
Proof.
  destruct f as [s|s| |s m e]; try done.
  - intros _ _. simpl. by destruct s.
  - intros Hv _. simpl in Hv. unfold bounded, canonical_mantissa in Hv.
    apply andb_prop in Hv as [Hc%Z.eqb_eq Hb].
    change (Z.pos (digits2_pos m)) with (Zdigits2 (Zpos m)) in Hc.
    unfold SF64mul, fone, SFmul, binary_round_aux.
    rewrite Pos2Z.inj_mul.
    change (Z.pos 4503599627370496) with (2 ^ 52).
    assert (shr_fexp prec emax (Z.pos m * 2 ^ 52) (e + -52) loc_Exact =
            (Build_shr_record (Zpos m) false false, e)) as ->.
    { unfold shr_fexp. rewrite Zdigits2_mul_pow2 by lia.
      replace (Zdigits2 (Z.pos m) + 52 + (e + -52)) with (Zdigits2 (Zpos m) + e) by lia.
      rewrite Hc. replace (e - (e + -52)) with 52 by lia.
      unfold shr. rewrite iter_pos_iter. simpl shr_record_of_loc.
      rewrite (iter_shr_1_exact 52 (Zpos m)) by lia. f_equal. lia. }
    simpl shr_m. simpl loc_of_shr_record. simpl round_nearest_even.
    assert (shr_fexp prec emax (Z.pos m) e loc_Exact =
            (Build_shr_record (Zpos m) false false, e)) as ->.
    { unfold shr_fexp. rewrite Hc, Z.sub_diag. reflexivity. }
    simpl. unfold emax, prec in *. rewrite Hb. by destruct s.
Qed.

(** A finite non-zero float divided by itself is one. *)
Lemma SF64div_self s m e :
  SF64div (S754_finite s m e) (S754_finite s m e) = fone.
Proof.
  unfold SF64div, SFdiv, SFdiv_core_binary.
  rewrite Z.sub_diag. rewrite Z.sub_diag.
  change (Z.min (fexp prec emax 0) 0) with (-53).
  change (0 - -53) with 53. cbv iota beta.
  rewrite Z.shiftl_mul_pow2 by lia.
  assert (Z.div_eucl (Z.pos m * 2 ^ 53) (Z.pos m) = (2 ^ 53, 0)) as ->.
  { pose proof (Z_div_mod (Z.pos m * 2 ^ 53) (Z.pos m) ltac:(lia)) as H.
    destruct (Z.div_eucl (Z.pos m * 2 ^ 53) (Z.pos m)) as [q r].
    destruct H as [H1 H2]. assert (q = 2 ^ 53) by nia. f_equal; lia. }
  assert (new_location (Z.pos m) 0 = loc_Exact) as ->.
  { unfold new_location, new_location_even, new_location_odd.
    by destruct (Z.even (Z.pos m)). }
  by destruct s.
Qed.

(** A finite float minus itself is zero. *)
Lemma SF64sub_self f :
  is_finite_float f = true -> SF64sub f f = fzero.
Proof.
  destruct f as [s|s| |s m e]; try done; intros _.
  - by destruct s.
  - unfold SF64sub, SFsub. rewrite Z.sub_diag. reflexivity.
Qed.

Lemma SF64sub_valid f g :
  valid_binary prec emax f = true -> valid_binary prec emax g = true ->
  valid_binary prec emax (SF64sub f g) = true.
Proof.
  destruct f as [s|s| |s m e], g as [s'|s'| |s' m' e']; simpl; try done;
    intros Hf Hg; try (by destruct s, s').
  apply binary_normalize_valid.
Qed.

End Rounding.

(** ** Equality of numbers across types *)

Section NumEquality.

(** Two canonical representations of one value are the same. *)
Lemma canonical_unique_le m e m' e' :
  canonical_mantissa prec emax m e = true ->
  canonical_mantissa prec emax m' e' = true ->
  e <= e' -> Zpos m = Zpos m' * 2 ^ (e' - e) ->
  m = m' /\ e = e'.
Proof.
  unfold canonical_mantissa. intros H1%Z.eqb_eq H2%Z.eqb_eq Hle Hv.
  change (Z.pos (digits2_pos m)) with (Zdigits2 (Zpos m)) in H1.
  change (Z.pos (digits2_pos m')) with (Zdigits2 (Zpos m')) in H2.
  rewrite Hv, Zdigits2_mul_pow2 in H1 by lia.
  replace (Zdigits2 (Z.pos m') + (e' - e) + e) with (Zdigits2 (Z.pos m') + e')
    in H1 by lia.
  assert (e = e') by congruence. subst e'.
  rewrite Z.sub_diag in Hv. simpl in Hv. split; [lia|done].
Qed.

Lemma compare_bool_l b c : Num.compare (NBool b) c = Num.compare (NInt (Z.b2z b)) c.
Proof. by destruct c. Qed.
Lemma compare_bool_r b c : Num.compare c (NBool b) = Num.compare c (NInt (Z.b2z b)).
Proof. by destruct c. Qed.

Lemma SFcompare_eq_inv f g :
  SFcompare f g = Some Eq ->
  (Num.is_float_zero f = true /\ Num.is_float_zero g = true) \/ f = g.
Proof.
  destruct f as [s|s| |s m e], g as [s'|s'| |s' m' e']; simpl; try done; auto;
    try (destruct s; done); try (destruct s'; done).
  - destruct s, s'; try done; auto.
  - destruct s, s'; try done; destruct (e ?= e') eqn:E; try done;
      apply Z.compare_eq in E; subst e'; intros H;
      assert (Pos.compare m m' = Eq) as ->%Pos.compare_eq
        by (unfold Pos.compare; by destruct (Pos.compare_cont Eq m m'));
      auto.
Qed.

Lemma cfi_zero f z :
  Num.is_float_zero f = true -> Num.compare_float_int f z = Some (0 ?= z).
Proof. by destruct f. Qed.

(** The exact value of a finite float, scaled by [2 ^ K]. *)
Lemma cfi_finite_eq s m e x K :
  Num.compare_float_int (S754_finite s m e) x = Some Eq ->
  0 <= K -> 0 <= e + K ->
  cond_Zopp s (Zpos m) * 2 ^ (e + K) = x * 2 ^ K.
Proof.
  simpl. intros H HK HeK. injection H as H.
  destruct (0 <=? e) eqn:E.
  - apply Z.leb_le in E. apply Z.compare_eq in H. subst x.
    rewrite Z.pow_add_r by lia. ring.
  - apply Z.leb_gt in E. apply Z.compare_eq in H. rewrite H.
    rewrite <- Z.mul_assoc, <- Z.pow_add_r by lia. f_equal. f_equal. lia.
Qed.

Lemma cfi_eq_same f g x :
  valid_binary prec emax f = true -> valid_binary prec emax g = true ->
  Num.compare_float_int f x = Some Eq ->
  Num.compare_float_int g x = Some Eq ->
  SFcompare f g = Some Eq.
Proof.
  intros Vf Vg Hf Hg.
  destruct f as [s|s| |s m e]; try done; [| |].
  - assert (x = 0) as -> by (simpl in Hf; by destruct x).
    destruct g as [s'|s'| |s' m' e']; try done.
    + destruct s'; done.
    + pose proof (cfi_finite_eq _ _ _ _ (Z.abs e') Hg ltac:(lia) ltac:(lia)) as H.
      assert (0 < 2 ^ (e' + Z.abs e')) by (apply Z.pow_pos_nonneg; lia).
      destruct s'; simpl in H; nia.
  - destruct s; done.
  - destruct g as [s'|s'| |s' m' e']; try done.
    + assert (x = 0) as -> by (simpl in Hg; by destruct x).
      pose proof (cfi_finite_eq _ _ _ _ (Z.abs e) Hf ltac:(lia) ltac:(lia)) as H.
      assert (0 < 2 ^ (e + Z.abs e)) by (apply Z.pow_pos_nonneg; lia).
      destruct s; simpl in H; nia.
    + destruct s'; done.
    + set (K := Z.abs e + Z.abs e').
      pose proof (cfi_finite_eq _ _ _ _ K Hf ltac:(lia) ltac:(lia)) as H1.
      pose proof (cfi_finite_eq _ _ _ _ K Hg ltac:(lia) ltac:(lia)) as H2.
      assert (0 < 2 ^ (e + K)) as P1 by (apply Z.pow_pos_nonneg; lia).
      assert (0 < 2 ^ (e' + K)) as P2 by (apply Z.pow_pos_nonneg; lia).
      assert (s = s') as <-.
      { destruct s, s'; try done; simpl in H1, H2; nia. }
      assert (Zpos m * 2 ^ (e + K) = Zpos m' * 2 ^ (e' + K)) as Hm.
      { destruct s; simpl in H1, H2; nia. }
      simpl in Vf, Vg. unfold bounded in Vf, Vg.
      apply andb_prop in Vf as [Cf _]. apply andb_prop in Vg as [Cg _].
      assert (m = m' /\ e = e') as [<- <-].
      { destruct (Z.le_ge_cases e e') as [L|L].
        - apply canonical_unique_le; try done.
          replace (e' + K) with ((e' - e) + (e + K)) in Hm by lia.
          rewrite (Z.pow_add_r 2 (e' - e) (e + K)) in Hm by lia.
          apply (Z.mul_reg_r _ _ (2 ^ (e + K))); [lia|]. rewrite Hm. ring.
        - cut (m' = m /\ e' = e); [intros []; by subst|].
          apply canonical_unique_le; try done.
          replace (e + K) with ((e - e') + (e' + K)) in Hm by lia.
          rewrite (Z.pow_add_r 2 (e - e') (e' + K)) in Hm by lia.
          apply (Z.mul_reg_r _ _ (2 ^ (e' + K))); [lia|]. rewrite <- Hm. ring. }
      apply SFcompare_refl. done.
Qed.

Lemma eqb_sym a b : Num.eqb a b = Num.eqb b a.
Proof.
  unfold Num.eqb. rewrite (compare_antisym a b).
  by destruct (Num.compare a b) as [[]|].
Qed.

Lemma compare_int_float_eq x g :
  Num.compare (NInt x) (NFloat g) = Some Eq <->
  Num.compare_float_int g x = Some Eq.
Proof.
  simpl. destruct (Num.compare_float_int g x) as [[]|]; simpl; split; done.
Qed.

Lemma cfi_eq_inj f x z :
  Num.compare_float_int f x = Some Eq ->
  Num.compare_float_int f z = Some Eq -> x = z.
Proof.
  destruct f as [s|s| |s m e]; try done.
  - simpl. intros Hx Hz. destruct x, z; done.
  - destruct s; done.
  - intros Hx Hz.
    pose proof (cfi_finite_eq _ _ _ _ (Z.abs e) Hx ltac:(lia) ltac:(lia)) as H1.
    pose proof (cfi_finite_eq _ _ _ _ (Z.abs e) Hz ltac:(lia) ltac:(lia)) as H2.
    assert (0 < 2 ^ Z.abs e) by (apply Z.pow_pos_nonneg; lia).
    apply (Z.mul_reg_r _ _ (2 ^ Z.abs e)); [lia|congruence].
Qed.

Lemma cfi_SFcompare_eq f g x :
  SFcompare f g = Some Eq ->
  Num.compare_float_int f x = Some Eq ->
  Num.compare_float_int g x = Some Eq.
Proof.
  intros [[Zf Zg]| ->]%SFcompare_eq_inv; [|done].
  by rewrite !cfi_zero.
Qed.

Lemma SFcompare_eq_sym f g : SFcompare f g = Some Eq -> SFcompare g f = Some Eq.
Proof. intros H. by rewrite SFcompare_antisym, H. Qed.

Lemma SFcompare_eq_trans f g h :
  SFcompare f g = Some Eq -> SFcompare g h = Some Eq -> SFcompare f h = Some Eq.
Proof.
  intros [[Zf Zg]| ->]%SFcompare_eq_inv; [|done].
  intros [[_ Zh]| <-]%SFcompare_eq_inv.
  - by destruct f, h.
  - by destruct f, g.
Qed.

Lemma compare_eq_trans_nobool a b c :
  Num.wf a = true -> Num.wf c = true ->
  (forall x, a <> NBool x) -> (forall x, b <> NBool x) -> (forall x, c <> NBool x) ->
  Num.compare a b = Some Eq -> Num.compare b c = Some Eq ->
  Num.compare a c = Some Eq.
Proof.
  intros Wa Wc Na Nb Nc.
  destruct a as [x|x|f]; [by destruct (Na x)| |];
  destruct b as [y|y|g]; try (by destruct (Nb y));
  destruct c as [z|z|h]; try (by destruct (Nc z)).
  - simpl. intros [= ->%Z.compare_eq] H. done.
  - intros [= ->%Z.compare_eq] H. done.
  - rewrite compare_int_float_eq. simpl. intros H1 H2.
    f_equal. rewrite (cfi_eq_inj _ _ _ H1 H2). apply Z.compare_refl.
  - rewrite !compare_int_float_eq. intros H1 H2.
    apply (cfi_SFcompare_eq g h); done.
  - simpl. intros H1 [= ->%Z.compare_eq]. done.
  - rewrite compare_int_float_eq. intros H1 H2.
    apply (cfi_eq_same f h y); done.
  - intros H1 H2. apply SFcompare_eq_sym in H1.
    apply (cfi_SFcompare_eq g f); done.
  - apply SFcompare_eq_trans.
Qed.

Lemma compare_unbool a b : Num.compare a b = Num.compare (Num.unbool a) (Num.unbool b).
Proof. by destruct a, b. Qed.

Lemma eqb_trans a b c :
  Num.wf a = true -> Num.wf c = true ->
  Num.eqb a b = true -> Num.eqb b c = true -> Num.eqb a c = true.
Proof.
  unfold Num.eqb. intros Wa Wc.
  rewrite (compare_unbool a b), (compare_unbool b c), (compare_unbool a c).
  intros H1 H2.
  rewrite (compare_eq_trans_nobool (Num.unbool a) (Num.unbool b) (Num.unbool c)); try done.
  - by destruct a.
  - by destruct c.
  - by destruct a.
  - by destruct b.
  - by destruct c.
  - by destruct (Num.compare (Num.unbool a) (Num.unbool b)) as [[]|].
  - by destruct (Num.compare (Num.unbool b) (Num.unbool c)) as [[]|].
Qed.

End NumEquality.

(** ** Cleaning *)

Section CleaningFacts.

Import Cleaning.

Lemma in_missing_values_hashable item :
  hashable item = true ->
  in_missing_values item =
    Ok match item with VNone | VStr [] => true | _ => false end.
Proof. unfold in_missing_values. intros ->. reflexivity. Qed.

Lemma in_missing_values_list l : in_missing_values (VList l) = Raise TypeError.
Proof. reflexivity. Qed.

(** One step of either loop decides exactly the specification's
    classification. *)
Lemma missing_cases item :
  hashable item = true ->
  (in_missing_values item = Ok true /\ is_missing item = true) \/
  (in_missing_values item = Ok false /\ is_nan item = is_missing item).
Proof.
  intros H. rewrite (in_missing_values_hashable _ H).
  destruct item as [|n|s|l]; try (left; split; reflexivity).
  - right. split; [reflexivity|]. destruct n as [| |f]; try reflexivity.
  - destruct s; [left|right]; split; reflexivity.
  - discriminate H.
Qed.

Lemma remove_missing_loop_spec data : forall acc,
  forallb hashable data = true ->
  remove_missing_loop data acc = Ok (acc ++ remove_missing_spec data).
Proof.
  induction data as [|item rest IH]; intros acc H; simpl.
  - by rewrite app_nil_r.
  - apply andb_prop in H as [Hi Hr].
    destruct (missing_cases item Hi) as [[-> Hm]|[-> Hm]]; simpl.
    + rewrite Hm. simpl. by apply IH.
    + rewrite Hm. destruct (is_missing item); simpl.
      * by apply IH.
      * rewrite IH by done. by rewrite <- app_assoc.
Qed.

Lemma filling_missing_loop_spec data v : forall acc,
  forallb hashable data = true ->
  filling_missing_loop data v acc = Ok (acc ++ fill_missing_spec data v).
Proof.
  induction data as [|item rest IH]; intros acc H; simpl.
  - by rewrite app_nil_r.
  - apply andb_prop in H as [Hi Hr].
    destruct (missing_cases item Hi) as [[-> Hm]|[-> Hm]]; simpl.
    + rewrite Hm, IH by done. by rewrite <- app_assoc.
    + rewrite Hm. destruct (is_missing item);
        rewrite IH by done; by rewrite <- app_assoc.
Qed.

Lemma remove_missing_loop_raises data : forall acc l,
  In (VList l) data -> remove_missing_loop data acc = Raise TypeError.
Proof.
  induction data as [|item rest IH]; intros acc l Hin; [destruct Hin|].
  simpl. destruct Hin as [->|Hin]; [reflexivity|].
  destruct (in_missing_values item) as [b|e] eqn:E; simpl.
  - destruct b; [|destruct (is_nan item)]; eapply IH; eauto.
  - unfold in_missing_values in E. destruct (hashable item); congruence.
Qed.

Lemma filling_missing_loop_raises data v : forall acc l,
  In (VList l) data -> filling_missing_loop data v acc = Raise TypeError.
Proof.
  induction data as [|item rest IH]; intros acc l Hin; [destruct Hin|].
  simpl. destruct Hin as [->|Hin]; [reflexivity|].
  destruct (in_missing_values item) as [b|e] eqn:E; simpl.
  - destruct b; [|destruct (is_nan item)]; eapply IH; eauto.
  - unfold in_missing_values in E. destruct (hashable item); congruence.
Qed.

Lemma fill_missing_spec_hashable data v :
  forallb hashable data = true -> hashable v = true ->
  forallb hashable (fill_missing_spec data v) = true.
Proof.
  intros Hd Hv. induction data as [|x r IH]; [reflexivity|].
  simpl in *. apply andb_prop in Hd as [Hx Hr].
  rewrite IH by done. destruct (is_missing x); by rewrite ?Hv, ?Hx.
Qed.

(** Refiltering a filled sequence: a missing fill value is removed
    again, any other fill value stays. *)
Lemma remove_fill_spec data v :
  remove_missing_spec (fill_missing_spec data v) =
  if is_missing v then remove_missing_spec data else fill_missing_spec data v.
Proof.
  induction data as [|x r IH]; simpl.
  - by destruct (is_missing v).
  - destruct (is_missing x) eqn:Hx; simpl.
    + destruct (is_missing v) eqn:Hv; simpl; rewrite IH; by rewrite ?Hv.
    + rewrite Hx. simpl. rewrite IH. by destruct (is_missing v).
Qed.

Lemma remove_missing_values_filter data :
  forallb hashable data = true ->
  remove_missing_values data = Ok (remove_missing_spec data).
Proof. intros H. unfold remove_missing_values. by rewrite remove_missing_loop_spec. Qed.

End CleaningFacts.

(** The scenario of the specification. *)
Example remove_missing_sample :
  Cleaning.remove_missing_values sample_missing =
  Ok [VInt 10; VFloat f20_5; VStr (str "text"); VInt 30].
Proof. reflexivity. Qed.

(** Zero and [False] are not missing. *)
Example remove_missing_keeps_falsy :
  Cleaning.remove_missing_values [VInt 0; VBool false; VInt 1; VBool true] =
  Ok [VInt 0; VBool false; VInt 1; VBool true].
Proof. reflexivity. Qed.

(** C4, as stated, fails: a sequence with a nested list is a sequence
    of the data model, and [remove_missing_values] raises on it instead
    of returning a sequence. *)
Lemma remove_missing_values_nested_counterexample :
  ~ (exists r, Cleaning.remove_missing_values [VInt 1; VList [VInt 2]] = Ok r).
Proof. intros [r H]. discriminate H. Qed.

(** C4 (amended): for every sequence whose elements are all hashable
    (no nested list), [remove_missing_values] returns the sequence of
    the elements that are not missing ([None], the empty string, a
    not-a-number float), in their original order; every other element,
    zero and [False] included, is kept. *)
Theorem remove_missing_values_omits_missing (data : list value) :
  forallb hashable data = true ->
  Cleaning.remove_missing_values data = Ok (Cleaning.remove_missing_spec data).
Proof.
  apply remove_missing_values_filter.
Qed.

Lemma remove_missing_values_omits_missing_witness :
  forallb hashable sample_missing = true /\
  Cleaning.remove_missing_values sample_missing =
  Ok (Cleaning.remove_missing_spec sample_missing).
Proof.
  split; [reflexivity|].
  apply (remove_missing_values_omits_missing sample_missing). reflexivity.
Defined.

(** C1, as stated, fails: with the fill value 0 nothing is removed from
    [[None]] after filling, with the fill value [None] the one position
    is removed. *)
Lemma fill_then_remove_positions_counterexample :
  ~ (forall S v1 v2 r1 r2,
       Cleaning.fill_then_remove S v1 = Ok r1 ->
       Cleaning.fill_then_remove S v2 = Ok r2 ->
       length r1 = length r2).
Proof.
  intros H.
  specialize (H [VNone] (VInt 0) VNone [VInt 0] [] eq_refl eq_refl).
  discriminate H.
Qed.

(** C1 (amended): for every sequence S of hashable elements and every
    hashable fill value v, filling and then removing returns, when v is
    not a missing marker, the filled sequence itself (no position is
    removed), and when v is a missing marker ([None], the empty string,
    not-a-number), the non-missing elements of S (exactly the missing
    positions of S are removed).  In both cases the non-missing
    elements of S are kept unchanged and in order. *)
Theorem fill_then_remove_spec (S : list value) (v : value) :
  forallb hashable S = true ->
  hashable v = true ->
  Cleaning.fill_then_remove S v =
  Ok (if Cleaning.is_missing v
      then Cleaning.remove_missing_spec S
      else Cleaning.fill_missing_spec S v).
Proof.
  intros HS Hv. unfold Cleaning.fill_then_remove, Cleaning.filling_missing_values.
  rewrite filling_missing_loop_spec by done. simpl.
  rewrite remove_missing_values_filter
    by (by apply fill_missing_spec_hashable).
  by rewrite remove_fill_spec.
Qed.

Lemma fill_then_remove_spec_witness :
  forallb hashable sample_missing = true /\
  hashable (VFloat S754_nan) = true /\
  Cleaning.fill_then_remove sample_missing (VFloat S754_nan) =
  Ok (if Cleaning.is_missing (VFloat S754_nan)
      then Cleaning.remove_missing_spec sample_missing
      else Cleaning.fill_missing_spec sample_missing (VFloat S754_nan)).
Proof.
  split; [reflexivity|]. split; [reflexivity|].
  apply (fill_then_remove_spec sample_missing (VFloat S754_nan)); reflexivity.
Defined.

(** ** Deduplication *)

Section DedupFacts.

Import Dedup.

Lemma pystr_eqb_eq s t : pystr_eqb s t = true <-> s = t.
Proof. unfold pystr_eqb. by destruct (decide (s = t)). Qed.

Lemma py_eq_sym x y : py_eq x y = py_eq y x.
Proof.
  destruct x, y; simpl; try done.
  - apply eqb_sym.
  - unfold pystr_eqb. destruct (decide (s = s0)), (decide (s0 = s)); congruence.
Qed.

Lemma py_eq_trans x y z :
  wf_key x = true -> wf_key z = true ->
  py_eq x y = true -> py_eq y z = true -> py_eq x z = true.
Proof.
  destruct x, y; simpl; try done; destruct z; simpl; try done.
  - apply eqb_trans.
  - rewrite !pystr_eqb_eq. congruence.
Qed.

Lemma key_match_refl a : key_match a a = true.
Proof. unfold key_match. by rewrite N.eqb_refl. Qed.

Lemma key_match_sym a b : key_match a b = key_match b a.
Proof. unfold key_match. by rewrite N.eqb_sym, py_eq_sym. Qed.

Section Universe.

Variable U : list obj.
Hypothesis U_wf : wf_objs U.

Lemma key_match_trans a b c :
  In a U -> In b U -> In c U ->
  key_match a b = true -> key_match b c = true -> key_match a c = true.
Proof.
  destruct U_wf as [Hwf Hid]. intros Ha Hb Hc. unfold key_match.
  intros [H1%N.eqb_eq|H1]%orb_prop [H2%N.eqb_eq|H2]%orb_prop; apply orb_true_iff.
  - left. apply N.eqb_eq. congruence.
  - right. by rewrite <- (Hid b a Hb Ha H1).
  - right. by rewrite (Hid c b Hc Hb H2).
  - right. apply (py_eq_trans _ (obj_val b)); auto.
Qed.

Lemma existsb_keys item keys earlier :
  In item U -> incl earlier U -> represents keys earlier ->
  existsb (key_match item) keys = existsb (key_match item) earlier.
Proof.
  intros Hi HU [Hinc Hrep].
  destruct (existsb (key_match item) earlier) eqn:E.
  - apply existsb_exists in E as (a & Ha & Hm).
    destruct (Hrep a Ha) as (k & Hk & Hak).
    apply existsb_exists. exists k. split; [done|].
    rewrite key_match_sym in Hm. rewrite key_match_sym.
    apply (key_match_trans k a item); auto.
    by rewrite key_match_sym.
  - destruct (existsb (key_match item) keys) eqn:E'; [|done].
    apply existsb_exists in E' as (k & Hk & Hm).
    assert (existsb (key_match item) earlier = true); [|congruence].
    apply existsb_exists. exists k. auto.
Qed.

Lemma fromkeys_loop_spec data : forall keys earlier,
  incl (earlier ++ data) U -> represents keys earlier ->
  fromkeys_loop data keys = Ok (keys ++ first_occurrences earlier data).
Proof.
  destruct U_wf as [Hwf Hid].
  induction data as [|item rest IH]; intros keys earlier HU Hrep; simpl.
  - by rewrite app_nil_r.
  - assert (In item U) as Hi by (apply HU, in_or_app; right; by left).
    assert (incl earlier U) as HeU by (intros x Hx; apply HU, in_or_app; by left).
    assert (hashable (obj_val item) = true) as ->.
    { specialize (Hwf item Hi). by destruct (obj_val item). }
    rewrite (existsb_keys item keys earlier) by done.
    assert (incl ((earlier ++ [item]) ++ rest) U) as HU'
      by (by rewrite <- app_assoc).
    destruct Hrep as [Hinc Hrep].
    destruct (existsb (key_match item) earlier) eqn:E.
    + apply IH; [done|]. split.
      * intros k Hk. apply in_or_app. left. by apply Hinc.
      * intros a [Ha|[<-|[]]]%in_app_or; [by apply Hrep|].
        apply existsb_exists in E as (b & Hb & Hm).
        destruct (Hrep b Hb) as (k & Hk & Hbk).
        exists k. split; [done|].
        apply (key_match_trans item b k); auto.
    + rewrite IH with (earlier := earlier ++ [item]); [by rewrite <- app_assoc|done|].
      split.
      * intros k [Hk|[<-|[]]]%in_app_or; apply in_or_app;
          [left; by apply Hinc|right; by left].
      * intros a [Ha|[<-|[]]]%in_app_or.
        -- destruct (Hrep a Ha) as (k & Hk & Hak). exists k.
           split; [apply in_or_app; by left|done].
        -- exists item. split; [apply in_or_app; right; by left|apply key_match_refl].
Qed.

End Universe.

Lemma same_value_eq x y : same_value x y = true -> x = y.
Proof.
  destruct x, y; simpl; try done.
  - intros ->%bool_decide_eq_true. done.
  - intros ->%bool_decide_eq_true. done.
Qed.

Lemma wf_objsb_wf data : wf_objsb data = true -> wf_objs data.
Proof.
  unfold wf_objsb. intros [H1 H2]%andb_prop. split.
  - intros a Ha. rewrite forallb_forall in H1. by apply H1.
  - intros a b Ha Hb Hid. rewrite forallb_forall in H2.
    specialize (H2 a Ha). rewrite forallb_forall in H2. specialize (H2 b Hb).
    apply N.eqb_eq in Hid. rewrite Hid in H2. by apply same_value_eq.
Qed.

Lemma fromkeys_loop_raises data : forall keys l,
  In (VList l) (List.map obj_val data) ->
  fromkeys_loop data keys = Raise TypeError.
Proof.
  induction data as [|item rest IH]; intros keys l Hin; [destruct Hin|].
  simpl in *. destruct Hin as [->|Hin]; [reflexivity|].
  destruct (hashable (obj_val item)); [|reflexivity].
  destruct (existsb (key_match item) keys); eapply IH; eauto.
Qed.

End DedupFacts.

Example remove_duplicated_sample :
  Dedup.remove_duplicated_values sample_duplicates =
  Ok [Dedup.Obj 1 (VInt 10); Dedup.Obj 3 (VBool true);
      Dedup.Obj 5 (VStr (str "a"));
      Dedup.Obj 7 (VFloat S754_nan); Dedup.Obj 8 (VFloat S754_nan)].
Proof. reflexivity. Qed.

(** C10: [remove_duplicated_values] compares elements as a dictionary
    compares keys, by identity or [==]: the integer 10 and the float
    10.0 are the same key, and so are [True] and 1.  On every
    well-formed sequence it returns, in the original order, exactly
    the elements that no earlier element of the sequence matches: the
    first occurrence of each value. *)
Theorem remove_duplicated_values_first_occurrences :
  (forall i j,
     Dedup.key_match (Dedup.Obj i (VInt 10)) (Dedup.Obj j (VFloat f10)) = true /\
     Dedup.key_match (Dedup.Obj i (VBool true)) (Dedup.Obj j (VInt 1)) = true) /\
  (forall data,
     Dedup.wf_objsb data = true ->
     Dedup.remove_duplicated_values data = Ok (Dedup.first_occurrences [] data)).
Proof.
  split.
  - intros i j. unfold Dedup.key_match. simpl. by rewrite !orb_true_r.
  - intros data H%wf_objsb_wf. unfold Dedup.remove_duplicated_values.
    rewrite (fromkeys_loop_spec data H data [] []); [done|by apply incl_refl|].
    split; [by apply incl_refl|]. intros a [].
Qed.

Lemma remove_duplicated_values_first_occurrences_witness :
  Dedup.wf_objsb sample_duplicates = true /\
  Dedup.remove_duplicated_values sample_duplicates =
  Ok (Dedup.first_occurrences [] sample_duplicates).
Proof.
  split; [reflexivity|].
  apply (proj2 remove_duplicated_values_first_occurrences sample_duplicates).
  reflexivity.
Defined.

(** C9: on every sequence that contains an unhashable element (a
    nested list), [remove_missing_values], [filling_missing_values]
    (with any fill value) and [remove_duplicated_values] raise a
    [TypeError] instead of returning a result. *)
Theorem unhashable_element_raises (data : list Dedup.obj) (l : list value) :
  In (VList l) (List.map Dedup.obj_val data) ->
  Cleaning.remove_missing_values (List.map Dedup.obj_val data) = Raise TypeError /\
  (forall fill_value,
     Cleaning.filling_missing_values (List.map Dedup.obj_val data) fill_value =
     Raise TypeError) /\
  Dedup.remove_duplicated_values data = Raise TypeError.
Proof.
  intros H. split; [|split].
  - eapply remove_missing_loop_raises; eauto.
  - intros v. eapply filling_missing_loop_raises; eauto.
  - eapply fromkeys_loop_raises; eauto.
Qed.

Lemma unhashable_element_raises_witness :
  In (VList [VInt 2; VInt 3]) (List.map Dedup.obj_val sample_nested) /\
  Cleaning.remove_missing_values (List.map Dedup.obj_val sample_nested) =
    Raise TypeError /\
  (forall fill_value,
     Cleaning.filling_missing_values (List.map Dedup.obj_val sample_nested) fill_value =
     Raise TypeError) /\
  Dedup.remove_duplicated_values sample_nested = Raise TypeError.
Proof.
  assert (In (VList [VInt 2; VInt 3]) (List.map Dedup.obj_val sample_nested)) as H
    by (simpl; tauto).
  split; [exact H|].
  exact (unhashable_element_raises sample_nested [VInt 2; VInt 3] H).
Defined.

(** ** Min-max normalization *)

Section NormalizeFacts.

Lemma Zdigits2_abs_lt z k :
  0 <= k -> Z.abs z < 2 ^ k -> Zdigits2 z <= k.
Proof.
  intros Hk Hz. destruct z as [|p|p]; simpl in *; [lia| |];
    change (Z.pos (digits2_pos p)) with (Zdigits2 (Zpos p));
    rewrite Zdigits2_pos by lia;
    assert (Z.log2 (Zpos p) < k) by (apply Z.log2_lt_pow2; lia); lia.
Qed.

(** An integer below [2 ^ 1023] converts to a canonical finite float,
    a non-zero one when the integer is not zero. *)
Lemma float_of_int_ok z :
  Z.abs z < 2 ^ 1023 ->
  exists f, Num.float_of_int z = Ok f /\
    valid_binary prec emax f = true /\ is_finite_float f = true /\
    (z <> 0 -> Num.is_float_zero f = false).
Proof.
  intros Hz. unfold Num.float_of_int.
  pose proof (Zdigits2_abs_lt z 1023 ltac:(lia) Hz) as Hd.
  rewrite binary_normalize_finite by lia.
  eexists. split; [reflexivity|]. split; [apply binary_normalize_valid|].
  split; [apply binary_normalize_finite; lia|].
  intros Hnz. destruct z as [|p|p]; [done| |]; simpl;
    apply binary_round_nonzero;
    pose proof (Zdigits2_ge_1 (Zpos p) ltac:(lia)); lia.
Qed.

Lemma to_float_ok n :
  Num.int_below 1023 n -> Num.wf n = true ->
  exists f, Num.to_float n = Ok f /\ valid_binary prec emax f = true /\
    (Num.is_finite n = true -> is_finite_float f = true).
Proof.
  unfold Num.int_below. destruct n as [b|z|f]; simpl; intros Hb Hw.
  - destruct (float_of_int_ok (Z.b2z b) Hb) as (f & -> & ? & ? & _). eauto.
  - destruct (float_of_int_ok z Hb) as (f & -> & ? & ? & _). eauto.
  - eauto.
Qed.

Lemma to_float_total n :
  Num.int_below 1023 n -> exists f, Num.to_float n = Ok f.
Proof.
  unfold Num.int_below. destruct n as [b|z|f]; simpl; intros Hb.
  - destruct (float_of_int_ok (Z.b2z b) Hb) as (f & -> & _). eauto.
  - destruct (float_of_int_ok z Hb) as (f & -> & _). eauto.
  - eauto.
Qed.

Lemma int_true_divide_self z : z <> 0 -> Num.int_true_divide z z = Ok fone.
Proof.
  intros Hz. unfold Num.int_true_divide, Num.round_ratio.
  rewrite (proj2 (Z.eqb_neq z 0)) by done.
  replace (Z.log2 (Z.abs z) + 56 - Z.log2 (Z.abs z)) with 56 by lia.
  change (Z.max 0 56) with 56.
  rewrite (Z.mul_comm (Z.abs z) (2 ^ 56)).
  rewrite Z.mod_mul, Z.div_mul by lia.
  by destruct (z <? 0).
Qed.

Lemma int_true_divide_zero z :
  z <> 0 -> Num.int_true_divide 0 z = Ok (S754_zero (z <? 0)).
Proof.
  intros Hz. unfold Num.int_true_divide.
  by rewrite (proj2 (Z.eqb_neq z 0)) by done.
Qed.

(** The quotient of two integers does not overflow when the dividend
    is below [2 ^ 1023]. *)
Lemma int_true_divide_ok a b :
  b <> 0 -> Z.abs a < 2 ^ 1023 -> exists f, Num.int_true_divide a b = Ok f.
Proof.
  intros Hb Ha. unfold Num.int_true_divide.
  rewrite (proj2 (Z.eqb_neq b 0)) by done.
  destruct (a =? 0) eqn:E; [eauto|]. apply Z.eqb_neq in E.
  unfold Num.round_ratio.
  set (k := Z.max 0 (Z.log2 (Z.abs b) + 56 - Z.log2 (Z.abs a))).
  set (n := Z.abs a * 2 ^ k).
  set (m := 2 * (n / Z.abs b) + (if n mod Z.abs b =? 0 then 0 else 1)).
  rewrite binary_normalize_finite; [eauto|].
  assert (0 <= k) by lia.
  assert (0 < 2 ^ k) by (apply Z.pow_pos_nonneg; lia).
  assert (0 <= n / Z.abs b <= n).
  { split; [apply Z.div_pos; lia|]. apply Z.div_le_upper_bound; nia. }
  assert (n < 2 ^ (1023 + k)) by (rewrite Z.pow_add_r by lia; nia).
  assert (0 <= m < 2 ^ (1024 + k)).
  { replace (1024 + k) with (Z.succ (1023 + k)) by lia.
    rewrite Z.pow_succ_r by lia. unfold m.
    destruct (n mod Z.abs b =? 0); lia. }
  assert (Zdigits2 (cond_Zopp (xorb (a <? 0) (b <? 0)) m) <= 1024 + k).
  { apply Zdigits2_abs_lt; [lia|].
    destruct (xorb (a <? 0) (b <? 0)); simpl; lia. }
  lia.
Qed.

Lemma in_range_wf n : Numeric.in_range n = true -> Num.wf n = true.
Proof. by destruct n. Qed.

Lemma in_range_below n : Numeric.in_range n = true -> Num.int_below 1022 n.
Proof.
  destruct n as [b|z|f]; unfold Num.int_below; simpl; try done.
  - intros _. destruct b; simpl; lia.
  - intros H%Z.ltb_lt. done.
Qed.

Lemma int_below_mono k k' n : k <= k' -> Num.int_below k n -> Num.int_below k' n.
Proof.
  unfold Num.int_below. intros Hk. destruct (Num.int_of n); [|done].
  intros H. assert (2 ^ k <= 2 ^ k') by (apply Z.pow_le_mono_r; lia). lia.
Qed.

Lemma sub_ok a b :
  Numeric.in_range a = true -> Numeric.in_range b = true ->
  exists r, Num.sub a b = Ok r /\ Num.wf r = true /\ Num.int_below 1023 r /\
    (forall x, r <> NBool x).
Proof.
  intros Ha Hb. pose proof (in_range_below a Ha) as Ba.
  pose proof (in_range_below b Hb) as Bb.
  pose proof (in_range_wf a Ha) as Wa. pose proof (in_range_wf b Hb) as Wb.
  destruct (to_float_ok a (int_below_mono 1022 1023 a ltac:(lia) Ba) Wa)
    as (fa & Efa & Vfa & _).
  destruct (to_float_ok b (int_below_mono 1022 1023 b ltac:(lia) Bb) Wb)
    as (fb & Efb & Vfb & _).
  unfold Num.sub, Num.int_below in *.
  destruct (Num.int_of a) as [x|] eqn:Ea, (Num.int_of b) as [y|] eqn:Eb.
  - eexists. split; [reflexivity|]. split; [done|]. split; [|done].
    simpl. change (2 ^ 1023) with (2 * 2 ^ 1022). lia.
  - rewrite Efa, Efb. simpl. eexists. split; [reflexivity|]. split; [|done].
    simpl. by apply SF64sub_valid.
  - rewrite Efa, Efb. simpl. eexists. split; [reflexivity|]. split; [|done].
    simpl. by apply SF64sub_valid.
  - rewrite Efa, Efb. simpl. eexists. split; [reflexivity|]. split; [|done].
    simpl. by apply SF64sub_valid.
Qed.

Lemma unit_width new_min new_max :
  unit_bounds new_min new_max ->
  Num.sub new_max new_min = Ok (NInt 1) \/
  Num.sub new_max new_min = Ok (NFloat fone).
Proof. intros [[->| ->] [->| ->]]; [left|right|right|right]; reflexivity. Qed.

Lemma mul_total d w :
  Num.int_below 1023 d ->
  w = NInt 1 \/ w = NFloat fone ->
  exists p, Num.mul d w = Ok p /\ Num.int_below 1023 p.
Proof.
  intros Bd Hw.
  destruct (to_float_total d Bd) as (fd & Efd).
  unfold Num.mul. destruct Hw as [->| ->]; simpl.
  - destruct (Num.int_of d) as [x|] eqn:Ed.
    + eexists. split; [reflexivity|]. unfold Num.int_below in *.
      rewrite Ed in Bd. simpl. by rewrite Z.mul_1_r.
    + rewrite Efd. simpl. eexists. split; [reflexivity|]. done.
  - destruct (Num.int_of d) as [x|] eqn:Ed; rewrite Efd; simpl;
      eexists; (split; [reflexivity|done]).
Qed.

Lemma eqb_zero_int r z :
  Num.int_of r = Some z -> Num.eqb r (NInt 0) = false -> z <> 0.
Proof.
  unfold Num.eqb. intros Hi He ->.
  destruct r as [b|x|f]; simpl in *; [| |done].
  - destruct b; done.
  - injection Hi as ->. done.
Qed.

Lemma eqb_zero_float f :
  Num.eqb (NFloat f) (NInt 0) = false -> Num.is_float_zero f = false.
Proof. unfold Num.eqb. by destruct f. Qed.

Lemma to_float_nonzero r f :
  Num.int_below 1023 r ->
  Num.eqb r (NInt 0) = false -> Num.to_float r = Ok f ->
  Num.is_float_zero f = false.
Proof.
  unfold Num.int_below. intros Br Hnz Hf.
  destruct r as [b|z|g]; simpl in *.
  - destruct b; [|done]. by injection Hf as <-.
  - assert (z <> 0) as Hz by (by apply (eqb_zero_int (NInt z))).
    destruct (float_of_int_ok z Br) as (f' & E & _ & _ & Hn).
    rewrite E in Hf. injection Hf as <-. by apply Hn.
  - injection Hf as <-. by apply eqb_zero_float.
Qed.

Lemma truediv_total p r :
  Num.int_below 1023 p -> Num.int_below 1023 r ->
  Num.eqb r (NInt 0) = false ->
  exists f, Num.truediv p r = Ok (NFloat f).
Proof.
  intros Bp Br Hnz.
  destruct (to_float_total p Bp) as (fp & Efp).
  destruct (to_float_total r Br) as (fr & Efr).
  pose proof (to_float_nonzero r fr Br Hnz Efr) as Hfr.
  unfold Num.truediv.
  destruct (Num.int_of p) as [x|] eqn:Ep, (Num.int_of r) as [y|] eqn:Er;
    try (rewrite Efp, Efr; simpl; rewrite Hfr; eauto; fail).
  unfold Num.int_below in Bp. rewrite Ep in Bp.
  destruct (int_true_divide_ok x y) as (f & ->); [|done|simpl; eauto].
  by apply (eqb_zero_int r).
Qed.

Lemma add_unit new_min f :
  new_min = NInt 0 \/ new_min = NFloat fzero ->
  Num.add new_min (NFloat f) = Ok (NFloat (SF64add fzero f)).
Proof. intros [->| ->]; reflexivity. Qed.

Lemma finite_nonzero_float f :
  is_finite_float f = true -> Num.is_float_zero f = false ->
  exists s m e, f = S754_finite s m e.
Proof. destruct f; try done. eauto. Qed.

Lemma rescale_total new_min new_max min_val range_val x :
  unit_bounds new_min new_max ->
  Numeric.in_range x = true -> Numeric.in_range min_val = true ->
  Num.int_below 1023 range_val ->
  Num.eqb range_val (NInt 0) = false ->
  exists f, Numeric.rescale new_min new_max min_val range_val x = Ok (NFloat f).
Proof.
  intros Hb Hx Hmn Br Hnz. unfold Numeric.rescale.
  destruct (sub_ok x min_val Hx Hmn) as (d & -> & _ & Bd & _). simpl.
  pose proof (unit_width _ _ Hb) as Hw.
  assert (exists w, Num.sub new_max new_min = Ok w /\
                    (w = NInt 1 \/ w = NFloat fone)) as (w & -> & Hw')
    by (destruct Hw as [->| ->]; eauto).
  simpl. destruct (mul_total d w Bd Hw') as (p & -> & Bp). simpl.
  destruct (truediv_total p range_val Bp Br Hnz) as (f & ->). simpl.
  rewrite add_unit by apply Hb. eauto.
Qed.

Lemma mul_int_one z : Num.mul (NInt z) (NInt 1) = Ok (NInt z).
Proof. unfold Num.mul. simpl. by rewrite Z.mul_1_r. Qed.

Lemma truediv_int_self z :
  z <> 0 -> Num.truediv (NInt z) (NInt z) = Ok (NFloat fone).
Proof.
  intros Hz. unfold Num.truediv. cbn [Num.int_of].
  by rewrite int_true_divide_self.
Qed.

Lemma mul_float_one f w :
  valid_binary prec emax f = true -> is_finite_float f = true ->
  w = NInt 1 \/ w = NFloat fone ->
  Num.mul (NFloat f) w = Ok (NFloat f).
Proof.
  intros Hv Hf [->| ->]; unfold Num.mul; cbn [Num.int_of Num.to_float].
  - change (Num.float_of_int 1) with (Ok fone). cbn [bind].
    by rewrite SF64mul_one.
  - cbn [bind]. by rewrite SF64mul_one.
Qed.

Lemma truediv_float_self s m e r :
  Num.to_float r = Ok (S754_finite s m e) ->
  Num.truediv (NFloat (S754_finite s m e)) r = Ok (NFloat fone).
Proof.
  intros Hr. unfold Num.truediv. cbn [Num.int_of Num.to_float].
  rewrite Hr. cbn [bind Num.is_float_zero]. by rewrite SF64div_self.
Qed.

(** The maximum is mapped to one. *)
Lemma rescale_max new_min new_max min_val max_val range_val :
  unit_bounds new_min new_max ->
  Numeric.in_range max_val = true -> Numeric.in_range min_val = true ->
  Num.sub max_val min_val = Ok range_val ->
  Num.is_finite range_val = true ->
  Num.eqb range_val (NInt 0) = false ->
  Numeric.rescale new_min new_max min_val range_val max_val = Ok (NFloat fone).
Proof.
  intros Hb Hmx Hmn Hsub Hfin Hnz. unfold Numeric.rescale.
  destruct (sub_ok max_val min_val Hmx Hmn) as (r & Hr & Wr & Br & Nb).
  rewrite Hsub in Hr. injection Hr as <-. rewrite Hsub. cbn [bind].
  pose proof (unit_width _ _ Hb) as Hw.
  assert (Num.add new_min (NFloat fone) = Ok (NFloat fone)) as Hadd
    by (by rewrite add_unit by apply Hb).
  destruct range_val as [b|z|f]; [by destruct (Nb b)| |].
  - assert (z <> 0) as Hz by (by apply (eqb_zero_int (NInt z))).
    unfold Num.int_below in Br. simpl in Br.
    destruct (float_of_int_ok z Br) as (fz & Efz & Vfz & Ffz & Nfz).
    destruct (finite_nonzero_float fz Ffz (Nfz Hz)) as (s & m & e & ->).
    destruct Hw as [->| ->]; cbn [bind].
    + rewrite mul_int_one. cbn [bind]. rewrite truediv_int_self by done.
      cbn [bind]. done.
    + assert (Num.mul (NInt z) (NFloat fone) = Ok (NFloat (S754_finite s m e)))
        as ->.
      { unfold Num.mul. cbn [Num.int_of Num.to_float]. rewrite Efz.
        cbn [bind]. by rewrite SF64mul_one. }
      cbn [bind]. rewrite truediv_float_self by done. cbn [bind]. done.
  - simpl in Wr, Hfin. pose proof (eqb_zero_float f Hnz) as Hfz.
    destruct (finite_nonzero_float f Hfin Hfz) as (s & m & e & ->).
    assert (exists w, Num.sub new_max new_min = Ok w /\
                    (w = NInt 1 \/ w = NFloat fone)) as (w & -> & Hw')
      by (destruct Hw as [->| ->]; eauto).
    cbn [bind]. rewrite mul_float_one by done. cbn [bind].
    rewrite truediv_float_self by done. cbn [bind]. done.
Qed.

(** The minimum is mapped to zero. *)
Lemma rescale_min new_min new_max min_val range_val :
  unit_bounds new_min new_max ->
  Numeric.in_range min_val = true ->
  Num.is_finite min_val = true ->
  Num.int_below 1023 range_val ->
  Num.is_finite range_val = true ->
  Num.eqb range_val (NInt 0) = false ->
  Numeric.rescale new_min new_max min_val range_val min_val = Ok (NFloat fzero).
Proof.
  intros Hb Hmn Hfmn Br Hfin Hnz. unfold Numeric.rescale.
  assert (Num.sub min_val min_val = Ok (NInt 0) \/
          Num.sub min_val min_val = Ok (NFloat fzero)) as Hd.
  { unfold Num.sub. destruct min_val as [b|z|f]; simpl.
    - left. by rewrite Z.sub_diag.
    - left. by rewrite Z.sub_diag.
    - right. by rewrite SF64sub_self. }
  pose proof (unit_width _ _ Hb) as Hw.
  assert (exists p, (let! d := Num.sub min_val min_val in
                     let! w := Num.sub new_max new_min in Num.mul d w) = Ok p /\
                    (p = NInt 0 \/ p = NFloat fzero)) as (p & Hp & Hp').
  { destruct Hd as [->| ->], Hw as [->| ->]; simpl; eauto. }
  assert (exists s', Num.truediv p range_val = Ok (NFloat (S754_zero s')))
    as (s' & Hq).
  { destruct (to_float_total range_val Br) as (fr & Efr).
    pose proof (to_float_nonzero range_val fr Br Hnz Efr) as Hfr.
    assert (is_finite_float fr = true) as Ffr.
    { destruct range_val as [b|z|f]; simpl in *.
      - destruct (float_of_int_ok (Z.b2z b) Br) as (f' & E & _ & F & _).
        congruence.
      - destruct (float_of_int_ok z Br) as (f' & E & _ & F & _). congruence.
      - congruence. }
    destruct (finite_nonzero_float fr Ffr Hfr) as (s & m & e & ->).
    unfold Num.truediv.
    destruct Hp' as [->| ->]; simpl.
    - destruct (Num.int_of range_val) as [z|] eqn:Ez.
      + rewrite int_true_divide_zero by (by apply (eqb_zero_int range_val)).
        simpl. eauto.
      + change (Num.float_of_int 0) with (Ok fzero). simpl. rewrite Efr. simpl. eauto.
    - rewrite Efr. simpl. eauto. }
  destruct (Num.sub min_val min_val) as [d|]; [|by destruct Hd].
  simpl in *. destruct (Num.sub new_max new_min) as [w|]; [|by destruct Hw].
  simpl in *. rewrite Hp. simpl. rewrite Hq. simpl.
  rewrite add_unit by apply Hb. by destruct s'.
Qed.

Lemma sub_finite_r a b r :
  Num.sub a b = Ok r -> Num.is_finite r = true -> Num.is_finite b = true.
Proof.
  unfold Num.sub. destruct b as [x|y|fb]; try done.
  destruct (Num.int_of a); simpl.
  - destruct (Num.to_float a) as [fa|]; [|done]. simpl. intros [= <-]. simpl.
    destruct fa as [s|s| |s m e], fb as [s'|s'| |s' m' e']; try done;
      simpl; by destruct s, s'.
  - destruct (Num.to_float a) as [fa|]; [|done]. simpl. intros [= <-]. simpl.
    destruct fa as [s|s| |s m e], fb as [s'|s'| |s' m' e']; try done;
      simpl; by destruct s, s'.
Qed.

Lemma min_loop_in items : forall x, In (Num.min_loop items x) (x :: items).
Proof.
  induction items as [|y r IH]; intros x; simpl; [auto|].
  destruct (IH (if Num.ltb y x then y else x)) as [H|H]; [|auto].
  rewrite <- H. destruct (Num.ltb y x); auto.
Qed.

Lemma max_loop_in items : forall x, In (Num.max_loop items x) (x :: items).
Proof.
  induction items as [|y r IH]; intros x; simpl; [auto|].
  destruct (IH (if Num.gtb y x then y else x)) as [H|H]; [|auto].
  rewrite <- H. destruct (Num.gtb y x); auto.
Qed.

Lemma comprehension_ok {A B} (f : A -> result B) l :
  (forall x, In x l -> exists y, f x = Ok y) ->
  exists res, comprehension f l = Ok res /\
    Forall2 (fun x y => f x = Ok y) l res.
Proof.
  induction l as [|x r IH]; intros H; simpl.
  - exists []. split; [done|constructor].
  - destruct (H x (or_introl eq_refl)) as (y & Hy).
    destruct IH as (res & Hres & HF); [intros; apply H; by right|].
    rewrite Hy, Hres. simpl. exists (y :: res). split; [done|by constructor].
Qed.

Lemma normalize_min_max_unfold data new_min new_max :
  Numeric.numeric_filter data <> [] ->
  Numeric.normalize_min_max data new_min new_max =
  let numeric_data := Numeric.numeric_filter data in
  let! min_val := Num.min numeric_data in
  let! max_val := Num.max numeric_data in
  let! range_val := Num.sub max_val min_val in
  if Num.eqb range_val (NInt 0)
  then Ok (List.map (fun _ => new_min) numeric_data)
  else comprehension (Numeric.rescale new_min new_max min_val range_val) numeric_data.
Proof.
  intros Hne. unfold Numeric.normalize_min_max.
  destruct data as [|v data]; [done|].
  destruct (Numeric.numeric_filter (v :: data)); done.
Qed.

End NormalizeFacts.

(** C5 (amended): let the numeric elements of S be canonical floats
    and integers below [2 ^ 1022] in magnitude, and let the range
    [max - min], as the code computes it, be finite and not zero.  Then
    [normalize_min_max(S, 0, 1)], with the bounds given as integers or
    as floats, returns one number per numeric element: each element x
    is mapped to the value of
    [new_min + ((x - min) * (new_max - new_min)) / range] in Python
    arithmetic, the element [min] selects is mapped to 0.0 and the
    element [max] selects to 1.0. *)
Theorem normalize_min_max_unit
    (data : list value) (new_min new_max min_val max_val range_val : num) :
  unit_bounds new_min new_max ->
  forallb Numeric.in_range (Numeric.numeric_filter data) = true ->
  Numeric.value_range data = Ok (min_val, max_val, range_val) ->
  Num.is_finite range_val = true ->
  Num.eqb range_val (NInt 0) = false ->
  exists res,
    Numeric.normalize_min_max data new_min new_max = Ok res /\
    Forall2 (fun x y => Numeric.rescale new_min new_max min_val range_val x = Ok y)
            (Numeric.numeric_filter data) res /\
    (forall i, Numeric.numeric_filter data !! i = Some min_val ->
               res !! i = Some (NFloat fzero)) /\
    (forall i, Numeric.numeric_filter data !! i = Some max_val ->
               res !! i = Some (NFloat fone)).
Proof.
  intros Hb Hin Hvr Hfr Hnz.
  unfold Numeric.value_range in Hvr.
  destruct (Numeric.numeric_filter data) as [|x0 items] eqn:Enum; [done|].
  rewrite normalize_min_max_unfold by (by rewrite Enum). rewrite Enum.
  cbn zeta. simpl Num.min in *. simpl Num.max in *. cbn [bind] in *.
  destruct (Num.sub (Num.max_loop items x0) (Num.min_loop items x0))
    as [r|] eqn:Hsub; [|done].
  cbn [bind] in *. injection Hvr as <- <- <-. rewrite Hnz.
  rewrite forallb_forall in Hin.
  assert (Numeric.in_range (Num.min_loop items x0) = true) as Hmn
    by apply Hin, min_loop_in.
  assert (Numeric.in_range (Num.max_loop items x0) = true) as Hmx
    by apply Hin, max_loop_in.
  destruct (sub_ok _ _ Hmx Hmn) as (r' & Hr' & _ & Br & _).
  rewrite Hsub in Hr'. injection Hr' as <-.
  pose proof (sub_finite_r _ _ _ Hsub Hfr) as Hfmn.
  destruct (comprehension_ok
              (Numeric.rescale new_min new_max (Num.min_loop items x0) r)
              (x0 :: items)) as (res & -> & HF).
  { intros x Hx. destruct (rescale_total new_min new_max (Num.min_loop items x0) r x)
      as (f & Hf); eauto. }
  exists res. split; [done|]. split; [done|]. split.
  - intros i Hi. destruct (Forall2_lookup_l _ _ _ _ _ HF Hi) as (y & Hy & Hxy).
    rewrite rescale_min in Hxy by done. congruence.
  - intros i Hi. destruct (Forall2_lookup_l _ _ _ _ _ HF Hi) as (y & Hy & Hxy).
    rewrite (rescale_max _ _ _ _ _ Hb Hmx Hmn Hsub Hfr Hnz) in Hxy. congruence.
Qed.

Lemma normalize_min_max_unit_witness :
  unit_bounds (NFloat fzero) (NFloat fone) /\
  forallb Numeric.in_range (Numeric.numeric_filter sample_numeric) = true /\
  Numeric.value_range sample_numeric = Ok (NInt 10, NInt 50, NInt 40) /\
  Num.is_finite (NInt 40) = true /\
  Num.eqb (NInt 40) (NInt 0) = false /\
  exists res,
    Numeric.normalize_min_max sample_numeric (NFloat fzero) (NFloat fone) = Ok res /\
    Forall2 (fun x y =>
               Numeric.rescale (NFloat fzero) (NFloat fone) (NInt 10) (NInt 40) x =
               Ok y)
            (Numeric.numeric_filter sample_numeric) res /\
    (forall i, Numeric.numeric_filter sample_numeric !! i = Some (NInt 10) ->
               res !! i = Some (NFloat fzero)) /\
    (forall i, Numeric.numeric_filter sample_numeric !! i = Some (NInt 50) ->
               res !! i = Some (NFloat fone)).
Proof.
  assert (unit_bounds (NFloat fzero) (NFloat fone)) as Hb
    by (split; right; reflexivity).
  split; [exact Hb|]. repeat (split; [reflexivity|]).
  exact (normalize_min_max_unit sample_numeric (NFloat fzero) (NFloat fone)
           (NInt 10) (NInt 50) (NInt 40) Hb eq_refl eq_refl eq_refl eq_refl).
Defined.

(** The scenario of the specification: 0.0, 0.25, 0.5, 0.75, 1.0. *)
Example normalize_min_max_sample :
  Numeric.normalize_min_max sample_numeric (NFloat fzero) (NFloat fone) =
  Ok [NFloat fzero;
      NFloat (S754_finite false 4503599627370496 (-54));
      NFloat (S754_finite false 4503599627370496 (-53));
      NFloat (S754_finite false 6755399441055744 (-53));
      NFloat fone].
Proof. reflexivity. Qed.

(** The same with the bounds given as integers, and the case of equal
    elements. *)
Example normalize_min_max_int_bounds :
  Numeric.normalize_min_max sample_numeric (NInt 0) (NInt 1) =
  Numeric.normalize_min_max sample_numeric (NFloat fzero) (NFloat fone) /\
  Numeric.normalize_min_max [VInt 5; VInt 5; VInt 5] (NFloat fzero) (NFloat fone) =
  Ok [NFloat fzero; NFloat fzero; NFloat fzero].
Proof. split; reflexivity. Qed.

(** C5, as stated, fails: the elements of [[-max_float, max_float]]
    are not all equal, their range overflows to infinity, and the
    maximum is mapped to [inf / inf], not-a-number, instead of 1.0. *)
Lemma normalize_min_max_overflow_counterexample :
  ~ (forall data min_val max_val range_val res,
       Numeric.value_range data = Ok (min_val, max_val, range_val) ->
       Num.eqb max_val min_val = false ->
       Numeric.normalize_min_max data (NInt 0) (NInt 1) = Ok res ->
       forall i, Numeric.numeric_filter data !! i = Some max_val ->
                 res !! i = Some (NFloat fone)).
Proof.
  intros H.
  specialize (H [VFloat (SFopp fmax); VFloat fmax]
                (NFloat (SFopp fmax)) (NFloat fmax) (NFloat (S754_infinity false))
                [NFloat fzero; NFloat S754_nan]
                eq_refl eq_refl eq_refl 1%nat eq_refl).
  discriminate H.
Qed.

(** ** Clipping *)

Lemma clip_loop_spec data min_val max_val : forall clipped_data,
  Numeric.clip_loop data min_val max_val clipped_data =
  clipped_data ++
  List.map (Numeric.clip_one min_val max_val) (Numeric.numeric_filter data).
Proof.
  induction data as [|item rest IH]; intros acc; simpl.
  - by rewrite app_nil_r.
  - destruct item as [|x|s|l]; simpl; try apply IH.
    unfold Numeric.clip_one at 1.
    destruct (Num.ltb x min_val); [|destruct (Num.gtb x max_val)];
      rewrite IH; by rewrite <- app_assoc.
Qed.

Lemma clip_one_within min_val max_val x :
  Num.leb min_val max_val = true ->
  Num.is_nan x = false ->
  Numeric.within min_val max_val (Numeric.clip_one min_val max_val x) = true.
Proof.
  intros Hle Hx. destruct (leb_not_nan _ _ Hle) as [Hlo Hhi].
  unfold Numeric.clip_one, Numeric.within.
  destruct (Num.ltb x min_val) eqn:E1.
  - by rewrite leb_refl, Hle.
  - destruct (Num.gtb x max_val) eqn:E2.
    + by rewrite Hle, leb_refl.
    + by rewrite (not_ltb_leb x min_val), (not_gtb_leb x max_val).
Qed.

Lemma clip_one_nan min_val max_val x :
  Num.is_nan x = true -> Numeric.clip_one min_val max_val x = x.
Proof.
  intros H. unfold Numeric.clip_one, Num.ltb, Num.gtb.
  by rewrite !compare_nan_l.
Qed.

Lemma clip_one_is_nan min_val max_val x :
  Num.leb min_val max_val = true ->
  Num.is_nan (Numeric.clip_one min_val max_val x) = Num.is_nan x.
Proof.
  intros Hle. destruct (leb_not_nan _ _ Hle) as [Hlo Hhi].
  unfold Numeric.clip_one.
  destruct (Num.ltb x min_val) eqn:E1; [|destruct (Num.gtb x max_val) eqn:E2];
    try done.
  - unfold Num.ltb in E1. destruct (Num.compare x min_val) eqn:E; [|done].
    apply compare_some_not_nan in E as [-> _]. done.
  - unfold Num.gtb in E2. destruct (Num.compare x max_val) eqn:E; [|done].
    apply compare_some_not_nan in E as [-> _]. done.
Qed.

Example clip_values_sample :
  Numeric.clip_values sample_clip (NInt 10) (NInt 20) =
  Ok [NInt 10; NInt 10; NInt 15; NInt 20; NInt 20].
Proof. reflexivity. Qed.

(** C3, as stated, fails: a not-a-number element is numeric, is neither
    below [min_val] nor above [max_val], and is returned as it is; it
    does not lie within the bounds. *)
Lemma clip_values_nan_counterexample :
  ~ (forall data min_val max_val res x,
       Num.leb min_val max_val = true ->
       Numeric.clip_values data min_val max_val = Ok res ->
       In x res ->
       Numeric.within min_val max_val x = true).
Proof.
  intros H.
  specialize (H [VFloat S754_nan] (NInt 0) (NInt 1) [NFloat S754_nan]
                (NFloat S754_nan) eq_refl eq_refl (or_introl eq_refl)).
  discriminate H.
Qed.

(** C3 (amended): [clip_values(data, min_val, max_val)] raises, and
    then a [ValueError], if and only if [min_val > max_val].  Otherwise
    it returns the numeric elements of [data], in order, each clipped:
    a value below [min_val] becomes [min_val], a value above [max_val]
    becomes [max_val], any other value is unchanged; non-numeric
    elements are dropped.  When [min_val <= max_val], every clipped
    element that is not not-a-number lies within
    [[min_val, max_val]]; a not-a-number element is returned as it
    is. *)
Theorem clip_values_spec (data : list value) (min_val max_val : num) :
  ((exists e, Numeric.clip_values data min_val max_val = Raise e) <->
   Num.gtb min_val max_val = true) /\
  (Num.gtb min_val max_val = true ->
   Numeric.clip_values data min_val max_val = Raise ValueError) /\
  (Num.gtb min_val max_val = false ->
   Numeric.clip_values data min_val max_val =
   Ok (List.map (Numeric.clip_one min_val max_val) (Numeric.numeric_filter data))) /\
  (Num.leb min_val max_val = true ->
   forall x, In x (Numeric.numeric_filter data) ->
     if Num.is_nan x
     then Numeric.clip_one min_val max_val x = x
     else Numeric.within min_val max_val (Numeric.clip_one min_val max_val x) = true).
Proof.
  unfold Numeric.clip_values.
  destruct (Num.gtb min_val max_val) eqn:G; repeat split; try done.
  - eauto.
  - intros Hle. unfold Num.leb in Hle. unfold Num.gtb in G.
    by destruct (Num.compare min_val max_val) as [[]|].
  - intros [e He]. discriminate He.
  - intros _. by rewrite clip_loop_spec.
  - intros Hle x _. destruct (Num.is_nan x) eqn:Hx.
    + by apply clip_one_nan.
    + by apply clip_one_within.
Qed.

Lemma clip_values_spec_witness :
  Num.gtb (NInt 10) (NInt 20) = false /\
  Num.leb (NInt 10) (NInt 20) = true /\
  Numeric.clip_values sample_clip (NInt 10) (NInt 20) =
  Ok (List.map (Numeric.clip_one (NInt 10) (NInt 20))
        (Numeric.numeric_filter sample_clip)) /\
  Numeric.within (NInt 10) (NInt 20)
    (Numeric.clip_one (NInt 10) (NInt 20) (NInt 25)) = true /\
  Numeric.clip_values sample_clip (NInt 20) (NInt 10) = Raise ValueError.
Proof.
  pose proof (clip_values_spec sample_clip (NInt 10) (NInt 20)) as (_ & _ & H1 & H2).
  pose proof (clip_values_spec sample_clip (NInt 20) (NInt 10)) as (_ & H3 & _).
  split; [reflexivity|]. split; [reflexivity|].
  split; [apply H1; reflexivity|].
  split; [|apply H3; reflexivity].
  apply (H2 eq_refl (NInt 25)). simpl. tauto.
Defined.

(** ** Conversion to integers *)

Lemma float_of_str_raises db s e :
  Str.float_of_str db s = Raise e -> e = ValueError.
Proof.
  unfold Str.float_of_str.
  destruct (Str.remove_underscores _) as [t|]; [|congruence].
  destruct (Str.parse_sign _) as [sg body].
  destruct (Str.parse_decimal body) as [[m e']|]; [congruence|].
  destruct (Str.parse_inf_or_nan body); congruence.
Qed.

Lemma convert_loop_strings db data : forall int_values,
  forallb is_str data = true ->
  Convert.convert_loop db data int_values =
  if existsb (Convert.reads_as_infinity db) data then Raise OverflowError
  else Ok (int_values ++ omap (Convert.converted db) data).
Proof.
  induction data as [|item rest IH]; intros acc H; simpl.
  - by rewrite app_nil_r.
  - apply andb_prop in H as [Hi Hr]. destruct item as [|n|s|l]; try done.
    unfold Convert.reads_as_infinity, Convert.converted. simpl.
    destruct (Str.float_of_str db s) as [f|e] eqn:E; simpl.
    + destruct f as [sg|sg| |sg m ex]; simpl; try done; rewrite IH by done;
        destruct (existsb _ rest); try done; by rewrite <- app_assoc.
    + apply float_of_str_raises in E as ->. by apply IH.
Qed.

(** C2: the scenario holds, but [convert_to_integers] can raise: the
    string ["inf"] is read by [float] as an infinity, [int] of an
    infinity raises an [OverflowError], and the loop catches only
    [ValueError] and [TypeError].  On every list of strings the result
    is that [OverflowError] when some string reads as an infinity, and
    otherwise the integers, truncated toward zero, of the strings that
    can be interpreted, the others being left out. *)
Theorem convert_to_integers_strings (db : unicode_db) :
  Convert.convert_to_integers db [VStr (str "inf")] = Raise OverflowError /\
  Convert.convert_to_integers db sample_strings = Ok [10; 20] /\
  (forall data,
     forallb is_str data = true ->
     Convert.convert_to_integers db data =
     if existsb (Convert.reads_as_infinity db) data then Raise OverflowError
     else Ok (omap (Convert.converted db) data)).
Proof.
  split; [reflexivity|]. split; [reflexivity|].
  intros data H. unfold Convert.convert_to_integers.
  by rewrite convert_loop_strings.
Qed.

Lemma convert_to_integers_strings_witness :
  forallb is_str [VStr (str "1e999"); VStr (str "7")] = true /\
  Convert.convert_to_integers ascii_db [VStr (str "1e999"); VStr (str "7")] =
  if existsb (Convert.reads_as_infinity ascii_db)
       [VStr (str "1e999"); VStr (str "7")]
  then Raise OverflowError
  else Ok (omap (Convert.converted ascii_db) [VStr (str "1e999"); VStr (str "7")]).
Proof.
  split; [reflexivity|].
  apply (proj2 (proj2 (convert_to_integers_strings ascii_db))). reflexivity.
Defined.

(** ** Tokenization *)

Section TextFacts.

Import Text.
Variable db : unicode_db.

Lemma count_word_le s : (count_word db s <= length s)%nat.
Proof. induction s as [|c r IH]; simpl; [lia|]. destruct (Str.is_word db c); simpl; lia. Qed.

Lemma drop_count_word_head s :
  match drop (count_word db s) s with
  | c :: _ => Str.is_word db c = false
  | [] => True
  end.
Proof.
  induction s as [|c r IH]; simpl; [done|].
  destruct (Str.is_word db c) eqn:E; simpl; [done|]. done.
Qed.

Lemma count_word_drop s : count_word db (drop (count_word db s) s) = 0%nat.
Proof.
  pose proof (drop_count_word_head s) as H.
  destruct (drop (count_word db s) s) as [|c r]; simpl; [done|]. by rewrite H.
Qed.

Lemma take_count_word_all s :
  forallb (Str.is_word db) (take (count_word db s) s) = true.
Proof.
  induction s as [|c r IH]; simpl; [done|].
  destruct (Str.is_word db c) eqn:E; simpl; [|done]. by rewrite E.
Qed.

Lemma last_take_count_word s :
  count_word db s <> 0%nat ->
  exists c, last (take (count_word db s) s) = Some c /\ Str.is_word db c = true.
Proof.
  intros Hn. pose proof (take_count_word_all s) as Hall.
  assert (length (take (count_word db s) s) <> 0%nat) as Hl.
  { rewrite length_take. pose proof (count_word_le s). lia. }
  destruct (last (take (count_word db s) s)) as [c|] eqn:E.
  - exists c. split; [done|]. rewrite forallb_forall in Hall. apply Hall.
    apply list_elem_of_In. apply last_Some_elem_of in E. done.
  - apply last_None in E. rewrite E in Hl. done.
Qed.

Lemma at_boundary_drop_count s :
  at_boundary db true (drop (count_word db s) s) = true.
Proof.
  unfold at_boundary. pose proof (drop_count_word_head s) as H.
  destruct (drop (count_word db s) s); [done|]. by rewrite H.
Qed.

Lemma match_tail_count s :
  match_tail db s (count_word db s) =
  match count_word db s with 0%nat => None | n => Some n end.
Proof.
  destruct (count_word db s) eqn:E; simpl; [done|].
  rewrite <- E, at_boundary_drop_count. done.
Qed.

Lemma maximal_runs_split s : forall run,
  maximal_runs db s run =
  opt_run (run ++ take (count_word db s) s) ++
  maximal_runs db (drop (count_word db s) s) [].
Proof.
  induction s as [|c r IH]; intros run; simpl.
  - rewrite !app_nil_r. by destruct run.
  - destruct (Str.is_word db c) eqn:E; simpl.
    + rewrite IH. by rewrite <- app_assoc.
    + rewrite ?E, !app_nil_r. destruct run; simpl; by rewrite ?E.
Qed.

Lemma findall_from_spec fuel : forall before s,
  (length s < fuel)%nat ->
  findall_from db fuel before s =
  if before then maximal_runs db (drop (count_word db s) s) []
  else maximal_runs db s [].
Proof.
  induction fuel as [|fuel IH]; intros before s Hf; [lia|].
  cbn [findall_from]. unfold match_here. rewrite match_tail_count.
  destruct s as [|c rest].
  - destruct before; reflexivity.
  - pose proof (last_take_count_word (c :: rest)) as Hlast.
    pose proof (maximal_runs_split (c :: rest) []) as Hsplit.
    pose proof (count_word_drop (c :: rest)) as Hcd.
    unfold at_boundary. cbn [count_word] in *. simpl in Hf.
    destruct (Str.is_word db c) eqn:E; destruct before; cbn [xorb].
    + rewrite IH by lia. done.
    + destruct Hlast as (c' & -> & ->); [done|]. rewrite IH.
      * rewrite Hcd. rewrite Hsplit. simpl. done.
      * simpl. rewrite length_drop. lia.
    + rewrite IH by lia. simpl. by rewrite E.
    + rewrite IH by lia. simpl. by rewrite E.
Qed.

Lemma findall_words_spec s : findall_words db s = maximal_runs db s [].
Proof. unfold findall_words. by rewrite findall_from_spec by lia. Qed.

(** Every run is a non-empty sequence of word characters. *)
Lemma maximal_runs_word s : forall run,
  forallb (Str.is_word db) run = true ->
  Forall (fun r => r <> [] /\ forallb (Str.is_word db) r = true)
         (maximal_runs db s run).
Proof.
  induction s as [|c r IH]; intros run Hrun; simpl.
  - destruct run; [constructor|]. constructor; [done|constructor].
  - destruct (Str.is_word db c) eqn:E.
    + apply IH. rewrite forallb_app, Hrun. simpl. by rewrite E.
    + destruct run; [by apply IH|]. constructor; [done|by apply IH].
Qed.

End TextFacts.

(** The scenario of the specification, whatever the Unicode tables. *)
Example tokenize_text_sample db :
  Text.tokenize_text db (VStr (str "Hola, mundo! 1 prueba.")) =
  str "hola mundo 1 prueba".
Proof. reflexivity. Qed.

Example tokenize_text_spaces db :
  Text.tokenize_text db (VStr (str "  Hello,   big_world!! 123.  ")) =
  str "hello big_world 123".
Proof. reflexivity. Qed.

(** C7: [tokenize_text] returns the empty string for every input that
    is not a string.  For a string it lower-cases the text, and what
    [re.findall] extracts with the pattern [\b\w+\b] are exactly the
    maximal runs of word characters (alphanumeric or underscore) of the
    lower-cased text, every one a non-empty sequence of word
    characters; they are joined with single spaces, so punctuation and
    white space around them are discarded. *)
Theorem tokenize_text_spec (db : unicode_db) :
  Text.tokenize_text db VNone = [] /\
  (forall n, Text.tokenize_text db (VNum n) = []) /\
  (forall l, Text.tokenize_text db (VList l) = []) /\
  (forall s,
     Text.tokenize_text db (VStr s) = Text.tokenize_spec db s /\
     Text.findall_words db (Str.lower db s) =
       Text.maximal_runs db (Str.lower db s) [] /\
     Forall (fun r => r <> [] /\ forallb (Str.is_word db) r = true)
            (Text.findall_words db (Str.lower db s))) /\
  Text.tokenize_text db (VStr (str "Hola, mundo! 1 prueba.")) =
    str "hola mundo 1 prueba".
Proof.
  repeat split; try reflexivity.
  - unfold Text.tokenize_text, Text.tokenize_spec. by rewrite findall_words_spec.
  - apply findall_words_spec.
  - rewrite findall_words_spec. by apply maximal_runs_word.
Qed.

(** ** Structure *)

Lemma flatten_loop_spec data : forall flattened,
  Struct.flatten_loop data flattened =
  flattened ++ List.concat (List.map Struct.splice data).
Proof.
  induction data as [|item rest IH]; intros acc; simpl.
  - by rewrite app_nil_r.
  - destruct item; simpl; rewrite IH; by rewrite <- app_assoc.
Qed.

Lemma concat_splice_flat data :
  Struct.is_flat data = true ->
  List.concat (List.map Struct.splice data) = data.
Proof.
  induction data as [|item rest IH]; [reflexivity|].
  simpl. intros H. apply andb_prop in H as [Hi Hr].
  rewrite IH by done. by destruct item.
Qed.

(** The scenario of the specification, and a mixed input: only one
    level is spliced. *)
Example flatten_sample :
  Struct.flatten_list [VList [VInt 1; VInt 2]; VList [VInt 3; VInt 4]] =
  [VInt 1; VInt 2; VInt 3; VInt 4].
Proof. reflexivity. Qed.

Example flatten_one_level :
  Struct.flatten_list [VInt 1; VList [VInt 2; VList [VInt 3]]; VStr (str "ab")] =
  [VInt 1; VInt 2; VList [VInt 3]; VStr (str "ab")].
Proof. reflexivity. Qed.

(** C8: [flatten_list] splices exactly one level of nesting: the
    result is the concatenation, in order, of the elements of every
    top-level element that is a list and of every other element as it
    is; on an already flat sequence it returns the sequence
    unchanged. *)
Theorem flatten_list_splices (data : list value) :
  Struct.flatten_list data = List.concat (List.map Struct.splice data) /\
  (Struct.is_flat data = true -> Struct.flatten_list data = data).
Proof.
  unfold Struct.flatten_list. rewrite flatten_loop_spec. simpl.
  split; [reflexivity|]. apply concat_splice_flat.
Qed.

Lemma flatten_list_splices_witness :
  Struct.is_flat [VInt 1; VNone; VStr (str "a")] = true /\
  Struct.flatten_list [VInt 1; VNone; VStr (str "a")] =
  [VInt 1; VNone; VStr (str "a")].
Proof.
  split; [reflexivity|].
  apply (proj2 (flatten_list_splices [VInt 1; VNone; VStr (str "a")])).
  reflexivity.
Defined.

(** ** Shuffling *)

Section ShuffleFacts.

Variable rng : Type.
Variable seed_state : Z -> rng.
Variable randbelow : rng -> nat -> nat * rng.

(** [_randbelow(n)] draws a number below [n]. *)
Hypothesis randbelow_lt :
  forall g n, (0 < n)%nat -> (fst (randbelow g n) < n)%nat.

Lemma swap_in_range (x : list value) i j :
  (i < length x)%nat -> (j < length x)%nat ->
  exists x', swap x i j = Some x' /\ x' ≡ₚ x /\ length x' = length x.
Proof.
  intros Hi Hj. unfold swap.
  destruct (lookup_lt_is_Some_2 x i Hi) as [xi Hxi].
  destruct (lookup_lt_is_Some_2 x j Hj) as [xj Hxj].
  rewrite Hxi, Hxj. eexists. split; [reflexivity|]. split.
  - by apply Permutation_insert_swap.
  - by rewrite !length_insert.
Qed.

Lemma shuffle_loop_permutes n : forall (x : list value) g,
  (n <= length x)%nat ->
  exists x', fst (shuffle_loop rng randbelow n x g) = Some x' /\ x' ≡ₚ x.
Proof.
  induction n as [|i IH]; intros x g Hn; simpl.
  - by exists x.
  - destruct i as [|i']; [by exists x|].
    pose proof (randbelow_lt g (S (S i')) ltac:(lia)) as Hj.
    destruct (randbelow g (S (S i'))) as [j g'] eqn:E. simpl in Hj.
    destruct (swap_in_range x (S i') j) as (x' & -> & Hp & Hl); [lia|lia|].
    destruct (IH x' g') as (x'' & Hx'' & Hp''); [lia|].
    exists x''. split; [done|]. by rewrite Hp''.
Qed.

Lemma shuffle_list_seeded g data seed :
  shuffle_list rng seed_state randbelow g data (Some seed) =
  random_shuffle rng randbelow data (seed_state seed).
Proof. reflexivity. Qed.

End ShuffleFacts.

Lemma lcg_randbelow_lt g n : (0 < n)%nat -> (fst (lcg_randbelow g n) < n)%nat.
Proof.
  intros Hn. unfold lcg_randbelow. simpl.
  pose proof (Z.mod_pos_bound g (Z.of_nat n) ltac:(lia)). lia.
Qed.

(** With the sample generator: one seed, one order, whatever the
    generator's state was before; another seed, another order. *)
Example shuffle_list_sample :
  fst (shuffle_list Z lcg_seed lcg_randbelow 0 sample_shuffle (Some 42)) =
  fst (shuffle_list Z lcg_seed lcg_randbelow 123456 sample_shuffle (Some 42)) /\
  fst (shuffle_list Z lcg_seed lcg_randbelow 0 sample_shuffle (Some 42)) <>
  fst (shuffle_list Z lcg_seed lcg_randbelow 0 sample_shuffle (Some 101)).
Proof. split; [reflexivity|]. vm_compute. discriminate. Qed.

(** C6: [shuffle_list] with a seed is deterministic: whatever state
    the module's generator is in before the two calls, the same seed
    and the same input give the same output; the call returns, and its
    result is a permutation of the input.  The generator is any
    implementation of the [random] module's interface whose
    [_randbelow(n)] draws below [n]. *)
Theorem shuffle_list_seeded_deterministic
    (rng : Type) (seed_state : Z -> rng) (randbelow : rng -> nat -> nat * rng) :
  (forall g n, (0 < n)%nat -> (fst (randbelow g n) < n)%nat) ->
  forall (data : list value) (seed : Z) (g1 g2 : rng),
    fst (shuffle_list rng seed_state randbelow g1 data (Some seed)) =
    fst (shuffle_list rng seed_state randbelow g2 data (Some seed)) /\
    exists shuffled,
      fst (shuffle_list rng seed_state randbelow g1 data (Some seed)) = Some shuffled /\
      shuffled ≡ₚ data.
Proof.
  intros Hlt data seed g1 g2. split; [reflexivity|].
  rewrite shuffle_list_seeded. unfold random_shuffle.
  by apply shuffle_loop_permutes.
Qed.

Lemma shuffle_list_seeded_deterministic_witness :
  (forall g n, (0 < n)%nat -> (fst (lcg_randbelow g n) < n)%nat) /\
  fst (shuffle_list Z lcg_seed lcg_randbelow 0 sample_shuffle (Some 42)) =
  fst (shuffle_list Z lcg_seed lcg_randbelow 123456 sample_shuffle (Some 42)) /\
  exists shuffled,
    fst (shuffle_list Z lcg_seed lcg_randbelow 0 sample_shuffle (Some 42)) =
    Some shuffled /\
    shuffled ≡ₚ sample_shuffle.
Proof.
  split; [exact lcg_randbelow_lt|].
  exact (shuffle_list_seeded_deterministic Z lcg_seed lcg_randbelow
           lcg_randbelow_lt sample_shuffle 42 0 123456).
Defined.

(** * Further properties

    Properties of the functions above that the scenarios do not state,
    and of the functions of the library and of the command line that
    they do not reach. *)

(** ** Further properties of the numeric functions *)

Section NumericMore.

Import Numeric.

Lemma compare_irrefl a c : Num.compare a a = Some c -> c = Eq.
Proof.
  intros H. pose proof (compare_antisym a a) as E. rewrite H in E.
  destruct c; simpl in E; congruence.
Qed.

Lemma ltb_irrefl a : Num.ltb a a = false.
Proof.
  unfold Num.ltb. destruct (Num.compare a a) as [c|] eqn:E; [|done].
  by rewrite (compare_irrefl a c E).
Qed.

Lemma gtb_irrefl a : Num.gtb a a = false.
Proof.
  unfold Num.gtb. destruct (Num.compare a a) as [c|] eqn:E; [|done].
  by rewrite (compare_irrefl a c E).
Qed.

Lemma ltb_gtb a b : Num.ltb a b = Num.gtb b a.
Proof.
  unfold Num.ltb, Num.gtb. rewrite (compare_antisym a b).
  by destruct (Num.compare a b) as [[]|].
Qed.

Lemma clip_one_idempotent min_val max_val x :
  Num.gtb min_val max_val = false ->
  clip_one min_val max_val (clip_one min_val max_val x) = clip_one min_val max_val x.
Proof.
  intros G. unfold clip_one.
  destruct (Num.ltb x min_val) eqn:E1.
  - by rewrite ltb_irrefl, G.
  - destruct (Num.gtb x max_val) eqn:E2.
    + by rewrite ltb_gtb, G, gtb_irrefl.
    + by rewrite E1, E2.
Qed.

Lemma numeric_filter_values l : numeric_filter (values l) = l.
Proof. induction l as [|x r IH]; simpl; by rewrite ?IH. Qed.

Lemma log_loop_spec math_log data : forall acc,
  log_loop math_log data acc =
  let! ys := comprehension math_log (List.filter positive (numeric_filter data)) in
  Ok (acc ++ ys).
Proof.
  induction data as [|item rest IH]; intros acc; simpl.
  - by rewrite app_nil_r.
  - destruct item as [|x|s|l]; simpl; try apply IH.
    destruct (positive x); simpl; [|apply IH].
    destruct (math_log x) as [y|e]; simpl; [|done].
    rewrite IH. destruct (comprehension _ _); simpl; [|done].
    by rewrite <- app_assoc.
Qed.

End NumericMore.

(** X1: [logarithmic_transform] calls [math.log] on exactly the numeric
    elements that are greater than zero, in their order, and returns
    the list of its values; an exception of [math.log] is the only one
    it can raise.  Zero of either sign, [False], negative numbers and
    not-a-number are not greater than zero and are skipped with the
    non-numeric elements; [True] is taken. *)
Theorem logarithmic_transform_positive_only
    (math_log : num -> result pyfloat) (data : list value) :
  Numeric.logarithmic_transform math_log data =
    comprehension math_log
      (List.filter Numeric.positive (Numeric.numeric_filter data)) /\
  Numeric.positive (NFloat S754_nan) = false /\
  (forall s, Numeric.positive (NFloat (S754_zero s)) = false) /\
  (forall s, Numeric.positive (NFloat (S754_infinity s)) = negb s) /\
  (forall s m e, Numeric.positive (NFloat (S754_finite s m e)) = negb s) /\
  (forall z, Numeric.positive (NInt z) = (0 <? z)) /\
  (forall b, Numeric.positive (NBool b) = b).
Proof.
  split.
  - unfold Numeric.logarithmic_transform. rewrite log_loop_spec.
    by destruct (comprehension _ _).
  - repeat split; try done.
    + by intros [].
    + intros s m e. unfold Numeric.positive, Num.gtb. simpl.
      destruct (0 <=? e) eqn:E; [|by destruct s].
      apply Z.leb_le in E.
      assert (0 < Z.pos m * 2 ^ e) by (apply Z.mul_pos_pos; lia).
      destruct s; simpl.
      * change (Z.neg m) with (- Z.pos m).
        destruct (Z.compare_spec (- Z.pos m * 2 ^ e) 0); try done. lia.
      * destruct (Z.compare_spec (Z.pos m * 2 ^ e) 0); try done; lia.
    + intros z. unfold Numeric.positive, Num.gtb. simpl.
      rewrite Z.ltb_compare, (Z.compare_antisym z 0). by destruct (z ?= 0).
    + by intros [].
Qed.

(** X2: clipping is idempotent: clipping the result of [clip_values]
    again, with the same bounds, returns it unchanged. *)
Theorem clip_values_idempotent (data : list value) (min_val max_val : num)
    (res : list num) :
  Numeric.clip_values data min_val max_val = Ok res ->
  Numeric.clip_values (Numeric.values res) min_val max_val = Ok res.
Proof.
  unfold Numeric.clip_values.
  destruct (Num.gtb min_val max_val) eqn:G; [done|].
  intros [= <-]. f_equal. rewrite !clip_loop_spec. simpl.
  rewrite numeric_filter_values, List.map_map.
  apply List.map_ext. intros x. by apply clip_one_idempotent.
Qed.

Lemma clip_values_idempotent_witness :
  Numeric.clip_values sample_clip (NInt 10) (NInt 20) =
    Ok [NInt 10; NInt 10; NInt 15; NInt 20; NInt 20] /\
  Numeric.clip_values
    (Numeric.values [NInt 10; NInt 10; NInt 15; NInt 20; NInt 20])
    (NInt 10) (NInt 20) =
    Ok [NInt 10; NInt 10; NInt 15; NInt 20; NInt 20].
Proof.
  split; [reflexivity|].
  apply (clip_values_idempotent sample_clip (NInt 10) (NInt 20)). reflexivity.
Defined.

Section RangeFacts.

Lemma min_loop_equal items x0 :
  Forall (fun x => Num.eqb x x0 = true) items -> Num.min_loop items x0 = x0.
Proof.
  induction 1 as [|x r Hx _ IH]; simpl; [done|].
  unfold Num.eqb in Hx. unfold Num.ltb.
  destruct (Num.compare x x0) as [[]|]; try done.
Qed.

Lemma max_loop_equal items x0 :
  Forall (fun x => Num.eqb x x0 = true) items -> Num.max_loop items x0 = x0.
Proof.
  induction 1 as [|x r Hx _ IH]; simpl; [done|].
  unfold Num.eqb in Hx. unfold Num.gtb.
  destruct (Num.compare x x0) as [[]|]; try done.
Qed.

Lemma sub_self_zero x :
  Num.is_finite x = true ->
  exists r, Num.sub x x = Ok r /\ Num.eqb r (NInt 0) = true.
Proof.
  destruct x as [b|z|f]; simpl; intros Hf.
  - exists (NInt 0). unfold Num.sub. simpl. by rewrite Z.sub_diag.
  - exists (NInt 0). unfold Num.sub. simpl. by rewrite Z.sub_diag.
  - exists (NFloat fzero). unfold Num.sub. simpl. by rewrite SF64sub_self.
Qed.

Lemma is_integer_int_of n : Numeric.is_integer n = true -> exists z, Num.int_of n = Some z.
Proof. destruct n; simpl; try done; eauto. Qed.

Lemma compare_integers a b x y :
  Num.int_of a = Some x -> Num.int_of b = Some y ->
  Num.compare a b = Some (x ?= y).
Proof. destruct a, b; simpl; try done; by intros [= ->] [= ->]. Qed.

Lemma min_loop_least items : forall x zx,
  forallb Numeric.is_integer items = true -> Num.int_of x = Some zx ->
  exists z, Num.int_of (Num.min_loop items x) = Some z /\ z <= zx /\
    forall y zy, In y items -> Num.int_of y = Some zy -> z <= zy.
Proof.
  induction items as [|y r IH]; intros x zx Hall Hx; simpl.
  - exists zx. split; [done|]. split; [lia|]. intros ? ? [].
  - simpl in Hall. apply andb_prop in Hall as [Hy Hr].
    destruct (is_integer_int_of y Hy) as (zy & Ey).
    unfold Num.ltb. rewrite (compare_integers y x zy zx) by done.
    destruct (Z.compare_spec zy zx) as [E|E|E].
    + destruct (IH x zx Hr Hx) as (z & Hz & Hle & Hmin).
      exists z. split; [done|]. split; [done|].
      intros y' zy' [<-|Hin] Hy'; [|by eapply Hmin].
      rewrite Ey in Hy'. injection Hy' as <-. lia.
    + destruct (IH y zy Hr Ey) as (z & Hz & Hle & Hmin).
      exists z. split; [done|]. split; [lia|].
      intros y' zy' [<-|Hin] Hy'; [|by eapply Hmin].
      rewrite Ey in Hy'. injection Hy' as <-. lia.
    + destruct (IH x zx Hr Hx) as (z & Hz & Hle & Hmin).
      exists z. split; [done|]. split; [done|].
      intros y' zy' [<-|Hin] Hy'; [|by eapply Hmin].
      rewrite Ey in Hy'. injection Hy' as <-. lia.
Qed.

Lemma max_loop_greatest items : forall x zx,
  forallb Numeric.is_integer items = true -> Num.int_of x = Some zx ->
  exists z, Num.int_of (Num.max_loop items x) = Some z /\ zx <= z /\
    forall y zy, In y items -> Num.int_of y = Some zy -> zy <= z.
Proof.
  induction items as [|y r IH]; intros x zx Hall Hx; simpl.
  - exists zx. split; [done|]. split; [lia|]. intros ? ? [].
  - simpl in Hall. apply andb_prop in Hall as [Hy Hr].
    destruct (is_integer_int_of y Hy) as (zy & Ey).
    unfold Num.gtb. rewrite (compare_integers y x zy zx) by done.
    destruct (Z.compare_spec zy zx) as [E|E|E].
    + destruct (IH x zx Hr Hx) as (z & Hz & Hle & Hmax).
      exists z. split; [done|]. split; [done|].
      intros y' zy' [<-|Hin] Hy'; [|by eapply Hmax].
      rewrite Ey in Hy'. injection Hy' as <-. lia.
    + destruct (IH x zx Hr Hx) as (z & Hz & Hle & Hmax).
      exists z. split; [done|]. split; [done|].
      intros y' zy' [<-|Hin] Hy'; [|by eapply Hmax].
      rewrite Ey in Hy'. injection Hy' as <-. lia.
    + destruct (IH y zy Hr Ey) as (z & Hz & Hle & Hmax).
      exists z. split; [done|]. split; [lia|].
      intros y' zy' [<-|Hin] Hy'; [|by eapply Hmax].
      rewrite Ey in Hy'. injection Hy' as <-. lia.
Qed.

(** On integers the range is exact: it is an integer, and it is not
    zero as soon as two elements differ. *)
Lemma integer_range data x y :
  forallb Numeric.is_integer (Numeric.numeric_filter data) = true ->
  In x (Numeric.numeric_filter data) -> In y (Numeric.numeric_filter data) ->
  Num.eqb x y = false ->
  exists min_val max_val range_val,
    Numeric.value_range data = Ok (min_val, max_val, range_val) /\
    Num.is_finite range_val = true /\
    Num.eqb range_val (NInt 0) = false.
Proof.
  intros Hall Hx Hy Hne. unfold Numeric.value_range.
  destruct (Numeric.numeric_filter data) as [|x0 items]; [done|].
  simpl in Hall. apply andb_prop in Hall as [H0 Hr].
  destruct (is_integer_int_of x0 H0) as (z0 & E0).
  destruct (min_loop_least items x0 z0 Hr E0) as (zmin & Emin & Hmin0 & Hmin).
  destruct (max_loop_greatest items x0 z0 Hr E0) as (zmax & Emax & Hmax0 & Hmax).
  simpl. unfold Num.sub. rewrite Emin, Emax. simpl.
  do 3 eexists. split; [reflexivity|]. split; [done|].
  assert (forall v, In v (x0 :: items) ->
            exists zv, Num.int_of v = Some zv /\ zmin <= zv <= zmax) as Hb.
  { intros v [<-|Hv]; [exists z0; split; [done|lia]|].
    rewrite forallb_forall in Hr.
    destruct (is_integer_int_of v (Hr v Hv)) as (zv & Ev). exists zv.
    split; [done|]. split; [by eapply Hmin|by eapply Hmax]. }
  destruct (Hb x Hx) as (zx & Ex & Bx). destruct (Hb y Hy) as (zy & Ey & By).
  unfold Num.eqb in *. rewrite (compare_integers x y zx zy) in Hne by done.
  simpl. destruct (Z.compare_spec zx zy); [done| |];
    destruct (Z.compare_spec (zmax - zmin) 0); try done; lia.
Qed.

End RangeFacts.

(** X3: when the numeric elements of [data] are all equal to the first
    one (as [==] compares them, across [bool], [int] and [float]) and
    finite, the range is zero and [normalize_min_max] returns [new_min]
    once for every numeric element, whatever the bounds are. *)
Theorem normalize_min_max_constant
    (data : list value) (new_min new_max x0 : num) (items : list num) :
  Numeric.numeric_filter data = x0 :: items ->
  Num.is_finite x0 = true ->
  Forall (fun x => Num.eqb x x0 = true) items ->
  Numeric.normalize_min_max data new_min new_max =
  Ok (List.map (fun _ => new_min) (x0 :: items)).
Proof.
  intros Enum Hfin Heq.
  rewrite normalize_min_max_unfold by (by rewrite Enum). rewrite Enum.
  cbn zeta. simpl Num.min. simpl Num.max. cbn [bind].
  rewrite min_loop_equal, max_loop_equal by done.
  destruct (sub_self_zero x0 Hfin) as (r & -> & Hr). cbn [bind].
  by rewrite Hr.
Qed.

Lemma normalize_min_max_constant_witness :
  Num.is_finite (NInt 1) = true /\
  Forall (fun x => Num.eqb x (NInt 1) = true) [NFloat fone; NBool true] /\
  Numeric.normalize_min_max
    [VInt 1; VStr (str "a"); VFloat fone; VBool true] (NInt 5) (NInt 9) =
  Ok [NInt 5; NInt 5; NInt 5].
Proof.
  assert (Forall (fun x => Num.eqb x (NInt 1) = true) [NFloat fone; NBool true]) as H
    by (repeat constructor).
  split; [reflexivity|]. split; [exact H|].
  exact (normalize_min_max_constant
           [VInt 1; VStr (str "a"); VFloat fone; VBool true] (NInt 5) (NInt 9)
           (NInt 1) [NFloat fone; NBool true] eq_refl eq_refl H).
Defined.

(** X4: on integers min-max normalization to [[0, 1]] does what its
    name says whenever two elements differ: for every [data] whose
    numeric elements are integers (or [bool]s) below [2 ^ 1022] in
    magnitude, two of them different, [normalize_min_max] returns one
    float for each numeric element, 0.0 at every position of the
    minimum and 1.0 at every position of the maximum. *)
Theorem normalize_min_max_integers
    (data : list value) (new_min new_max x y : num) :
  unit_bounds new_min new_max ->
  forallb Numeric.is_integer (Numeric.numeric_filter data) = true ->
  forallb Numeric.in_range (Numeric.numeric_filter data) = true ->
  In x (Numeric.numeric_filter data) -> In y (Numeric.numeric_filter data) ->
  Num.eqb x y = false ->
  exists min_val max_val res,
    Num.min (Numeric.numeric_filter data) = Ok min_val /\
    Num.max (Numeric.numeric_filter data) = Ok max_val /\
    Numeric.normalize_min_max data new_min new_max = Ok res /\
    length res = length (Numeric.numeric_filter data) /\
    (forall i, Numeric.numeric_filter data !! i = Some min_val ->
               res !! i = Some (NFloat fzero)) /\
    (forall i, Numeric.numeric_filter data !! i = Some max_val ->
               res !! i = Some (NFloat fone)).
Proof.
  intros Hb Hint Hin Hx Hy Hne.
  destruct (integer_range data x y Hint Hx Hy Hne)
    as (min_val & max_val & r & Hvr & Hfr & Hnz).
  unfold Numeric.value_range in Hvr.
  destruct (Numeric.numeric_filter data) as [|x0 items] eqn:Enum; [done|].
  rewrite normalize_min_max_unfold by (by rewrite Enum). rewrite Enum.
  cbn zeta. simpl Num.min in *. simpl Num.max in *. cbn [bind] in *.
  destruct (Num.sub (Num.max_loop items x0) (Num.min_loop items x0))
    as [r'|] eqn:Hsub; [|done].
  cbn [bind] in *. injection Hvr as <- <- <-. rewrite Hnz.
  rewrite forallb_forall in Hin.
  assert (Numeric.in_range (Num.min_loop items x0) = true) as Hmn
    by apply Hin, min_loop_in.
  assert (Numeric.in_range (Num.max_loop items x0) = true) as Hmx
    by apply Hin, max_loop_in.
  destruct (sub_ok _ _ Hmx Hmn) as (r'' & Hr' & _ & Br & _).
  rewrite Hsub in Hr'. injection Hr' as <-.
  pose proof (sub_finite_r _ _ _ Hsub Hfr) as Hfmn.
  destruct (comprehension_ok
              (Numeric.rescale new_min new_max (Num.min_loop items x0) r')
              (x0 :: items)) as (res & -> & HF).
  { intros v Hv. destruct (rescale_total new_min new_max (Num.min_loop items x0) r' v)
      as (f & Hf); eauto. }
  exists (Num.min_loop items x0), (Num.max_loop items x0), res.
  split; [done|]. split; [done|]. split; [done|].
  split; [symmetry; by eapply Forall2_length|]. split.
  - intros i Hi. destruct (Forall2_lookup_l _ _ _ _ _ HF Hi) as (v & Hv & Hxy).
    rewrite rescale_min in Hxy by done. congruence.
  - intros i Hi. destruct (Forall2_lookup_l _ _ _ _ _ HF Hi) as (v & Hv & Hxy).
    rewrite (rescale_max _ _ _ _ _ Hb Hmx Hmn Hsub Hfr Hnz) in Hxy. congruence.
Qed.

Lemma normalize_min_max_integers_witness :
  unit_bounds (NInt 0) (NInt 1) /\
  forallb Numeric.is_integer (Numeric.numeric_filter sample_numeric) = true /\
  forallb Numeric.in_range (Numeric.numeric_filter sample_numeric) = true /\
  Num.eqb (NInt 10) (NInt 20) = false /\
  exists min_val max_val res,
    Num.min (Numeric.numeric_filter sample_numeric) = Ok min_val /\
    Num.max (Numeric.numeric_filter sample_numeric) = Ok max_val /\
    Numeric.normalize_min_max sample_numeric (NInt 0) (NInt 1) = Ok res /\
    length res = length (Numeric.numeric_filter sample_numeric) /\
    (forall i, Numeric.numeric_filter sample_numeric !! i = Some min_val ->
               res !! i = Some (NFloat fzero)) /\
    (forall i, Numeric.numeric_filter sample_numeric !! i = Some max_val ->
               res !! i = Some (NFloat fone)).
Proof.
  split; [split; left; reflexivity|]. repeat (split; [reflexivity|]).
  apply (normalize_min_max_integers sample_numeric (NInt 0) (NInt 1)
           (NInt 10) (NInt 20)).
  - split; left; reflexivity.
  - reflexivity.
  - reflexivity.
  - simpl. tauto.
  - simpl. tauto.
  - reflexivity.
Defined.

(** ** Further properties of the cleaning functions *)

Section CleaningMore.

Import Cleaning.

Lemma not_all_hashable data :
  forallb hashable data = false -> exists l, In (VList l) data.
Proof.
  induction data as [|x r IH]; simpl; [done|].
  destruct x as [| | |l]; simpl; try (intros H; destruct (IH H) as [l' Hl]; eauto; fail).
  intros _. exists l. by left.
Qed.

Lemma remove_missing_values_returns data res :
  remove_missing_values data = Ok res -> forallb hashable data = true.
Proof.
  intros H. destruct (forallb hashable data) eqn:E; [done|].
  destruct (not_all_hashable data E) as [l Hl].
  unfold remove_missing_values in H.
  by rewrite (remove_missing_loop_raises data [] l Hl) in H.
Qed.

Lemma filling_missing_values_returns data v res :
  filling_missing_values data v = Ok res -> forallb hashable data = true.
Proof.
  intros H. destruct (forallb hashable data) eqn:E; [done|].
  destruct (not_all_hashable data E) as [l Hl].
  unfold filling_missing_values in H.
  by rewrite (filling_missing_loop_raises data v [] l Hl) in H.
Qed.

Lemma remove_missing_spec_hashable data :
  forallb hashable data = true -> forallb hashable (remove_missing_spec data) = true.
Proof.
  induction data as [|x r IH]; simpl; [done|].
  intros [Hx Hr]%andb_prop. destruct (is_missing x); simpl; [auto|].
  by rewrite Hx, IH.
Qed.

Lemma remove_missing_spec_none data :
  forallb (fun x => negb (is_missing x)) (remove_missing_spec data) = true.
Proof.
  induction data as [|x r IH]; simpl; [done|].
  destruct (is_missing x) eqn:E; simpl; [done|]. by rewrite E, IH.
Qed.

Lemma remove_missing_spec_fixed data :
  forallb (fun x => negb (is_missing x)) data = true ->
  remove_missing_spec data = data.
Proof.
  induction data as [|x r IH]; simpl; [done|].
  intros [Hx Hr]%andb_prop. unfold remove_missing_spec in *. simpl.
  rewrite Hx. by rewrite IH.
Qed.

Lemma fill_missing_spec_length data v :
  length (fill_missing_spec data v) = length data.
Proof. unfold fill_missing_spec. by rewrite length_map. Qed.

Lemma fill_missing_spec_idempotent data v :
  fill_missing_spec (fill_missing_spec data v) v = fill_missing_spec data v.
Proof.
  unfold fill_missing_spec. rewrite List.map_map. apply List.map_ext.
  intros x. destruct (is_missing x) eqn:E; [|by rewrite E].
  by destruct (is_missing v).
Qed.

Lemma fill_missing_spec_none data v :
  is_missing v = false ->
  forallb (fun x => negb (is_missing x)) (fill_missing_spec data v) = true.
Proof.
  intros Hv. induction data as [|x r IH]; simpl; [done|].
  rewrite IH. destruct (is_missing x) eqn:E; by rewrite ?Hv, ?E.
Qed.

End CleaningMore.

(** X5: whenever [remove_missing_values] returns, its result holds no
    missing element, and removing the missing values from the result
    again returns it unchanged. *)
Theorem remove_missing_values_idempotent (data res : list value) :
  Cleaning.remove_missing_values data = Ok res ->
  forallb (fun x => negb (Cleaning.is_missing x)) res = true /\
  Cleaning.remove_missing_values res = Ok res.
Proof.
  intros H. pose proof (remove_missing_values_returns data res H) as Hh.
  rewrite remove_missing_values_filter in H by done. injection H as <-.
  split; [apply remove_missing_spec_none|].
  rewrite remove_missing_values_filter by (by apply remove_missing_spec_hashable).
  f_equal. apply remove_missing_spec_fixed, remove_missing_spec_none.
Qed.

Lemma remove_missing_values_idempotent_witness :
  Cleaning.remove_missing_values sample_missing =
    Ok [VInt 10; VFloat f20_5; VStr (str "text"); VInt 30] /\
  forallb (fun x => negb (Cleaning.is_missing x))
    [VInt 10; VFloat f20_5; VStr (str "text"); VInt 30] = true /\
  Cleaning.remove_missing_values [VInt 10; VFloat f20_5; VStr (str "text"); VInt 30] =
    Ok [VInt 10; VFloat f20_5; VStr (str "text"); VInt 30].
Proof.
  split; [reflexivity|].
  apply (remove_missing_values_idempotent sample_missing). reflexivity.
Defined.

(** X6: whenever [filling_missing_values] returns, the result is as
    long as the input; with a hashable fill value, filling the result
    again returns it unchanged, and when the fill value is not itself a
    missing marker, no missing element is left. *)
Theorem filling_missing_values_idempotent
    (data : list value) (fill_value : value) (res : list value) :
  Cleaning.filling_missing_values data fill_value = Ok res ->
  length res = length data /\
  (hashable fill_value = true ->
   Cleaning.filling_missing_values res fill_value = Ok res) /\
  (Cleaning.is_missing fill_value = false ->
   forallb (fun x => negb (Cleaning.is_missing x)) res = true).
Proof.
  intros H. pose proof (filling_missing_values_returns data fill_value res H) as Hh.
  unfold Cleaning.filling_missing_values in *.
  rewrite filling_missing_loop_spec in H by done. injection H as <-. simpl.
  split; [apply fill_missing_spec_length|]. split.
  - intros Hv. rewrite filling_missing_loop_spec
      by (by apply fill_missing_spec_hashable).
    simpl. f_equal. apply fill_missing_spec_idempotent.
  - apply fill_missing_spec_none.
Qed.

Lemma filling_missing_values_idempotent_witness :
  Cleaning.filling_missing_values sample_missing (VInt 0) =
    Ok [VInt 10; VInt 0; VFloat f20_5; VInt 0; VStr (str "text"); VInt 0; VInt 30] /\
  length [VInt 10; VInt 0; VFloat f20_5; VInt 0; VStr (str "text"); VInt 0; VInt 30] =
    length sample_missing /\
  Cleaning.filling_missing_values
    [VInt 10; VInt 0; VFloat f20_5; VInt 0; VStr (str "text"); VInt 0; VInt 30]
    (VInt 0) =
    Ok [VInt 10; VInt 0; VFloat f20_5; VInt 0; VStr (str "text"); VInt 0; VInt 30] /\
  forallb (fun x => negb (Cleaning.is_missing x))
    [VInt 10; VInt 0; VFloat f20_5; VInt 0; VStr (str "text"); VInt 0; VInt 30] = true.
Proof.
  split; [reflexivity|].
  destruct (filling_missing_values_idempotent sample_missing (VInt 0)
              [VInt 10; VInt 0; VFloat f20_5; VInt 0; VStr (str "text"); VInt 0; VInt 30]
              eq_refl) as (H1 & H2 & H3).
  split; [exact H1|]. split; [apply H2; reflexivity|apply H3; reflexivity].
Defined.

(** ** Further properties of deduplication *)

Section DedupMore.

Import Dedup.

Lemma existsb_app_false {A} (f : A -> bool) l1 l2 :
  existsb f (l1 ++ l2) = false -> existsb f l1 = false /\ existsb f l2 = false.
Proof. rewrite existsb_app. by intros [? ?]%orb_false_elim. Qed.

(** A retained element matches no element passed before, and no two
    retained elements match. *)
Lemma first_occurrences_distinct data : forall earlier,
  distinct_keys (first_occurrences earlier data) = true /\
  forall a, In a (first_occurrences earlier data) ->
            existsb (key_match a) earlier = false.
Proof.
  induction data as [|item rest IH]; intros earlier; simpl; [done|].
  destruct (IH (earlier ++ [item])) as [Hd Hm].
  destruct (existsb (key_match item) earlier) eqn:E.
  - split; [done|]. intros a Ha. by apply (existsb_app_false _ _ _ (Hm a Ha)).
  - split.
    + simpl. rewrite Hd, andb_true_r. apply negb_true_iff.
      destruct (existsb (key_match item) (first_occurrences (earlier ++ [item]) rest))
        eqn:E'; [|done].
      apply existsb_exists in E' as (a & Ha & Hma).
      destruct (existsb_app_false _ _ _ (Hm a Ha)) as [_ H]. simpl in H.
      rewrite key_match_sym in Hma. by rewrite Hma in H.
    + intros a [<-|Ha]; [done|]. by apply (existsb_app_false _ _ _ (Hm a Ha)).
Qed.

Lemma first_occurrences_sublist data : forall earlier,
  sublist (first_occurrences earlier data) data.
Proof.
  induction data as [|item rest IH]; intros earlier; simpl; [done|].
  destruct (existsb (key_match item) earlier).
  - by apply sublist_cons.
  - by apply sublist_skip.
Qed.

(** Keys that match nothing before them and nothing among themselves
    are all first occurrences. *)
Lemma first_occurrences_fixed keys : forall earlier,
  distinct_keys keys = true ->
  (forall a, In a keys -> existsb (key_match a) earlier = false) ->
  first_occurrences earlier keys = keys.
Proof.
  induction keys as [|k rest IH]; intros earlier Hd Hm; simpl; [done|].
  simpl in Hd. apply andb_prop in Hd as [Hk Hd]. apply negb_true_iff in Hk.
  rewrite (Hm k (or_introl eq_refl)). f_equal. apply IH; [done|].
  intros a Ha. rewrite existsb_app, (Hm a (or_intror Ha)). simpl.
  rewrite orb_false_r. rewrite key_match_sym.
  destruct (key_match k a) eqn:E; [|done].
  assert (existsb (key_match k) rest = true); [|congruence].
  apply existsb_exists. eauto.
Qed.

Section Covered.

Variable U : list obj.
Hypothesis U_wf : wf_objs U.

(** Every element is matched by a retained element or by one passed
    before. *)
Lemma first_occurrences_cover data : forall earlier a,
  incl (earlier ++ data) U -> In a data ->
  existsb (key_match a) (first_occurrences earlier data) = true \/
  existsb (key_match a) earlier = true.
Proof.
  induction data as [|item rest IH]; intros earlier a HU Ha; [destruct Ha|].
  assert (In item U) as Hi by (apply HU, in_or_app; right; by left).
  assert (incl ((earlier ++ [item]) ++ rest) U) as HU'
    by (by rewrite <- app_assoc).
  simpl. destruct Ha as [->|Ha].
  - destruct (existsb (key_match a) earlier) eqn:E; [by right|left].
    simpl. by rewrite key_match_refl.
  - assert (In a U) as HaU by (apply HU, in_or_app; right; by right).
    destruct (IH (earlier ++ [item]) a HU' Ha) as [H|H].
    + left. destruct (existsb (key_match item) earlier); [done|].
      simpl. by rewrite H, orb_true_r.
    + rewrite existsb_app in H. simpl in H. rewrite orb_false_r in H.
      apply orb_prop in H as [H|H]; [by right|].
      destruct (existsb (key_match item) earlier) eqn:E.
      * right. apply existsb_exists in E as (e & He & Hme).
        apply existsb_exists. exists e. split; [done|].
        apply (key_match_trans U U_wf a item e); auto.
        apply HU, in_or_app. by left.
      * left. simpl. by rewrite H.
Qed.

End Covered.

Lemma wf_objs_incl data keys : wf_objs data -> incl keys data -> wf_objs keys.
Proof. intros [H1 H2] Hi. split; intros; [apply H1|apply H2]; auto. Qed.

Lemma sublist_incl {A} (l1 l2 : list A) : sublist l1 l2 -> incl l1 l2.
Proof.
  intros H x Hx. apply list_elem_of_In. eapply elem_of_sublist; [|done].
  by apply list_elem_of_In.
Qed.

Lemma remove_duplicated_values_wf data :
  wf_objs data ->
  remove_duplicated_values data = Ok (first_occurrences [] data).
Proof.
  intros H. unfold remove_duplicated_values.
  rewrite (fromkeys_loop_spec data H data [] []); [done|by apply incl_refl|].
  split; [by apply incl_refl|]. intros a [].
Qed.

End DedupMore.

(** X7: on a well-formed sequence [remove_duplicated_values] loses
    nothing and leaves no duplicate: the result is a subsequence of the
    input, every element of the input matches (is, or equals) an
    element of the result, and no two elements of the result match. *)
Theorem remove_duplicated_values_distinct (data : list Dedup.obj) :
  Dedup.wf_objsb data = true ->
  exists res,
    Dedup.remove_duplicated_values data = Ok res /\
    sublist res data /\
    Dedup.distinct_keys res = true /\
    forall a, In a data -> existsb (Dedup.key_match a) res = true.
Proof.
  intros H%wf_objsb_wf. exists (Dedup.first_occurrences [] data).
  split; [by apply remove_duplicated_values_wf|].
  split; [apply first_occurrences_sublist|].
  split; [apply first_occurrences_distinct|].
  intros a Ha.
  destruct (first_occurrences_cover data H data [] a) as [Hc|Hc]; try done.
  by apply incl_refl.
Qed.

Lemma remove_duplicated_values_distinct_witness :
  Dedup.wf_objsb sample_duplicates = true /\
  exists res,
    Dedup.remove_duplicated_values sample_duplicates = Ok res /\
    sublist res sample_duplicates /\
    Dedup.distinct_keys res = true /\
    forall a, In a sample_duplicates -> existsb (Dedup.key_match a) res = true.
Proof.
  split; [reflexivity|].
  apply (remove_duplicated_values_distinct sample_duplicates). reflexivity.
Defined.

(** X8: deduplication is idempotent: on a well-formed sequence, the
    result of [remove_duplicated_values] is returned unchanged when the
    function is applied to it again. *)
Theorem remove_duplicated_values_idempotent (data res : list Dedup.obj) :
  Dedup.wf_objsb data = true ->
  Dedup.remove_duplicated_values data = Ok res ->
  Dedup.remove_duplicated_values res = Ok res.
Proof.
  intros H%wf_objsb_wf Hres.
  rewrite remove_duplicated_values_wf in Hres by done. injection Hres as <-.
  rewrite remove_duplicated_values_wf.
  - f_equal. apply first_occurrences_fixed; [apply first_occurrences_distinct|done].
  - apply (wf_objs_incl data); [done|].
    apply sublist_incl, first_occurrences_sublist.
Qed.

Lemma remove_duplicated_values_idempotent_witness :
  Dedup.wf_objsb sample_duplicates = true /\
  Dedup.remove_duplicated_values sample_duplicates =
    Ok [Dedup.Obj 1 (VInt 10); Dedup.Obj 3 (VBool true);
        Dedup.Obj 5 (VStr (str "a"));
        Dedup.Obj 7 (VFloat S754_nan); Dedup.Obj 8 (VFloat S754_nan)] /\
  Dedup.remove_duplicated_values
    [Dedup.Obj 1 (VInt 10); Dedup.Obj 3 (VBool true);
     Dedup.Obj 5 (VStr (str "a"));
     Dedup.Obj 7 (VFloat S754_nan); Dedup.Obj 8 (VFloat S754_nan)] =
    Ok [Dedup.Obj 1 (VInt 10); Dedup.Obj 3 (VBool true);
        Dedup.Obj 5 (VStr (str "a"));
        Dedup.Obj 7 (VFloat S754_nan); Dedup.Obj 8 (VFloat S754_nan)].
Proof.
  split; [reflexivity|]. split; [reflexivity|].
  apply (remove_duplicated_values_idempotent sample_duplicates); reflexivity.
Defined.

(** ** Words: runs of characters, split and joined *)

Ltac n_cases :=
  repeat match goal with
  | |- context [(?a <=? ?b)%N] => destruct (N.leb_spec a b)
  | |- context [(?a <? ?b)%N] => destruct (N.ltb_spec a b)
  | |- context [(?a =? ?b)%N] => destruct (N.eqb_spec a b)
  | H : context [(?a <=? ?b)%N] |- _ => destruct (N.leb_spec a b)
  | H : context [(?a <? ?b)%N] |- _ => destruct (N.ltb_spec a b)
  | H : context [(?a =? ?b)%N] |- _ => destruct (N.eqb_spec a b)
  end; simpl in *; try done; try lia.

(** Comparisons of code points, as propositions. *)
Ltac n_props :=
  rewrite ?orb_true_iff, ?orb_false_iff, ?andb_true_iff, ?andb_false_iff,
    ?N.leb_le, ?N.leb_gt, ?N.ltb_lt, ?N.ltb_ge, ?N.eqb_eq, ?N.eqb_neq in *;
  lia.

Section RunsFacts.

Variable p : codepoint -> bool.

Lemma runs_app s : forall w run,
  forallb p w = true -> Str.runs p (w ++ s) run = Str.runs p s (run ++ w).
Proof.
  intros w. induction w as [|c w IH]; intros run Hw; simpl.
  - by rewrite app_nil_r.
  - simpl in Hw. apply andb_prop in Hw as [-> Hw].
    rewrite IH by done. by rewrite <- app_assoc.
Qed.

Lemma runs_words s : forall run,
  forallb p run = true -> Forall (Str.word_of p) (Str.runs p s run).
Proof.
  induction s as [|c r IH]; intros run Hrun; simpl.
  - destruct run; [constructor|]. constructor; [done|constructor].
  - destruct (p c) eqn:E.
    + apply IH. rewrite forallb_app, Hrun. simpl. by rewrite E.
    + destruct run; [by apply IH|]. constructor; [done|by apply IH].
Qed.

(** Splitting what was joined gives the words back. *)
Lemma runs_join c0 ws :
  p c0 = false -> Forall (Str.word_of p) ws -> Str.runs p (Str.join [c0] ws) [] = ws.
Proof.
  intros Hc. induction 1 as [|w ws [Hne Hw] Hws IH]; [done|].
  destruct ws as [|w' ws'].
  - simpl. rewrite <- (app_nil_r w) at 1. rewrite runs_app by done. simpl.
    by destruct w.
  - change (Str.join [c0] (w :: w' :: ws'))
      with (w ++ c0 :: Str.join [c0] (w' :: ws')).
    rewrite runs_app by done. cbn [Str.runs app]. rewrite Hc.
    destruct w; [done|]. by rewrite IH.
Qed.

Lemma runs_chars (Q : codepoint -> Prop) s : forall run,
  Forall Q s -> Forall Q run -> Forall (Forall Q) (Str.runs p s run).
Proof.
  induction s as [|c r IH]; intros run Hs Hrun; simpl.
  - destruct run; [constructor|]. constructor; [done|constructor].
  - inversion Hs as [|? ? Hc Hr]; subst. destruct (p c).
    + apply IH; [done|]. apply Forall_app. split; [done|by constructor].
    + destruct run; [by apply IH|]. constructor; [done|]. by apply IH.
Qed.

Lemma join_chars (Q : codepoint -> Prop) sep ws :
  Forall Q sep -> Forall (Forall Q) ws -> Forall Q (Str.join sep ws).
Proof.
  intros Hsep. induction 1 as [|w ws Hw Hws IH]; [constructor|].
  destruct ws as [|w' ws']; [done|].
  change (Str.join sep (w :: w' :: ws')) with (w ++ sep ++ Str.join sep (w' :: ws')).
  rewrite !Forall_app. done.
Qed.

End RunsFacts.

Lemma runs_ext p q s : forall run,
  Forall (fun c => p c = q c) s -> Str.runs p s run = Str.runs q s run.
Proof.
  induction s as [|c r IH]; intros run Hs; simpl; [done|].
  inversion Hs as [|? ? Hc Hr]; subst. rewrite Hc.
  destruct (q c); [by apply IH|]. by rewrite (IH []).
Qed.

Section WordFacts.

Variable db : unicode_db.

Lemma split_loop_runs s : forall word,
  Str.split_loop db s word = Str.runs (Str.not_space db) s word.
Proof.
  induction s as [|c r IH]; intros word; simpl; [done|].
  unfold Str.not_space at 1. destruct (Str.is_space db c); simpl; by rewrite ?IH.
Qed.

Lemma split_runs s : Str.split db s = Str.runs (Str.not_space db) s [].
Proof. apply split_loop_runs. Qed.

Lemma maximal_runs_runs s : forall run,
  Text.maximal_runs db s run = Str.runs (Str.is_word db) s run.
Proof.
  induction s as [|c r IH]; intros run; simpl; [done|].
  destruct (Str.is_word db c); by rewrite ?IH.
Qed.

Lemma space_is_space : Str.is_space db 32%N = true.
Proof. reflexivity. Qed.

Lemma space_not_word : Str.is_word db 32%N = false.
Proof. reflexivity. Qed.

(** *** Lower-case ASCII text *)

Lemma lower_ascii s :
  forallb Str.is_ascii s = true -> Str.lower db s = List.map Str.ascii_lower s.
Proof. unfold Str.lower. by intros ->. Qed.

Lemma ascii_lower_lowered c :
  Str.is_ascii c = true -> Str.is_lowered (Str.ascii_lower c) = true.
Proof. unfold Str.is_lowered, Str.is_ascii, Str.ascii_lower, Str.is_upper. n_cases. Qed.

Lemma lowered_fixed c : Str.is_lowered c = true -> Str.ascii_lower c = c.
Proof. unfold Str.is_lowered, Str.is_ascii, Str.ascii_lower, Str.is_upper. n_cases. Qed.

Lemma map_ascii_lower_lowered s :
  forallb Str.is_ascii s = true ->
  Forall (fun c => Str.is_lowered c = true) (List.map Str.ascii_lower s).
Proof.
  induction s as [|c r IH]; simpl; [constructor|].
  intros [Hc Hr]%andb_prop. constructor; [by apply ascii_lower_lowered|auto].
Qed.

Lemma lower_lowered r :
  Forall (fun c => Str.is_lowered c = true) r -> Str.lower db r = r.
Proof.
  intros H. rewrite lower_ascii.
  - induction H as [|c r Hc Hr IH]; simpl; [done|].
    by rewrite lowered_fixed, IH.
  - apply forallb_forall. intros c Hc. rewrite Forall_forall in H.
    apply list_elem_of_In in Hc.
    specialize (H c Hc). unfold Str.is_lowered in H. by apply andb_prop in H as [? _].
Qed.

End WordFacts.

(** ** [select_alphanumeric_spaces] *)

Section SelectFacts.

Variable db : unicode_db.

Lemma sub_loop_filter s :
  Text.sub_loop db s = List.filter (Text.alphanumeric_or_space db) s.
Proof.
  induction s as [|c r IH]; simpl; [done|].
  destruct (Text.alphanumeric_or_space db c); simpl; by rewrite IH.
Qed.

Lemma filter_all {A} (f : A -> bool) l :
  forallb f (List.filter f l) = true.
Proof.
  induction l as [|x r IH]; simpl; [done|].
  destruct (f x) eqn:E; simpl; by rewrite ?E, ?IH.
Qed.

Lemma filter_fixed {A} (f : A -> bool) l :
  forallb f l = true -> List.filter f l = l.
Proof.
  induction l as [|x r IH]; simpl; [done|].
  intros [-> Hr]%andb_prop. by rewrite IH.
Qed.

Lemma filter_fixed_inv {A} (f : A -> bool) l :
  List.filter f l = l -> forallb f l = true.
Proof. intros <-. apply filter_all. Qed.

End SelectFacts.

(** X9: [select_alphanumeric_spaces] returns the empty string for what
    is not a string.  From a string it keeps, in order, exactly the
    ASCII letters and digits and the white space: every character of
    the result is one of them, and a text is returned unchanged if and
    only if it consists of them.  The underscore goes, and so does
    every character beyond ASCII that is not white space, accented
    letters included. *)
Theorem select_alphanumeric_spaces_keeps (db : unicode_db) :
  Text.select_alphanumeric_spaces db VNone = [] /\
  (forall n, Text.select_alphanumeric_spaces db (VNum n) = []) /\
  (forall l, Text.select_alphanumeric_spaces db (VList l) = []) /\
  (forall s,
     Text.select_alphanumeric_spaces db (VStr s) =
       List.filter (Text.alphanumeric_or_space db) s /\
     forallb (Text.alphanumeric_or_space db)
       (Text.select_alphanumeric_spaces db (VStr s)) = true /\
     (Text.select_alphanumeric_spaces db (VStr s) = s <->
      forallb (Text.alphanumeric_or_space db) s = true)) /\
  Text.alphanumeric_or_space db 95%N = false /\
  (forall c, Str.is_ascii c = false ->
             Text.alphanumeric_or_space db c = uni_isspace db c).
Proof.
  repeat split; try reflexivity.
  - apply sub_loop_filter.
  - simpl. rewrite sub_loop_filter. apply filter_all.
  - simpl. rewrite sub_loop_filter. apply filter_fixed_inv.
  - simpl. rewrite sub_loop_filter. apply filter_fixed.
  - intros c Hc. unfold Text.alphanumeric_or_space, Str.is_space. rewrite Hc.
    unfold Str.is_ascii, Str.is_lower, Str.is_upper, Str.is_digit in *. n_cases.
Qed.

Lemma select_alphanumeric_spaces_keeps_witness :
  Text.select_alphanumeric_spaces ascii_db (VStr (str "Hola mundo 1")) =
    str "Hola mundo 1" /\
  Text.select_alphanumeric_spaces ascii_db (VStr (str "a_b, c!")) = str "ab c".
Proof.
  split; [|reflexivity].
  apply (proj2 (proj2 (proj2 (proj1 (proj2 (proj2 (proj2
           (select_alphanumeric_spaces_keeps ascii_db))))
           (str "Hola mundo 1"))))).
  reflexivity.
Defined.

(** X10: [select_alphanumeric_spaces] is idempotent: applied to its own
    result it returns it unchanged, for every input. *)
Theorem select_alphanumeric_spaces_idempotent (db : unicode_db) (text : value) :
  Text.select_alphanumeric_spaces db
    (VStr (Text.select_alphanumeric_spaces db text)) =
  Text.select_alphanumeric_spaces db text.
Proof.
  destruct text as [|n|s|l]; try reflexivity.
  simpl. rewrite !sub_loop_filter. apply filter_fixed, filter_all.
Qed.

(** ** [remove_stop_words] *)

Section StopWordFacts.

Variable db : unicode_db.

Lemma split_words s : Forall (Str.word_of (Str.not_space db)) (Str.split db s).
Proof. rewrite split_runs. by apply runs_words. Qed.

Lemma split_join ws :
  Forall (Str.word_of (Str.not_space db)) ws ->
  Str.split db (Str.join (str " ") ws) = ws.
Proof. intros H. rewrite split_runs. by apply runs_join. Qed.

Lemma Forall_filter {A} (P : A -> Prop) f l : Forall P l -> Forall P (List.filter f l).
Proof.
  induction 1 as [|x r Hx Hr IH]; simpl; [constructor|].
  destruct (f x); [by constructor|done].
Qed.

Lemma filter_twice {A} (f : A -> bool) l :
  List.filter f (List.filter f l) = List.filter f l.
Proof. apply filter_fixed, filter_all. Qed.

Lemma remove_stop_words_ok s stop_words :
  forallb hashable stop_words = true ->
  Text.remove_stop_words db (VStr s) stop_words =
  Ok (Str.join (str " ")
        (List.filter (fun word => negb (Text.in_set word stop_words))
           (Str.split db (Str.lower db s)))).
Proof. intros H. unfold Text.remove_stop_words, Text.py_set. by rewrite H. Qed.

(** The text that [remove_stop_words] returns for ASCII text is
    lower-case ASCII text. *)
Lemma cleaned_lowered s (f : pystr -> bool) :
  forallb Str.is_ascii s = true ->
  Forall (fun c => Str.is_lowered c = true)
    (Str.join (str " ") (List.filter f (Str.split db (Str.lower db s)))).
Proof.
  intros Hs. apply join_chars; [by repeat constructor|].
  apply Forall_filter. rewrite split_runs. apply runs_chars; [|constructor].
  rewrite lower_ascii by done. by apply map_ascii_lower_lowered.
Qed.

(** A stop word that is never a word differs from every word of
    lower-case ASCII text. *)
Lemma never_a_word_differs u w :
  Text.never_a_word db u = true ->
  Str.word_of (Str.not_space db) w ->
  Forall (fun c => Str.is_lowered c = true) w ->
  Dedup.py_eq (VStr w) u = false.
Proof.
  intros Hu [Hne Hw] Hl. destruct u as [|n|t|l]; try done.
  simpl. unfold Dedup.pystr_eqb. destruct (decide (w = t)) as [<-|]; [|done].
  destruct w as [|c w]; [done|]. cbn [Text.never_a_word] in Hu.
  apply orb_prop in Hu as [Hu|Hu].
  - apply existsb_exists in Hu as (x & Hx & Hux).
    rewrite Forall_forall in Hl. apply list_elem_of_In in Hx.
    specialize (Hl x Hx). unfold Str.is_lowered in Hl.
    apply andb_prop in Hl as [_ Hl]. by rewrite Hux in Hl.
  - apply existsb_exists in Hu as (x & Hx & Hux).
    rewrite forallb_forall in Hw. specialize (Hw x Hx).
    unfold Str.not_space in Hw. by rewrite Hux in Hw.
Qed.

End StopWordFacts.

(** X11: [remove_stop_words] returns the empty string for a text that
    is not a string, whatever the stop words are.  For a string it
    raises exactly when a stop word is unhashable (a list), and then a
    [TypeError], also when the text has no words at all. *)
Theorem remove_stop_words_raises
    (db : unicode_db) (text : value) (stop_words : list value) :
  (if is_str text && negb (forallb hashable stop_words)
   then Text.remove_stop_words db text stop_words = Raise TypeError
   else exists r, Text.remove_stop_words db text stop_words = Ok r) /\
  match text with
  | VStr _ => True
  | _ => Text.remove_stop_words db text stop_words = Ok []
  end.
Proof.
  destruct text as [|n|s|l]; simpl; try (split; eauto; fail).
  unfold Text.py_set. destruct (forallb hashable stop_words); simpl; eauto.
Qed.

(** X12: with hashable stop words, no stop word is left: the words of
    the text that [remove_stop_words] returns (what [split] finds in
    it) are exactly the words of the lower-cased text that are not stop
    words, in their order, and none of them is a stop word. *)
Theorem remove_stop_words_leaves_none
    (db : unicode_db) (s : pystr) (stop_words : list value) :
  forallb hashable stop_words = true ->
  exists r,
    Text.remove_stop_words db (VStr s) stop_words = Ok r /\
    Str.split db r =
      List.filter (fun word => negb (Text.in_set word stop_words))
        (Str.split db (Str.lower db s)) /\
    Forall (fun word => Text.in_set word stop_words = false) (Str.split db r).
Proof.
  intros H. eexists. split; [by apply remove_stop_words_ok|].
  rewrite split_join by apply Forall_filter, split_words.
  split; [done|]. apply Forall_forall. intros w Hw.
  apply list_elem_of_In, filter_In in Hw as [_ Hw]. by apply negb_true_iff.
Qed.

Lemma remove_stop_words_leaves_none_witness :
  forallb hashable [VStr (str "un"); VStr (str "de")] = true /\
  exists r,
    Text.remove_stop_words ascii_db (VStr (str "Este es UN texto de prueba"))
      [VStr (str "un"); VStr (str "de")] = Ok r /\
    Str.split ascii_db r =
      List.filter
        (fun word => negb (Text.in_set word [VStr (str "un"); VStr (str "de")]))
        (Str.split ascii_db (Str.lower ascii_db (str "Este es UN texto de prueba"))) /\
    Forall (fun word => Text.in_set word [VStr (str "un"); VStr (str "de")] = false)
      (Str.split ascii_db r).
Proof.
  split; [reflexivity|].
  apply (remove_stop_words_leaves_none ascii_db (str "Este es UN texto de prueba")
           [VStr (str "un"); VStr (str "de")]).
  reflexivity.
Defined.

(** X13: on ASCII text [remove_stop_words] is idempotent: its result
    is lower-case text whose words are separated by single spaces, and
    removing the same stop words from it again returns it unchanged. *)
Theorem remove_stop_words_idempotent
    (db : unicode_db) (s r : pystr) (stop_words : list value) :
  forallb Str.is_ascii s = true ->
  Text.remove_stop_words db (VStr s) stop_words = Ok r ->
  Text.remove_stop_words db (VStr r) stop_words = Ok r.
Proof.
  intros Hs Hr.
  assert (forallb hashable stop_words = true) as Hh.
  { unfold Text.remove_stop_words, Text.py_set in Hr.
    by destruct (forallb hashable stop_words). }
  rewrite remove_stop_words_ok in Hr by done. injection Hr as <-.
  rewrite remove_stop_words_ok by done. f_equal.
  rewrite (lower_lowered db) by (by apply cleaned_lowered).
  rewrite split_join by apply Forall_filter, split_words.
  by rewrite filter_twice.
Qed.

Lemma remove_stop_words_idempotent_witness :
  forallb Str.is_ascii (str "Este es  UN texto de prueba ") = true /\
  Text.remove_stop_words ascii_db (VStr (str "Este es  UN texto de prueba "))
    [VStr (str "un"); VStr (str "de")] = Ok (str "este es texto prueba") /\
  Text.remove_stop_words ascii_db (VStr (str "este es texto prueba"))
    [VStr (str "un"); VStr (str "de")] = Ok (str "este es texto prueba").
Proof.
  split; [reflexivity|]. split; [reflexivity|].
  apply (remove_stop_words_idempotent ascii_db (str "Este es  UN texto de prueba "));
    reflexivity.
Defined.

(** X14: stop words are compared as they are given, with the words of
    the lower-cased text: on ASCII text a stop word that has a capital
    letter or white space in it, is empty, or is not a string, removes
    nothing: the result is the same as without it. *)
Theorem remove_stop_words_never_a_word
    (db : unicode_db) (s : pystr) (before after : list value) (u : value) :
  forallb Str.is_ascii s = true ->
  Text.never_a_word db u = true ->
  Text.remove_stop_words db (VStr s) (before ++ u :: after) =
  Text.remove_stop_words db (VStr s) (before ++ after).
Proof.
  intros Hs Hu.
  assert (hashable u = true) as Hhu by (by destruct u).
  unfold Text.remove_stop_words, Text.py_set.
  rewrite !forallb_app. simpl. rewrite Hhu. simpl.
  destruct (forallb hashable before && forallb hashable after); simpl; [|done].
  f_equal. f_equal. apply filter_ext_in. intros w Hw. f_equal.
  unfold Text.in_set. rewrite !existsb_app. cbn [existsb].
  rewrite (never_a_word_differs db u w Hu); [done| |].
  - pose proof (split_words db (Str.lower db s)) as H.
    rewrite Forall_forall in H. by apply H, list_elem_of_In.
  - assert (Forall (Forall (fun c => Str.is_lowered c = true))
              (Str.split db (Str.lower db s))) as H.
    { rewrite split_runs. apply runs_chars; [|constructor].
      rewrite lower_ascii by done. by apply map_ascii_lower_lowered. }
    rewrite Forall_forall in H. by apply H, list_elem_of_In.
Qed.

Lemma remove_stop_words_never_a_word_witness :
  forallb Str.is_ascii (str "the cat and the hat") = true /\
  Text.never_a_word ascii_db (VStr (str "The")) = true /\
  Text.remove_stop_words ascii_db (VStr (str "the cat and the hat"))
    ([VStr (str "and")] ++ VStr (str "The") :: []) =
  Text.remove_stop_words ascii_db (VStr (str "the cat and the hat"))
    ([VStr (str "and")] ++ []).
Proof.
  split; [reflexivity|]. split; [reflexivity|].
  apply (remove_stop_words_never_a_word ascii_db (str "the cat and the hat")
           [VStr (str "and")] [] (VStr (str "The"))); reflexivity.
Defined.

(** ** Tokenization, once more *)

Section TokenizeMore.

Variable db : unicode_db.

Lemma tokenize_text_runs s :
  Text.tokenize_text db (VStr s) =
  Str.join (str " ") (Str.runs (Str.is_word db) (Str.lower db s) []).
Proof.
  unfold Text.tokenize_text. by rewrite findall_words_spec, maximal_runs_runs.
Qed.

(** Among the ASCII letters, digits and white space, lower-cased, the
    word characters are the characters that are not white space. *)
Lemma word_or_space c :
  Str.is_ascii c = true -> Text.alphanumeric_or_space db c = true ->
  Str.is_word db (Str.ascii_lower c) = Str.not_space db (Str.ascii_lower c).
Proof.
  intros H1 H2.
  pose proof (ascii_lower_lowered c H1) as H3.
  unfold Str.is_lowered in H3. apply andb_prop in H3 as [H3 _].
  unfold Text.alphanumeric_or_space, Str.not_space, Str.is_space, Str.is_word in *.
  rewrite H1 in H2. rewrite H3. clear H3.
  unfold Str.is_ascii, Str.ascii_lower, Str.is_c_space, Str.is_lower, Str.is_upper,
    Str.is_digit in *.
  destruct ((65 <=? c) && (c <=? 90))%N eqn:U.
  - match goal with |- ?a = negb ?b =>
      assert (a = true) as ->; [|assert (b = false) as ->; [|done]] end;
      n_props.
  - destruct ((97 <=? c) && (c <=? 122) || (48 <=? c) && (c <=? 57))%N eqn:L.
    + match goal with |- ?a = negb ?b =>
        assert (a = true) as ->; [|assert (b = false) as ->; [|done]] end;
        n_props.
    + match goal with |- ?a = negb ?b =>
        assert (b = true) as ->; [|assert (a = false) as ->; [|done]] end;
        n_props.
Qed.

Lemma filter_ascii (f : codepoint -> bool) s :
  forallb Str.is_ascii s = true -> forallb Str.is_ascii (List.filter f s) = true.
Proof.
  induction s as [|c r IH]; simpl; [done|].
  intros [Hc Hr]%andb_prop. destruct (f c); simpl; by rewrite ?Hc, ?IH.
Qed.

End TokenizeMore.

(** X15: on what [select_alphanumeric_spaces] leaves of an ASCII text,
    tokenizing and removing an empty list of stop words agree: both
    return the lower-cased words, separated by single spaces. *)
Theorem tokenize_text_after_select (db : unicode_db) (s : pystr) :
  forallb Str.is_ascii s = true ->
  Text.remove_stop_words db
    (VStr (Text.select_alphanumeric_spaces db (VStr s))) [] =
  Ok (Text.tokenize_text db
        (VStr (Text.select_alphanumeric_spaces db (VStr s)))).
Proof.
  intros Hs. rewrite remove_stop_words_ok by done. f_equal.
  rewrite tokenize_text_runs. f_equal.
  rewrite filter_fixed by (apply forallb_forall; by intros).
  rewrite split_runs. symmetry. apply runs_ext.
  simpl. rewrite sub_loop_filter.
  rewrite lower_ascii by (by apply filter_ascii).
  apply Forall_forall. intros c' Hc'.
  apply list_elem_of_In, in_map_iff in Hc' as (c & <- & Hc).
  apply filter_In in Hc as [Hc Ha].
  apply word_or_space; [|done].
  rewrite forallb_forall in Hs. by apply Hs.
Qed.

Lemma tokenize_text_after_select_witness :
  forallb Str.is_ascii (str "Hola, mundo! Esto es 1 prueba.") = true /\
  Text.remove_stop_words ascii_db
    (VStr (Text.select_alphanumeric_spaces ascii_db
             (VStr (str "Hola, mundo! Esto es 1 prueba.")))) [] =
  Ok (Text.tokenize_text ascii_db
        (VStr (Text.select_alphanumeric_spaces ascii_db
                 (VStr (str "Hola, mundo! Esto es 1 prueba."))))).
Proof.
  split; [reflexivity|].
  apply (tokenize_text_after_select ascii_db (str "Hola, mundo! Esto es 1 prueba.")).
  reflexivity.
Defined.

(** X16: on ASCII text [tokenize_text] is idempotent: its result is
    lower-case words separated by single spaces, and tokenizing it
    again returns it unchanged. *)
Theorem tokenize_text_idempotent (db : unicode_db) (s : pystr) :
  forallb Str.is_ascii s = true ->
  Text.tokenize_text db (VStr (Text.tokenize_text db (VStr s))) =
  Text.tokenize_text db (VStr s).
Proof.
  intros Hs. rewrite !tokenize_text_runs.
  set (ws := Str.runs (Str.is_word db) (Str.lower db s) []).
  assert (Forall (fun c => Str.is_lowered c = true) (Str.join (str " ") ws)) as Hl.
  { apply join_chars; [by repeat constructor|].
    apply runs_chars; [|constructor].
    rewrite lower_ascii by done. by apply map_ascii_lower_lowered. }
  rewrite (lower_lowered db) by done. f_equal.
  apply runs_join; [reflexivity|]. by apply runs_words.
Qed.

Lemma tokenize_text_idempotent_witness :
  forallb Str.is_ascii (str "Hola, mundo! 1 prueba.") = true /\
  Text.tokenize_text ascii_db
    (VStr (Text.tokenize_text ascii_db (VStr (str "Hola, mundo! 1 prueba.")))) =
  Text.tokenize_text ascii_db (VStr (str "Hola, mundo! 1 prueba.")).
Proof.
  split; [reflexivity|].
  apply (tokenize_text_idempotent ascii_db (str "Hola, mundo! 1 prueba.")).
  reflexivity.
Defined.

(** ** The command line *)

Section CliFacts.

Import Dedup Cli.
Variable db : unicode_db.

Lemma float_of_str_valid s f :
  Str.float_of_str db s = Ok f -> valid_binary prec emax f = true.
Proof.
  unfold Str.float_of_str.
  destruct (Str.remove_underscores _) as [t|]; [|done].
  destruct (Str.parse_sign _) as [sg body].
  destruct (Str.parse_decimal body) as [[m e]|].
  - intros [= <-]. unfold Str.decimal_to_float.
    destruct (m =? 0); [done|].
    destruct (0 <=? e); apply binary_normalize_valid.
  - unfold Str.parse_inf_or_nan.
    repeat match goal with |- context [decide ?P] => destruct (decide P) end;
      try done; intros [= <-]; by destruct sg.
Qed.

(** A float without a fractional part has an integer value, and the
    integer equals the float. *)
Lemma py_int_integer val :
  is_integer val = true ->
  exists z, Convert.py_int val = Ok z /\ Num.eqb (NFloat val) (NInt z) = true.
Proof.
  destruct val as [s|s| |s m e]; try done; intros H.
  - exists 0. split; [done|]. by destruct s.
  - simpl in H. eexists. split; [reflexivity|].
    unfold Num.eqb. simpl. destruct (0 <=? e) eqn:E.
    + assert (cond_Zopp s (Z.pos m) * 2 ^ e = cond_Zopp s (Z.pos m * 2 ^ e)) as ->
        by (destruct s; simpl; lia).
      by rewrite Z.compare_refl.
    + apply Z.leb_gt in E. apply Z.eqb_eq in H.
      assert (0 < 2 ^ (- e)) by (apply Z.pow_pos_nonneg; lia).
      assert (cond_Zopp s (Z.pos m / 2 ^ (- e)) * 2 ^ (- e) = cond_Zopp s (Z.pos m)) as ->.
      { pose proof (Z.div_mod (Z.pos m) (2 ^ (- e)) ltac:(lia)) as D.
        rewrite H in D. destruct s; simpl; lia. }
      by rewrite Z.compare_refl.
Qed.

(** The [try] block raises nothing but the [ValueError] of [float]. *)
Lemma parse_number_cases item :
  (exists v, parse_number db item = Ok v /\ typed db item v /\ wf_key v = true) \/
  parse_number db item = Raise ValueError.
Proof.
  unfold parse_number.
  destruct (Str.float_of_str db item) as [val|e] eqn:E; simpl.
  - left. destruct (is_integer val) eqn:I.
    + destruct (py_int_integer val I) as (z & -> & Hz). simpl.
      exists (VInt z). split; [done|]. split; [|done]. simpl. eauto.
    + exists (VFloat val). split; [done|]. split; [done|].
      simpl. by apply (float_of_str_valid item).
  - right. by rewrite (float_of_str_raises db item e E).
Qed.

(** What the loop appends for the items: one object for each item, of
    the type the item reads as; [numpy.nan] for the word [nan]; an
    identity of its own, from [next] on, for every other object. *)
Lemma process_input_loop_spec str_list : forall next processed,
  (1 <= next)%N ->
  exists out,
    process_input_loop db str_list next processed = Ok (processed ++ out) /\
    Forall2 (fun item o =>
               typed db item (obj_val o) /\ wf_key (obj_val o) = true /\
               (Str.lower db item = str "nan" -> o = numpy_nan)) str_list out /\
    Forall (fun o => o = numpy_nan \/ (next <= obj_id o)%N) out /\
    (forall a b, In a out -> In b out -> obj_id a = obj_id b -> a = b).
Proof.
  induction str_list as [|item rest IH]; intros next processed Hn.
  - exists []. rewrite app_nil_r. repeat split; try constructor. intros a b [].
  - assert (forall o next',
      (next' = next /\ o = numpy_nan \/ next' = N.succ next /\ obj_id o = next) ->
      typed db item (obj_val o) -> wf_key (obj_val o) = true ->
      (Str.lower db item = str "nan" -> o = numpy_nan) ->
      exists out,
        process_input_loop db rest next' (processed ++ [o]) = Ok (processed ++ out) /\
        Forall2 (fun item o =>
                   typed db item (obj_val o) /\ wf_key (obj_val o) = true /\
                   (Str.lower db item = str "nan" -> o = numpy_nan))
                (item :: rest) out /\
        Forall (fun o => o = numpy_nan \/ (next <= obj_id o)%N) out /\
        (forall a b, In a out -> In b out -> obj_id a = obj_id b -> a = b)) as Step.
    { intros o next' Hid Ht Hw Hnan.
      destruct (IH next' (processed ++ [o])) as (out & Hout & HF & Hids & Hinj).
      { destruct Hid as [[-> _]|[-> _]]; lia. }
      exists (o :: out). rewrite Hout, <- app_assoc. split; [done|].
      split; [by constructor|].
      assert (Forall (fun o' => o' = numpy_nan \/ (next <= obj_id o')%N) out) as Hids'.
      { eapply Forall_impl; [exact Hids|]. simpl. intros o' [->|Ho']; [by left|right].
        destruct Hid as [[-> _]|[-> _]]; lia. }
      split; [constructor; [|done]|].
      - destruct Hid as [[_ ->]|[_ ->]]; [by left|right; lia].
      - assert (forall b, In b out -> obj_id o = obj_id b -> o = b) as Hob.
        { intros b Hb Heq. rewrite Forall_forall in Hids.
          apply list_elem_of_In in Hb. specialize (Hids b Hb).
          destruct Hid as [[-> ->]|[-> Ho]].
          - destruct Hids as [->|Hge]; [done|]. simpl in Heq. lia.
          - destruct Hids as [->|Hge]; [simpl in Heq; lia|lia]. }
        intros a b [<-|Ha] [<-|Hb] Heq; auto.
        symmetry. by apply Hob. }
    simpl.
    destruct (decide (Str.lower db item = str "none")) as [En|En].
    { apply (Step (Obj next VNone)); try done; [by right|].
      simpl. intros E. by rewrite E in En. }
    destruct (decide (Str.lower db item = str "nan")) as [Ea|Ea].
    { apply (Step numpy_nan); try done. by left. }
    destruct (decide (item = [])) as [Ee|Ee].
    { apply (Step (Obj next (VStr []))); try done. by right. }
    destruct (parse_number_cases item) as [(v & -> & Ht & Hw)| ->].
    + apply (Step (Obj next v)); try done. by right.
    + apply (Step (Obj next (VStr item))); try done. by right.
Qed.

Lemma process_input_list_spec str_list :
  exists out,
    process_input_list db str_list = Ok out /\
    Forall2 (fun item o =>
               typed db item (obj_val o) /\ wf_key (obj_val o) = true /\
               (Str.lower db item = str "nan" -> o = numpy_nan)) str_list out /\
    Forall (fun o => o = numpy_nan \/ (1 <= obj_id o)%N) out /\
    (forall a b, In a out -> In b out -> obj_id a = obj_id b -> a = b).
Proof.
  destruct (process_input_loop_spec str_list 1 [] ltac:(lia)) as (out & H).
  exists out. exact H.
Qed.

Lemma typed_hashable item v : typed db item v -> hashable v = true.
Proof. by destruct v. Qed.

Lemma processed_hashable str_list out :
  Forall2 (fun item o =>
             typed db item (obj_val o) /\ wf_key (obj_val o) = true /\
             (Str.lower db item = str "nan" -> o = numpy_nan)) str_list out ->
  forallb hashable (List.map obj_val out) = true.
Proof.
  induction 1 as [|item o l l' (Ht & _ & _) _ IH]; simpl; [done|].
  by rewrite (typed_hashable item _ Ht), IH.
Qed.

Lemma processed_wf str_list out :
  Forall2 (fun item o =>
             typed db item (obj_val o) /\ wf_key (obj_val o) = true /\
             (Str.lower db item = str "nan" -> o = numpy_nan)) str_list out ->
  (forall a b, In a out -> In b out -> obj_id a = obj_id b -> a = b) ->
  wf_objs out.
Proof.
  intros HF Hinj. split.
  - clear Hinj. induction HF as [|item o l l' (_ & Hw & _) _ IH]; intros a [].
    + by subst.
    + by apply IH.
  - intros a b Ha Hb Hid. by rewrite (Hinj a b Ha Hb Hid).
Qed.

End CliFacts.

Lemma process_input_list_returns (db : unicode_db) (str_list : list pystr) :
  exists processed,
    Cli.process_input_list db str_list = Ok processed /\
    length processed = length str_list /\
    forallb hashable (List.map Dedup.obj_val processed) = true /\
    Dedup.wf_objs processed.
Proof.
  destruct (process_input_list_spec db str_list) as (out & Hout & HF & Hids & Hinj).
  exists out. split; [done|]. split; [symmetry; by eapply Forall2_length|].
  split; [by eapply processed_hashable|by eapply processed_wf].
Qed.

Lemma Forall2_In_l {A B} (R : A -> B -> Prop) l k x :
  Forall2 R l k -> In x l -> exists y, In y k /\ R x y.
Proof.
  induction 1 as [|a b l k Hab _ IH]; intros []; subst.
  - exists b. split; [by left|done].
  - destruct IH as (y & Hy & Hxy); [done|]. exists y. split; [by right|done].
Qed.

(** X17: [process_input_list] never raises: whatever the arguments
    are, it returns one value for each of them, none of the values is a
    list (so every one is hashable), and the values are well-formed
    keys of a dictionary. *)
Theorem process_input_list_total (db : unicode_db) (str_list : list pystr) :
  exists processed,
    Cli.process_input_list db str_list = Ok processed /\
    length processed = length str_list /\
    forallb hashable (List.map Dedup.obj_val processed) = true /\
    Dedup.wf_objs processed.
Proof. apply process_input_list_returns. Qed.

(** X18: the types [process_input_list] gives: an argument becomes
    [None] only when it is the word [none] in some letter case; it
    stays a string, unchanged, when it does not read as a number; it
    becomes an [int] only when [float] reads it, and then the [int]
    equals the float read; and every float it returns has a fractional
    part or is an infinity or not-a-number: a numeric string with an
    integral value, as [10.0] or [1e3], never stays a float. *)
Theorem process_input_list_typed
    (db : unicode_db) (str_list : list pystr) (processed : list Dedup.obj) :
  Cli.process_input_list db str_list = Ok processed ->
  Forall2 (fun item o => Cli.typed db item (Dedup.obj_val o)) str_list processed.
Proof.
  destruct (process_input_list_spec db str_list) as (out & -> & HF & _).
  intros [= <-]. eapply Forall2_impl; [exact HF|]. by intros item o (H & _).
Qed.

Lemma process_input_list_typed_witness :
  Cli.process_input_list ascii_db
    [str "10.0"; str "20.5"; str "None"; str "1e3"; str "text"; str "inf"] =
  Ok [Dedup.Obj 1 (VInt 10); Dedup.Obj 2 (VFloat f20_5); Dedup.Obj 3 VNone;
      Dedup.Obj 4 (VInt 1000); Dedup.Obj 5 (VStr (str "text"));
      Dedup.Obj 6 (VFloat (S754_infinity false))] /\
  Forall2 (fun item o => Cli.typed ascii_db item (Dedup.obj_val o))
    [str "10.0"; str "20.5"; str "None"; str "1e3"; str "text"; str "inf"]
    [Dedup.Obj 1 (VInt 10); Dedup.Obj 2 (VFloat f20_5); Dedup.Obj 3 VNone;
     Dedup.Obj 4 (VInt 1000); Dedup.Obj 5 (VStr (str "text"));
     Dedup.Obj 6 (VFloat (S754_infinity false))].
Proof.
  split; [vm_compute; reflexivity|].
  apply (process_input_list_typed ascii_db). vm_compute. reflexivity.
Defined.

(** X19: from the command line the cleaning commands cannot fail: the
    typed arguments hold no list, so [clean remove-missing],
    [clean fill-missing] (whose fill value is always found, the
    subscript never fails) and [clean unique] return: the non-missing
    values, the values with the missing ones replaced, and the first
    occurrences. *)
Theorem cli_cleaning_commands_return
    (db : unicode_db) (data : list pystr) (fill_value : pystr) :
  exists processed v,
    Cli.process_input_list db data = Ok processed /\
    Cli.process_input_value db fill_value = Ok (Some v) /\
    Cli.remove_missing db data =
      Ok (Cleaning.remove_missing_spec (List.map Dedup.obj_val processed)) /\
    Cli.fill_missing db data fill_value =
      Ok (Some (Cleaning.fill_missing_spec (List.map Dedup.obj_val processed)
                  (Dedup.obj_val v))) /\
    Cli.unique db data = Ok (Dedup.first_occurrences [] processed).
Proof.
  destruct (process_input_list_returns db data) as (l & Hl & _ & Hh & Hwf).
  destruct (process_input_list_returns db [fill_value]) as (l1 & Hl1 & Hlen & _).
  destruct l1 as [|v l1]; [done|].
  exists l, v. split; [done|].
  unfold Cli.process_input_value, Cli.remove_missing, Cli.fill_missing, Cli.unique,
    Cli.process_input_value.
  rewrite Hl, Hl1. cbn [bind head].
  split; [done|]. split; [by apply remove_missing_values_filter|].
  split; [|by apply remove_duplicated_values_wf].
  unfold Cleaning.filling_missing_values.
  by rewrite filling_missing_loop_spec.
Qed.

(** X20: the word [nan] always becomes the one object [numpy.nan], and
    a dictionary finds a key that is the same object: however often
    [nan] is among the arguments of [clean unique], [numpy.nan] is in
    the result exactly once, although it does not equal itself. *)
Theorem cli_unique_one_nan (db : unicode_db) (data : list pystr) :
  (exists item, In item data /\ Str.lower db item = str "nan") ->
  exists res before after,
    Cli.unique db data = Ok res /\
    res = before ++ Cli.numpy_nan :: after /\
    ~ In Cli.numpy_nan before /\ ~ In Cli.numpy_nan after.
Proof.
  intros (item & Hitem & Hnan).
  destruct (process_input_list_spec db data) as (l & Hl & HF & Hids & Hinj).
  pose proof (processed_wf db data l HF Hinj) as Hwf.
  unfold Cli.unique. rewrite Hl. cbn [bind].
  rewrite remove_duplicated_values_wf by done.
  set (res := Dedup.first_occurrences [] l).
  assert (In Cli.numpy_nan l) as Hin.
  { destruct (Forall2_In_l _ _ _ item HF Hitem) as (o & Ho & _ & _ & Hn).
    by rewrite <- (Hn Hnan). }
  assert (In Cli.numpy_nan res) as Hres.
  { destruct (first_occurrences_cover l Hwf l [] Cli.numpy_nan) as [Hc|Hc];
      [by apply incl_refl|done| |done].
    apply existsb_exists in Hc as (k & Hk & Hm).
    assert (In k l) as Hkl
      by (eapply sublist_incl; [apply first_occurrences_sublist|exact Hk]).
    unfold Dedup.key_match in Hm. apply orb_prop in Hm as [Hm|Hm].
    - apply N.eqb_eq in Hm. by rewrite <- (Hinj k Cli.numpy_nan Hkl Hin Hm).
    - destruct (Dedup.obj_val k) as [|[| |[]]| |]; done. }
  apply in_split in Hres as (before & after & Hres).
  exists res, before, after. split; [done|]. split; [done|].
  pose proof (proj1 (first_occurrences_distinct l [])) as Hd.
  fold res in Hd. rewrite Hres in Hd. clear -Hd.
  induction before as [|b before IH]; simpl in Hd.
  - apply andb_prop in Hd as [Hd _]. apply negb_true_iff in Hd.
    split; [by intros []|]. intros Hin.
    assert (existsb (Dedup.key_match Cli.numpy_nan) after = true); [|congruence].
    apply existsb_exists. exists Cli.numpy_nan. split; [done|apply key_match_refl].
  - apply andb_prop in Hd as [Hb Hd]. apply negb_true_iff in Hb.
    destruct (IH Hd) as [H1 H2]. split; [|done].
    intros [->|Hin]; [|done].
    assert (existsb (Dedup.key_match Cli.numpy_nan) (before ++ Cli.numpy_nan :: after)
            = true); [|congruence].
    apply existsb_exists. exists Cli.numpy_nan.
    split; [apply in_or_app; right; by left|apply key_match_refl].
Qed.

Lemma cli_unique_one_nan_witness :
  (exists item, In item [str "1"; str "nan"; str "NaN"; str "1.0"] /\
                Str.lower ascii_db item = str "nan") /\
  exists res before after,
    Cli.unique ascii_db [str "1"; str "nan"; str "NaN"; str "1.0"] = Ok res /\
    res = before ++ Cli.numpy_nan :: after /\
    ~ In Cli.numpy_nan before /\ ~ In Cli.numpy_nan after.
Proof.
  assert (exists item, In item [str "1"; str "nan"; str "NaN"; str "1.0"] /\
                       Str.lower ascii_db item = str "nan") as H.
  { exists (str "nan"). split; [simpl; tauto|reflexivity]. }
  split; [exact H|].
  exact (cli_unique_one_nan ascii_db [str "1"; str "nan"; str "NaN"; str "1.0"] H).
Defined.

(** X21: the command [struct flatten] changes nothing: the typed
    arguments are cut in two lists and spliced again, so its result is
    the list of the typed arguments itself. *)
Theorem cli_flatten_returns_arguments (db : unicode_db) (data : list pystr) :
  exists processed,
    Cli.process_input_list db data = Ok processed /\
    Cli.flatten db data = Ok (List.map Dedup.obj_val processed).
Proof.
  destruct (process_input_list_returns db data) as (l & Hl & _).
  exists l. split; [done|]. unfold Cli.flatten. rewrite Hl. cbn [bind].
  unfold Struct.flatten_list. rewrite flatten_loop_spec. simpl.
  by rewrite app_nil_r, take_drop.
Qed.

(** ** Shuffling, by positions *)

Section ShuffleMore.

Variable rng : Type.
Variable seed_state : Z -> rng.
Variable randbelow : rng -> nat -> nat * rng.

Hypothesis randbelow_lt :
  forall g n, (0 < n)%nat -> (fst (randbelow g n) < n)%nat.

(** The loop moves the elements as it moves their positions. *)
Lemma shuffle_loop_positions (data : list value) n : forall (x : list value) p g,
  (n <= length x)%nat ->
  Forall2 (fun i v => data !! i = Some v) p x ->
  exists x',
    fst (shuffle_loop rng randbelow n x g) = Some x' /\
    Forall2 (fun i v => data !! i = Some v) (positions_loop rng randbelow n p g) x'.
Proof.
  induction n as [|i IH]; intros x p g Hn HF; simpl.
  - by exists x.
  - destruct i as [|i']; [by exists x|].
    pose proof (randbelow_lt g (S (S i')) ltac:(lia)) as Hj.
    destruct (randbelow g (S (S i'))) as [j g'] eqn:E. simpl in Hj.
    pose proof (Forall2_length _ _ _ HF) as Hlen.
    destruct (lookup_lt_is_Some_2 x (S i') ltac:(lia)) as [xi Hxi].
    destruct (lookup_lt_is_Some_2 x j ltac:(lia)) as [xj Hxj].
    destruct (lookup_lt_is_Some_2 p (S i') ltac:(lia)) as [pi Hpi].
    destruct (lookup_lt_is_Some_2 p j ltac:(lia)) as [pj Hpj].
    unfold swap. rewrite Hxi, Hxj, Hpi, Hpj.
    apply IH.
    + rewrite !length_insert. lia.
    + apply Forall2_insert; [apply Forall2_insert; [done|]|].
      * by apply (Forall2_lookup_lr _ _ _ _ _ _ HF Hpj Hxj).
      * by apply (Forall2_lookup_lr _ _ _ _ _ _ HF Hpi Hxi).
Qed.

Lemma positions_loop_permutes n : forall p g,
  positions_loop rng randbelow n p g ≡ₚ p.
Proof.
  induction n as [|i IH]; intros p g; simpl; [done|].
  destruct i as [|i']; [done|].
  destruct (randbelow g (S (S i'))) as [j g'].
  destruct (p !! j) as [pj|] eqn:Hj; [|done].
  destruct (p !! S i') as [pi|] eqn:Hi; [|done].
  rewrite IH. by apply Permutation_insert_swap.
Qed.

Lemma lookup_seq_data (data : list value) :
  Forall2 (fun i v => data !! i = Some v) (seq 0 (length data)) data.
Proof.
  apply Forall2_same_length_lookup_2; [by rewrite length_seq|].
  intros i k v Hk Hv. apply lookup_seq in Hk as [-> _]. done.
Qed.

End ShuffleMore.

(** X22: what a seeded shuffle does to a list depends on the seed and
    on the length of the list only: the element at each position of
    the result is the element of [data] at the position that
    [positions] gives, a permutation of the positions that is computed
    without looking at the elements.  Two lists of the same length,
    shuffled with the same seed, are therefore shuffled in unison. *)
Theorem shuffle_list_by_positions
    (rng : Type) (seed_state : Z -> rng) (randbelow : rng -> nat -> nat * rng) :
  (forall g n, (0 < n)%nat -> (fst (randbelow g n) < n)%nat) ->
  forall (data : list value) (seed : Z) (g : rng),
    positions rng seed_state randbelow (length data) seed ≡ₚ seq 0 (length data) /\
    exists shuffled,
      fst (shuffle_list rng seed_state randbelow g data (Some seed)) = Some shuffled /\
      Forall2 (fun i v => data !! i = Some v)
        (positions rng seed_state randbelow (length data) seed) shuffled.
Proof.
  intros Hlt data seed g. split; [apply positions_loop_permutes|].
  rewrite shuffle_list_seeded. unfold random_shuffle, positions.
  apply shuffle_loop_positions; [done|lia|apply lookup_seq_data].
Qed.

Lemma shuffle_list_by_positions_witness :
  (forall g n, (0 < n)%nat -> (fst (lcg_randbelow g n) < n)%nat) /\
  positions Z lcg_seed lcg_randbelow (length sample_shuffle) 42 ≡ₚ
    seq 0 (length sample_shuffle) /\
  exists shuffled,
    fst (shuffle_list Z lcg_seed lcg_randbelow 7 sample_shuffle (Some 42)) =
      Some shuffled /\
    Forall2 (fun i v => sample_shuffle !! i = Some v)
      (positions Z lcg_seed lcg_randbelow (length sample_shuffle) 42) shuffled.
Proof.
  split; [exact lcg_randbelow_lt|].
  exact (shuffle_list_by_positions Z lcg_seed lcg_randbelow lcg_randbelow_lt
           sample_shuffle 42 7).
Defined.

(** ** Conversion of items that are not strings *)

Section ConvertMore.

(** A canonical mantissa is left as it is. *)
Lemma binary_round_aux_canonical s m e :
  fexp prec emax (Zdigits2 (Zpos m) + e) = e -> e <= emax - prec ->
  binary_round_aux prec emax s (Zpos m) e loc_Exact = S754_finite s m e.
Proof.
  intros Hc He. unfold binary_round_aux.
  assert (shr_fexp prec emax (Z.pos m) e loc_Exact =
          (Build_shr_record (Zpos m) false false, e)) as Hs.
  { unfold shr_fexp. rewrite Hc, Z.sub_diag. reflexivity. }
  rewrite Hs. simpl shr_m. simpl loc_of_shr_record. simpl round_nearest_even.
  rewrite Hs. simpl. by rewrite (proj2 (Z.leb_le e (emax - prec)) He).
Qed.

(** An integer of at most 53 bits is a float, exactly. *)
Lemma float_of_int_exact z :
  Z.abs z < 2 ^ 53 ->
  exists f, Num.float_of_int z = Ok f /\ Convert.py_int f = Ok z.
Proof.
  intros Hz. unfold Num.float_of_int.
  assert (forall s p, Zpos p < 2 ^ 53 ->
            exists m e, binary_round prec emax s p 0 = S754_finite s m e /\
                        Convert.py_int (S754_finite s m e) = Ok (cond_Zopp s (Zpos p)))
    as Hround.
  { intros s p Hp. unfold binary_round.
    change (Z.pos (digits2_pos p)) with (Zdigits2 (Zpos p)).
    destruct (shl_align_spec p 0 (fexp prec emax (Zdigits2 (Zpos p) + 0)))
      as (k & Hk & Hmz & Hez & Hmin).
    change (Z.pos (digits2_pos p)) with (Zdigits2 (Zpos p)).
    destruct (shl_align p 0 _) as [mz ez]. simpl in Hmz, Hez.
    assert (1 <= Zdigits2 (Zpos p) <= 53) as Hd.
    { rewrite Zdigits2_pos by lia. split; [pose proof (Z.log2_nonneg (Zpos p)); lia|].
      assert (Z.log2 (Zpos p) < 53); [|lia]. apply Z.log2_lt_pow2; lia. }
    rewrite fexp_eq in Hmin.
    assert (ez = - k) as -> by lia.
    assert (k = 53 - Zdigits2 (Zpos p)) as Hkv by lia.
    exists mz, (- k). split.
    - apply binary_round_aux_canonical; [|unfold emax, prec; lia].
      rewrite Hmz, Zdigits2_mul_pow2 by lia. rewrite fexp_eq. lia.
    - simpl. destruct (0 <=? - k) eqn:E.
      + apply Z.leb_le in E. assert (k = 0) as -> by lia.
        rewrite Hmz. simpl. by rewrite Z.mul_1_r, Z.mul_1_r.
      + rewrite Z.opp_involutive, Hmz, Z.div_mul; [done|].
        apply Z.pow_nonzero; lia. }
  destruct z as [|p|p]; simpl.
  - by exists (S754_zero false).
  - destruct (Hround false p Hz) as (m & e & -> & He). eauto.
  - destruct (Hround true p Hz) as (m & e & -> & He). eauto.
Qed.

Lemma convert_exact_integer db item z :
  Convert.exact_integer item = Some z ->
  (let! f := Convert.py_float db item in Convert.py_int f) = Ok z.
Proof.
  destruct item as [|[b|x|f]|s|l]; simpl; try done.
  - intros [= <-]. by destruct b.
  - destruct (Z.abs x <? 2 ^ 53) eqn:E; [|done]. intros [= <-].
    apply Z.ltb_lt in E. destruct (float_of_int_exact x E) as (f & -> & Hf). done.
Qed.

Lemma convert_loop_exact db data : forall int_values,
  forallb Convert.exact_or_untyped data = true ->
  Convert.convert_loop db data int_values =
  Ok (int_values ++ omap Convert.exact_integer data).
Proof.
  induction data as [|item rest IH]; intros acc H; simpl.
  - by rewrite app_nil_r.
  - simpl in H. apply andb_prop in H as [Hi Hr].
    destruct (Convert.exact_integer item) as [z|] eqn:E.
    + pose proof (convert_exact_integer db item z E) as Hc. simpl in Hc.
      rewrite Hc, IH by done. by rewrite <- app_assoc.
    + destruct item as [|n|s|l]; simpl in *; try done; try by apply IH.
      rewrite E in Hi. by apply bool_decide_eq_true, is_Some_None in Hi.
Qed.

End ConvertMore.

(** X23: [convert_to_integers] on items that are not strings: an
    integer below [2 ^ 53] in magnitude and a [bool] are returned as
    the integers they are, the conversion to a float and back changes
    nothing; [None] and nested lists are skipped without an error, the
    [TypeError] of [float] is caught. *)
Theorem convert_to_integers_exact (db : unicode_db) (data : list value) :
  forallb Convert.exact_or_untyped data = true ->
  Convert.convert_to_integers db data = Ok (omap Convert.exact_integer data).
Proof. intros H. unfold Convert.convert_to_integers. by rewrite convert_loop_exact. Qed.

Lemma convert_to_integers_exact_witness :
  forallb Convert.exact_or_untyped
    [VInt 7; VNone; VBool true; VList [VInt 1]; VInt (-9007199254740991)] = true /\
  Convert.convert_to_integers ascii_db
    [VInt 7; VNone; VBool true; VList [VInt 1]; VInt (-9007199254740991)] =
  Ok [7; 1; -9007199254740991].
Proof.
  split; [reflexivity|].
  apply (convert_to_integers_exact ascii_db
           [VInt 7; VNone; VBool true; VList [VInt 1]; VInt (-9007199254740991)]).
  reflexivity.
Defined.
